(** * RESP3 codec of resp-go: a shallow embedding of [Encode] and [Decode]

    The development follows the Go package [resp3]:
    - [Strconv]  the parts of Go's [strconv] and [fmt] the codec calls;
    - [Bufio]    [bufio.Reader] over an in-memory source, as the tests build it;
    - [Resp3]    [readLineCRLF] (util.go), [Decode] (decoder.go),
                 [Encode] and [encodeStruct] (encoder.go).

    Go's [int] is taken to be 64 bits wide (strconv.IntSize = 64). *)

From Stdlib Require Import ZArith List String Ascii Bool Lia PeanoNat.
From Stdlib Require Import Floats.SpecFloat.
Import ListNotations.

Local Open Scope string_scope.
Local Open Scope Z_scope.

Set Warnings "-register-all".

(** ** Byte strings *)

Definition CR : ascii := ascii_of_nat 13.
Definition LF : ascii := ascii_of_nat 10.
Definition CRLF : string := String CR (String LF EmptyString).

(** [len s] is Go's [len(s)] for a string: its number of bytes. *)
Definition len (s : string) : Z := Z.of_nat (String.length s).

(** [take n s] is [s[:n]] and [drop n s] is [s[n:]] (for [n <= len(s)]). *)
Fixpoint take (n : nat) (s : string) : string :=
  match n, s with
  | S n', String c s' => String c (take n' s')
  | _, _ => EmptyString
  end.

Fixpoint drop (n : nat) (s : string) : string :=
  match n, s with
  | S n', String _ s' => drop n' s'
  | _, _ => s
  end.

(** [byteAt i s] is [s[i]]; the zero byte stands for an index out of range,
    which no caller reaches. *)
Fixpoint byteAt (i : nat) (s : string) : ascii :=
  match s, i with
  | EmptyString, _ => zero
  | String c _, O => c
  | String _ s', S i' => byteAt i' s'
  end.

(** [IndexByte s c] is the index of the first [c] in [s]. *)
Fixpoint IndexByte (s : string) (c : ascii) : option nat :=
  match s with
  | EmptyString => None
  | String a s' =>
      if Ascii.eqb a c then Some O
      else match IndexByte s' c with
           | Some i => Some (S i)
           | None => None
           end
  end.

(** [zeros n] is the content of a freshly made [[]byte] of length [n]. *)
Fixpoint zeros (n : nat) : string :=
  match n with
  | O => EmptyString
  | S n' => String zero (zeros n')
  end.

(** ** Machine integers *)

Definition intSize : Z := 64.
Definition maxInt : Z := 2 ^ (intSize - 1) - 1.
Definition minInt : Z := - 2 ^ (intSize - 1).
Definition maxUint64 : Z := 2 ^ 64 - 1.

(** Two's-complement wrap-around of an [int] result. *)
Definition wrap (z : Z) : Z :=
  (z + 2 ^ (intSize - 1)) mod 2 ^ intSize - 2 ^ (intSize - 1).

(** The largest allocation the runtime accepts (linux/amd64: 48 address bits).
    [makeslice elemSize n] tells whether [make([]T, n)] returns; it panics with
    "makeslice: len out of range" otherwise.  An accepted allocation is taken
    to succeed. *)
Definition maxAlloc : Z := 2 ^ 48.

Definition makeslice (elemSize n : Z) : bool :=
  (0 <=? n) && (n * elemSize <=? maxAlloc).

Module Strconv.

Inductive numerr : Type := ErrSyntax | ErrRange.

Definition isDigit (c : ascii) : bool :=
  let n := nat_of_ascii c in (48 <=? n)%nat && (n <=? 57)%nat.

Definition digitVal (c : ascii) : Z := Z.of_nat (nat_of_ascii c) - 48.

Definition digitChar (d : Z) : ascii := ascii_of_nat (Z.to_nat (48 + d)).

(** [formatBits]: the decimal digits of [n >= 0], prepended to [acc]. *)
Fixpoint formatBits (fuel : nat) (n : Z) (acc : string) : string :=
  match fuel with
  | O => acc
  | S fuel' =>
      if n <? 10 then String (digitChar n) acc
      else formatBits fuel' (n / 10) (String (digitChar (n mod 10)) acc)
  end.

Definition formatUint (n : Z) : string :=
  formatBits (S (Z.to_nat (Z.log2 n))) n EmptyString.

(** [strconv.Itoa], [strconv.FormatInt(_, 10)] and [fmt.Sprintf("%d", _)]. *)
Definition Itoa (n : Z) : string :=
  if n <? 0 then String "-" (formatUint (- n)) else formatUint n.

(** [strconv.ParseUint(s, 10, 64)] on a non-empty [s]: the loop stops at the
    first byte that is no digit (syntax) or at the first overflow (range). *)
Fixpoint parseUintLoop (s : string) (n : Z) : Z * option numerr :=
  match s with
  | EmptyString => (n, None)
  | String c s' =>
      if negb (isDigit c) then (0, Some ErrSyntax)
      else if maxUint64 / 10 + 1 <=? n then (maxUint64, Some ErrRange)
      else
        let n1 := n * 10 + digitVal c in
        if maxUint64 <? n1 then (maxUint64, Some ErrRange)
        else parseUintLoop s' n1
  end.

Definition ParseUint (s : string) : Z * option numerr :=
  match s with
  | EmptyString => (0, Some ErrSyntax)
  | _ => parseUintLoop s 0
  end.

(** [strconv.ParseInt(s, 10, 0)], which [strconv.Atoi] agrees with on every
    input (its short-input fast path accepts the same syntax). *)
Definition ParseInt (s : string) : Z * option numerr :=
  match s with
  | EmptyString => (0, Some ErrSyntax)
  | String c s' =>
      let neg := Ascii.eqb c "-" in
      let s1 := if Ascii.eqb c "+" || neg then s' else s in
      match ParseUint s1 with
      | (_, Some ErrSyntax) => (0, Some ErrSyntax)
      | (un, _) =>
          let cutoff := 2 ^ (intSize - 1) in
          if negb neg && (cutoff <=? un) then (cutoff - 1, Some ErrRange)
          else if neg && (cutoff <? un) then (- cutoff, Some ErrRange)
          else ((if neg then - un else un), None)
      end
  end.

Definition Atoi (s : string) : Z * option numerr := ParseInt s.

(** *** Floating point

    A [float64] is a binary64 number in the Standard Library's [spec_float]
    form.  [ParseFloat] and [formatFloat] follow the documented behaviour of
    [strconv.ParseFloat(_, 64)] and of the verb [%f]: the accepted syntax is
    that of [readFloat] and [special], the value is the exact one rounded
    to nearest, ties to even. *)

Definition float64 : Type := spec_float.

Definition lower (c : ascii) : ascii :=
  let n := nat_of_ascii c in
  if (65 <=? n)%nat && (n <=? 90)%nat then ascii_of_nat (n + 32) else c.

Definition isHexLetter (c : ascii) : bool :=
  let n := nat_of_ascii (lower c) in (97 <=? n)%nat && (n <=? 102)%nat.

Definition hexLetterVal (c : ascii) : Z :=
  Z.of_nat (nat_of_ascii (lower c)) - 97 + 10.

Fixpoint commonPrefixLenIgnoreCase (s prefix : string) : nat :=
  match s, prefix with
  | String c s', String p prefix' =>
      if Ascii.eqb (lower c) p then S (commonPrefixLenIgnoreCase s' prefix')
      else O
  | _, _ => O
  end.

(** [special]: the value and the number of bytes of an infinity or a NaN. *)
Definition special (s : string) : option (float64 * nat) :=
  let inf (sign : bool) (nsign : nat) (t : string) :=
    let n := commonPrefixLenIgnoreCase t "infinity" in
    let n := if (3 <? n)%nat && (n <? 8)%nat then 3%nat else n in
    if (n =? 3)%nat || (n =? 8)%nat
    then Some (S754_infinity sign, (nsign + n)%nat) else None in
  match s with
  | EmptyString => None
  | String c s' =>
      if Ascii.eqb c "+" then inf false 1%nat s'
      else if Ascii.eqb c "-" then inf true 1%nat s'
      else if Ascii.eqb (lower c) "i" then inf false 0%nat s
      else if Ascii.eqb (lower c) "n" then
        if (commonPrefixLenIgnoreCase s "nan" =? 3)%nat
        then Some (S754_nan, 3%nat) else None
      else None
  end.

(** The state of [readFloat]'s digit loop: significant digits read so far as
    a number, their count, the position of the point, and the flags. *)
Record mant : Type := mkMant {
  m_val : Z; m_nd : Z; m_dp : Z;
  m_sawdot : bool; m_sawdigits : bool; m_underscores : bool }.

Fixpoint readMantissa (hex : bool) (s : string) (st : mant) : mant * string :=
  match s with
  | EmptyString => (st, s)
  | String c s' =>
      let base := if hex then 16 else 10 in
      if Ascii.eqb c "_" then
        readMantissa hex s'
          (mkMant (m_val st) (m_nd st) (m_dp st) (m_sawdot st) (m_sawdigits st) true)
      else if Ascii.eqb c "." then
        if m_sawdot st then (st, s)
        else readMantissa hex s'
               (mkMant (m_val st) (m_nd st) (m_nd st) true (m_sawdigits st)
                  (m_underscores st))
      else if isDigit c then
        if Ascii.eqb c "0" && (m_nd st =? 0) then
          readMantissa hex s'
            (mkMant (m_val st) (m_nd st) (m_dp st - 1) (m_sawdot st) true
               (m_underscores st))
        else
          readMantissa hex s'
            (mkMant (m_val st * base + digitVal c) (m_nd st + 1) (m_dp st)
               (m_sawdot st) true (m_underscores st))
      else if hex && isHexLetter c then
        readMantissa hex s'
          (mkMant (m_val st * base + hexLetterVal c) (m_nd st + 1) (m_dp st)
             (m_sawdot st) true (m_underscores st))
      else (st, s)
  end.

(** The digits of an exponent; the value stops growing at 10000. *)
Fixpoint readExponent (s : string) (e : Z) (underscores : bool)
  : Z * bool * string :=
  match s with
  | EmptyString => (e, underscores, s)
  | String c s' =>
      if Ascii.eqb c "_" then readExponent s' e true
      else if isDigit c then
        readExponent s' (if e <? 10000 then e * 10 + digitVal c else e) underscores
      else (e, underscores, s)
  end.

Fixpoint underscoreOKLoop (hex : bool) (s : string) (saw : ascii) : bool :=
  match s with
  | EmptyString => negb (Ascii.eqb saw "_")
  | String c s' =>
      if isDigit c || (hex && isHexLetter c) then underscoreOKLoop hex s' "0"
      else if Ascii.eqb c "_" then
        if Ascii.eqb saw "0" then underscoreOKLoop hex s' "_" else false
      else if Ascii.eqb saw "_" then false
      else underscoreOKLoop hex s' "!"
  end.

Definition underscoreOK (s : string) : bool :=
  let s := match s with
           | String c s' => if Ascii.eqb c "-" || Ascii.eqb c "+" then s' else s
           | EmptyString => s
           end in
  match s with
  | String "0" (String p s') =>
      let q := lower p in
      if Ascii.eqb q "b" || Ascii.eqb q "o" || Ascii.eqb q "x"
      then underscoreOKLoop (Ascii.eqb q "x") s' "0"
      else underscoreOKLoop false s "^"
  | _ => underscoreOKLoop false s "^"
  end.

(** The result of [readFloat]: sign, base, the digits as a number, the
    exponent of the base they are scaled by (a power of ten, or of two for
    a hexadecimal mantissa), and the bytes left unread. *)
Record floatSyntax : Type := mkFloatSyntax {
  fs_neg : bool; fs_hex : bool; fs_mant : Z; fs_exp : Z; fs_rest : string }.

Definition readFloat (s : string) : option floatSyntax :=
  match s with
  | EmptyString => None
  | String c0 s0 =>
      let neg := Ascii.eqb c0 "-" in
      let s1 := if Ascii.eqb c0 "+" || neg then s0 else s in
      let hex := match s1 with
                 | String "0" (String x (String _ _)) => Ascii.eqb (lower x) "x"
                 | _ => false
                 end in
      let s2 := if hex then drop 2 s1 else s1 in
      let '(st, s3) := readMantissa hex s2 (mkMant 0 0 0 false false false) in
      if negb (m_sawdigits st) then None
      else
        let dp := if m_sawdot st then m_dp st else m_nd st in
        let dp := if hex then dp * 4 else dp in
        let nd := if hex then m_nd st * 4 else m_nd st in
        let expChar := (if hex then "p" else "e")%char in
        let finish (dp : Z) (underscores : bool) (rest : string) :=
          let consumed := take (String.length s - String.length rest) s in
          if underscores && negb (underscoreOK consumed) then None
          else Some (mkFloatSyntax neg hex (m_val st) (dp - nd) rest) in
        match s3 with
        | String e s4 =>
            if Ascii.eqb (lower e) expChar then
              match s4 with
              | EmptyString => None
              | String sg s5 =>
                  let esign := if Ascii.eqb sg "-" then -1 else 1 in
                  let s6 := if Ascii.eqb sg "+" || Ascii.eqb sg "-" then s5 else s4 in
                  match s6 with
                  | String d _ =>
                      if isDigit d then
                        let '(ev, us, rest) := readExponent s6 0 (m_underscores st) in
                        finish (dp + ev * esign) us rest
                      else None
                  | EmptyString => None
                  end
              end
            else if hex then None
            else finish dp (m_underscores st) s3
        | EmptyString =>
            if hex then None else finish dp (m_underscores st) s3
        end
  end.

(** [n / d] rounded to binary64, to nearest, ties to even: the quotient is
    taken with more than 64 bits and a sticky bit for the remainder. *)
Definition roundRatio (neg : bool) (n d : Z) : float64 :=
  let k := Z.max 0 (66 + Z.log2 d - Z.log2 n) in
  let q := (n * 2 ^ k) / d in
  let sticky := if (n * 2 ^ k) mod d =? 0 then 0 else 1 in
  match 2 * q + sticky with
  | Zpos m => binary_round 53 1024 neg m (- k - 1)
  | _ => S754_zero neg
  end.

Definition floatValue (f : floatSyntax) : float64 :=
  if fs_mant f =? 0 then S754_zero (fs_neg f)
  else
    let base := if fs_hex f then 2 else 10 in
    if 0 <=? fs_exp f
    then roundRatio (fs_neg f) (fs_mant f * base ^ fs_exp f) 1
    else roundRatio (fs_neg f) (fs_mant f) (base ^ (- fs_exp f)).

Definition ParseFloat (s : string) : float64 * option numerr :=
  match special s with
  | Some (f, n) =>
      if (n =? String.length s)%nat then (f, None)
      else (S754_zero false, Some ErrSyntax)
  | None =>
      match readFloat s with
      | None => (S754_zero false, Some ErrSyntax)
      | Some f =>
          match fs_rest f with
          | EmptyString =>
              match floatValue f with
              | S754_infinity sg => (S754_infinity sg, Some ErrRange)
              | v => (v, None)
              end
          | _ => (S754_zero false, Some ErrSyntax)
          end
      end
  end.

Fixpoint repeatZero (n : nat) : string :=
  match n with
  | O => EmptyString
  | S n' => String "0" (repeatZero n')
  end.

Definition padZeros (width : nat) (s : string) : string :=
  repeatZero (width - String.length s) ++ s.

(** [fmt.Sprintf("%f", f)]: six digits after the point. *)
Definition formatFloat (f : float64) : string :=
  match f with
  | S754_nan => "NaN"
  | S754_infinity sg => if sg then "-Inf" else "+Inf"
  | S754_zero sg => (if sg then "-" else "") ++ "0.000000"
  | S754_finite sg m e =>
      let num := Zpos m * 10 ^ 6 in
      let r :=
        if 0 <=? e then num * 2 ^ e
        else
          let d := 2 ^ (- e) in
          let q := num / d in
          let rem := num mod d in
          match 2 * rem ?= d with
          | Lt => q
          | Gt => q + 1
          | Eq => if Z.even q then q else q + 1
          end in
      (if sg then "-" else "") ++ formatUint (r / 10 ^ 6) ++ "."
        ++ padZeros 6 (formatUint (r mod 10 ^ 6))
  end.

End Strconv.

(** ** Errors *)

Inductive error : Type :=
| EOF                                   (* io.EOF *)
| ErrUnexpectedEOF                      (* io.ErrUnexpectedEOF *)
| ErrNoProgress                         (* io.ErrNoProgress *)
| ErrNegativeCount                      (* bufio.ErrNegativeCount *)
| NumError (fn : string) (num : string) (err : Strconv.numerr)   (* *strconv.NumError *)
| ErrUnsupportedRespDataType (dataType : ascii)
    (* "unsupported datatype found: %v: %w" wrapping the sentinel *)
| ErrUnsupportedType (typ : string).    (* "unsupported type: %v" of Encode *)

(** The test [err == io.EOF || err == io.ErrUnexpectedEOF] of decoder.go. *)
Definition isEOF (e : option error) : bool :=
  match e with
  | Some EOF | Some ErrUnexpectedEOF => true
  | _ => false
  end.

Definition atoiError (s : string) (e : option Strconv.numerr) : option error :=
  match e with
  | Some k => Some (NumError "Atoi" s k)
  | None => None
  end.

Definition parseFloatError (s : string) (e : option Strconv.numerr) : option error :=
  match e with
  | Some k => Some (NumError "ParseFloat" s k)
  | None => None
  end.

Module Bufio.

Definition minReadBufferSize : nat := 16.
Definition defaultBufSize : nat := 4096.

(** A [bufio.Reader] whose underlying reader is a [strings.Reader] (or a
    [bytes.Buffer]), the source every test of the package reads from.
    - [buf]   the bytes read from the source and not yet consumed,
              [b.buf[b.r:b.w]];
    - [rd]    the bytes the source has not delivered yet;
    - [extra] the capacity above the minimum: [len(b.buf)] is
              [minReadBufferSize + extra].
    Such a source returns [io.EOF] only together with zero bytes, so the
    pending error [b.err] is nil between two calls and is not part of the
    state. *)
Record Reader : Type := mkReader { buf : string; rd : string; extra : nat }.

Definition bufSize (b : Reader) : nat := (minReadBufferSize + extra b)%nat.

Definition withBuf (b : Reader) (s : string) : Reader :=
  mkReader s (rd b) (extra b).

Definition NewReaderSize (src : string) (size : nat) : Reader :=
  mkReader EmptyString src (size - minReadBufferSize).

Definition NewReader (src : string) : Reader := NewReaderSize src defaultBufSize.

Definition Buffered (b : Reader) : Z := len (buf b).

(** [fill] reads once from the source into the free part of the buffer.
    It is called with a buffer that is not full.  The flag tells that the
    source returned [io.EOF]. *)
Definition fill (b : Reader) : Reader * bool :=
  match rd b with
  | EmptyString => (b, true)
  | _ =>
      let n := Nat.min (bufSize b - String.length (buf b)) (String.length (rd b)) in
      (mkReader (buf b ++ take n (rd b)) (drop n (rd b)) (extra b), false)
  end.

Definition ReadByte (b : Reader) : ascii * option error * Reader :=
  match buf b with
  | String c rest => (c, None, withBuf b rest)
  | EmptyString =>
      let '(b1, eof) := fill b in
      if eof then (zero, Some EOF, b1)
      else match buf b1 with
           | String c rest => (c, None, withBuf b1 rest)
           | EmptyString => (zero, Some ErrNoProgress, b1)
           end
  end.

(** [ReadString]: [ReadSlice] called until the delimiter or an error, the
    fragments returned on a full buffer collected in [acc]. *)
Fixpoint readStringLoop (fuel : nat) (acc : string) (b : Reader) (delim : ascii)
  : string * option error * Reader :=
  match IndexByte (buf b) delim with
  | Some i => (acc ++ take (S i) (buf b), None, withBuf b (drop (S i) (buf b)))
  | None =>
      match fuel with
      | O => (acc, Some ErrNoProgress, b)
      | S fuel' =>
          if (bufSize b <=? String.length (buf b))%nat
          then readStringLoop fuel' (acc ++ buf b) (withBuf b EmptyString) delim
          else
            let '(b1, eof) := fill b in
            if eof then (acc ++ buf b, Some EOF, withBuf b EmptyString)
            else readStringLoop fuel' acc b1 delim
      end
  end.

Definition ReadString (b : Reader) (delim : ascii) : string * option error * Reader :=
  readStringLoop (2 * String.length (rd b) + 2) EmptyString b delim.

(** [Read(p)] with [len(p) = n]: the bytes copied into [p]. *)
Definition Read (b : Reader) (n : nat) : string * option error * Reader :=
  match n with
  | O => (EmptyString, None, b)
  | _ =>
      match buf b with
      | EmptyString =>
          match rd b with
          | EmptyString => (EmptyString, Some EOF, b)
          | _ =>
              if (bufSize b <=? n)%nat then
                (* large read, empty buffer: straight from the source *)
                (take n (rd b), None, mkReader EmptyString (drop n (rd b)) (extra b))
              else
                let '(b1, _) := fill b in
                (take n (buf b1), None, withBuf b1 (drop n (buf b1)))
          end
      | _ => (take n (buf b), None, withBuf b (drop n (buf b)))
      end
  end.

Fixpoint discardLoop (fuel : nat) (remain : nat) (b : Reader) : option error * Reader :=
  match fuel with
  | O => (Some ErrNoProgress, b)
  | S fuel' =>
      let '(b1, eof) :=
        match buf b with
        | EmptyString => fill b
        | _ => (b, false)
        end in
      let skip := Nat.min (String.length (buf b1)) remain in
      let b2 := withBuf b1 (drop skip (buf b1)) in
      if (remain - skip =? 0)%nat then (None, b2)
      else if eof then (Some EOF, b2)
      else discardLoop fuel' (remain - skip) b2
  end.

Definition Discard (b : Reader) (n : Z) : option error * Reader :=
  if n <? 0 then (Some ErrNegativeCount, b)
  else if n =? 0 then (None, b)
  else discardLoop (S (Z.to_nat n)) (Z.to_nat n) b.

End Bufio.

Module Resp3.
Import Bufio.

(** *** Values

    A Go value passed to [Encode] or returned by [Decode] as an
    [interface{}], by dynamic type.  A map lists its pairs in the order a
    [range] statement visits them (an order Go leaves unspecified); no key
    occurs twice.  [VError] is any value whose type implements [error],
    with the text [Error()] returns.  [VOther] is a value of any other type
    (a channel, a pointer, a named scalar type, ...), with the name of its
    type. *)

Inductive intKind : Type :=
| Int | Int8 | Int16 | Int32 | Int64 | Uint | Uint8 | Uint16 | Uint32 | Uint64.

Inductive floatKind : Type := Float32 | Float64.

(** [reflect.StructField], with the two members [encodeStruct] reads. *)
Record StructField : Type := mkField { Name : string; PkgPath : string }.

Definition IsExported (f : StructField) : bool := String.eqb (PkgPath f) "".

Inductive value : Type :=
| VNil
| VString (s : string)
| VInt (k : intKind) (n : Z)
| VFloat (k : floatKind) (f : Strconv.float64)
| VBool (b : bool)
| VError (msg : string)
| VArray (elems : list value)                 (* []interface{} *)
| VStrings (elems : list string)              (* []string *)
| VInts (k : intKind) (elems : list Z)        (* []int, ..., []uint64 *)
| VBools (elems : list bool)                  (* []bool *)
| VFloats (k : floatKind) (elems : list Strconv.float64)
| VMapString (m : list (string * value))      (* map[string]interface{} *)
| VMapInt64 (m : list (Z * value))            (* map[int64]interface{} *)
| VMapIface (m : list (value * value))        (* map[interface{}]interface{} *)
| VTime (unixMilli : Z)                       (* time.Time *)
| VStruct (fields : list (StructField * value))
| VOther (typ : string).

(** *** util.go *)

Definition readLineCRLF (reader : Reader) : string * option error * Reader :=
  let '(line, err, reader) := ReadString reader LF in
  match err with
  | Some e => (EmptyString, Some e, reader)
  | None =>
      if (len line <? 2) || negb (Ascii.eqb (byteAt (String.length line - 2) line) CR)
      then (EmptyString, Some ErrUnexpectedEOF, reader)
      else (take (String.length line - 2) line, None, reader)
  end.

(** *** decoder.go *)

Inductive panic : Type :=
| MakesliceLenOutOfRange      (* make with a length out of range *)
| UnhashableKey               (* map assignment with a slice or map as key *)
| TypeAssertion.              (* k.(string) or k.(int64) on another type *)

(** What a call of [Decode] does: it returns a value and an error with the
    reader advanced, or panics.  [OutOfFuel] belongs to the model only. *)
Inductive outcome : Type :=
| Return (v : value) (err : option error) (reader : Reader)
| Panic (p : panic)
| OutOfFuel.

(** Whether a value Decode returned can be a map key: slices and maps
    cannot be hashed. *)
Definition hashable (key : value) : bool :=
  match key with
  | VArray _ | VStrings _ | VInts _ _ | VBools _ | VFloats _ _
  | VMapString _ | VMapInt64 _ | VMapIface _ => false
  | _ => true
  end.

Definition intKind_eqb (a b : intKind) : bool :=
  match a, b with
  | Int, Int | Int8, Int8 | Int16, Int16 | Int32, Int32 | Int64, Int64
  | Uint, Uint | Uint8, Uint8 | Uint16, Uint16 | Uint32, Uint32
  | Uint64, Uint64 => true
  | _, _ => false
  end.

Definition floatKind_eqb (a b : floatKind) : bool :=
  match a, b with
  | Float32, Float32 | Float64, Float64 => true
  | _, _ => false
  end.

(** Go's [==] on two keys Decode returned: equal dynamic types and equal
    values.  Two errors are two allocations of [errors.New] and differ; a
    NaN differs from itself. *)
Definition keyEq (a b : value) : bool :=
  match a, b with
  | VNil, VNil => true
  | VString s, VString t => String.eqb s t
  | VInt k n, VInt k' n' => intKind_eqb k k' && (n =? n')
  | VFloat k f, VFloat k' f' => floatKind_eqb k k' && SFeqb f f'
  | VBool x, VBool y => Bool.eqb x y
  | _, _ => false
  end.

(** [m[key] = v]: an equal key has its value and its key replaced. *)
Fixpoint mapassign {K : Type} (eq : K -> K -> bool) (m : list (K * value))
  (key : K) (v : value) : list (K * value) :=
  match m with
  | [] => [(key, v)]
  | (k, x) :: m' =>
      if eq k key then (key, v) :: m' else (k, x) :: mapassign eq m' key v
  end.

(** The two conversion loops that end the map case. *)
Fixpoint toStringMap (tempMap : list (value * value))
  (finalMap : list (string * value)) : option (list (string * value)) :=
  match tempMap with
  | [] => Some finalMap
  | (VString k, v) :: rest => toStringMap rest (mapassign String.eqb finalMap k v)
  | _ => None
  end.

Fixpoint toInt64Map (tempMap : list (value * value))
  (finalMap : list (Z * value)) : option (list (Z * value)) :=
  match tempMap with
  | [] => Some finalMap
  | (VInt Int64 k, v) :: rest => toInt64Map rest (mapassign Z.eqb finalMap k v)
  | _ => None
  end.

(** The state of the map loop when it ends, or the return that left it. *)
Inductive mapLoop : Type :=
| MapDone (tempMap : list (value * value))
    (isAllStringKeys isAllInt64Keys : bool) (reader : Reader)
| MapLeft (o : outcome).

(** A bulk payload: [make([]byte, length)], [reader.Read(value)],
    [string(value)].  The bytes [Read] did not fill stay zero. *)
Definition readPayload (reader : Reader) (length : Z)
  : string * option error * Reader :=
  let '(data, err, reader) := Read reader (Z.to_nat length) in
  (data ++ zeros (Z.to_nat length - String.length data), err, reader).

Fixpoint Decode_ (fuel : nat) (reader : Reader) {struct fuel} : outcome :=
  match fuel with
  | O => OutOfFuel
  | S fuel =>
  let '(dataType, err, reader) := ReadByte reader in
  match err with
  | Some EOF => Return VNil (Some EOF) reader
  | Some e => Return VNil (Some e) reader
  | None =>
  match dataType with
  | "+"%char => (* Simple String *)
      let '(line, err, reader) := readLineCRLF reader in
      if isEOF err then Return VNil (Some ErrUnexpectedEOF) reader
      else match err with
      | Some e => Return VNil (Some e) reader
      | None => Return (VString line) None reader
      end
  | "-"%char => (* Error *)
      let '(line, err, reader) := readLineCRLF reader in
      if isEOF err then Return VNil (Some ErrUnexpectedEOF) reader
      else match err with
      | Some e => Return VNil (Some e) reader
      | None => Return (VError line) None reader
      end
  | ":"%char => (* Integer *)
      let '(line, err, reader) := readLineCRLF reader in
      if isEOF err then Return VNil (Some ErrUnexpectedEOF) reader
      else match err with
      | Some e => Return VNil (Some e) reader
      | None =>
          if len line =? 0 then Return VNil (Some ErrUnexpectedEOF) reader
          else
            let '(xint, castErr) := Strconv.Atoi line in
            match atoiError line castErr with
            | Some e => Return VNil (Some e) reader
            | None => Return (VInt Int64 xint) None reader
            end
      end
  | ","%char => (* Float *)
      let '(line, err, reader) := readLineCRLF reader in
      if isEOF err then Return VNil (Some ErrUnexpectedEOF) reader
      else match err with
      | Some e => Return VNil (Some e) reader
      | None =>
          let '(xfloat, castErr) := Strconv.ParseFloat line in
          match parseFloatError line castErr with
          | Some e => Return (VFloat Float64 xfloat) (Some e) reader
          | None => Return (VFloat Float64 xfloat) None reader
          end
      end
  | "$"%char => (* Bulk String *)
      let '(lengthStr, err, reader) := readLineCRLF reader in
      if isEOF err then Return VNil (Some ErrUnexpectedEOF) reader
      else match err with
      | Some e => Return VNil (Some e) reader
      | None =>
          let '(length, err) := Strconv.Atoi lengthStr in
          match atoiError lengthStr err with
          | Some e => Return VNil (Some e) reader
          | None =>
              if length =? -1 then Return VNil None reader
              else if Buffered reader <? wrap (length + 2)
              then Return VNil (Some ErrUnexpectedEOF) reader
              else if negb (makeslice 1 length) then Panic MakesliceLenOutOfRange
              else
                let '(value, err, reader) := readPayload reader length in
                if isEOF err then Return VNil (Some ErrUnexpectedEOF) reader
                else match err with
                | Some e => Return VNil (Some e) reader
                | None =>
                    let '(err, reader) := Discard reader 2 in
                    match err with
                    | Some e => Return VNil (Some e) reader
                    | None => Return (VString value) None reader
                    end
                end
          end
      end
  | "="%char => (* Verbatim String *)
      let '(lengthStr, err, reader) := readLineCRLF reader in
      if isEOF err then Return VNil (Some ErrUnexpectedEOF) reader
      else match err with
      | Some e => Return VNil (Some e) reader
      | None =>
          let '(length, err) := Strconv.Atoi lengthStr in
          match atoiError lengthStr err with
          | Some e => Return VNil (Some e) reader
          | None =>
              if length =? -1 then Return VNil None reader
              else if length =? 0 then Return (VString EmptyString) None reader
              else if Buffered reader <? wrap (length + 2)
              then Return VNil (Some ErrUnexpectedEOF) reader
              else if negb (makeslice 1 length) then Panic MakesliceLenOutOfRange
              else
                let '(value, err, reader) := readPayload reader length in
                if isEOF err then Return VNil (Some ErrUnexpectedEOF) reader
                else match err with
                | Some e => Return VNil (Some e) reader
                | None =>
                    let '(_, reader) := Discard reader 2 in
                    Return (VString value) None reader
                end
          end
      end
  | "*"%char => (* Array *)
      let '(countStr, err, reader) := readLineCRLF reader in
      if isEOF err then Return VNil (Some ErrUnexpectedEOF) reader
      else match err with
      | Some e => Return VNil (Some e) reader
      | None =>
          let '(count, err) := Strconv.Atoi countStr in
          match atoiError countStr err with
          | Some e => Return VNil (Some e) reader
          | None =>
              if count =? -1 then Return VNil None reader
              else if negb (makeslice 16 count) then Panic MakesliceLenOutOfRange
              else decodeArray_ fuel reader count 0 []
          end
      end
  | "#"%char => (* Boolean *)
      let '(b, err, reader) := ReadByte reader in
      if isEOF err then Return VNil (Some ErrUnexpectedEOF) reader
      else match err with
      | Some e => Return (VBool false) (Some e) reader
      | None =>
          let '(_, reader) := Discard reader 2 in
          Return (VBool (Ascii.eqb b "t")) None reader
      end
  | "%"%char => (* Map of interface{} *)
      let '(line, _, reader) := readLineCRLF reader in
      let '(size, _) := Strconv.Atoi line in
      match decodeMap_ fuel reader size 0 [] true true with
      | MapLeft o => o
      | MapDone tempMap isAllStringKeys isAllInt64Keys reader =>
          if isAllStringKeys then
            match toStringMap tempMap [] with
            | Some finalMap => Return (VMapString finalMap) None reader
            | None => Panic TypeAssertion
            end
          else if isAllInt64Keys then
            match toInt64Map tempMap [] with
            | Some finalMap => Return (VMapInt64 finalMap) None reader
            | None => Panic TypeAssertion
            end
          else Return (VMapIface tempMap) None reader
      end
  | "!"%char => (* Blob Error *)
      let '(lengthStr, err, reader) := readLineCRLF reader in
      if isEOF err then Return VNil (Some ErrUnexpectedEOF) reader
      else match err with
      | Some e => Return VNil (Some e) reader
      | None =>
          let '(length, err) := Strconv.Atoi lengthStr in
          match atoiError lengthStr err with
          | Some e => Return VNil (Some e) reader
          | None =>
              if Buffered reader <? wrap (length + 2)
              then Return VNil (Some ErrUnexpectedEOF) reader
              else if negb (makeslice 1 length) then Panic MakesliceLenOutOfRange
              else
                let '(value, err, reader) := readPayload reader length in
                if isEOF err then Return VNil (Some ErrUnexpectedEOF) reader
                else match err with
                | Some e => Return VNil (Some e) reader
                | None =>
                    let '(_, reader) := Discard reader 2 in
                    Return (VError value) None reader
                end
          end
      end
  | "_"%char =>
      let '(_, reader) := Discard reader 2 in
      Return VNil None reader
  | _ => Return VNil (Some (ErrUnsupportedRespDataType dataType)) reader
  end
  end
  end

(** [for i := 0; i < count; i++] of the array case, from index [i] on;
    [array] holds the elements set so far, [array[0..i-1]]. *)
with decodeArray_ (fuel : nat) (reader : Reader) (count i : Z)
       (array : list value) {struct fuel} : outcome :=
  match fuel with
  | O => OutOfFuel
  | S fuel =>
      if i <? count then
        if Buffered reader =? 0 then Return VNil (Some ErrUnexpectedEOF) reader
        else
          match Decode_ fuel reader with
          | Return element err reader =>
              if isEOF err then Return VNil (Some ErrUnexpectedEOF) reader
              else match err with
              | Some e => Return VNil (Some e) reader
              | None => decodeArray_ fuel reader count (wrap (i + 1)) (array ++ [element])
              end
          | o => o
          end
      else Return (VArray array) None reader
  end

(** [for i := 0; i < size; i += 2] of the map case, from index [i] on. *)
with decodeMap_ (fuel : nat) (reader : Reader) (size i : Z)
       (tempMap : list (value * value)) (isAllStringKeys isAllInt64Keys : bool)
       {struct fuel} : mapLoop :=
  match fuel with
  | O => MapLeft OutOfFuel
  | S fuel =>
      if i <? size then
        if Buffered reader =? 0 then MapLeft (Return VNil (Some ErrUnexpectedEOF) reader)
        else
          match Decode_ fuel reader with
          | Return key err reader =>
              if isEOF err then MapLeft (Return VNil (Some ErrUnexpectedEOF) reader)
              else match err with
              | Some e => MapLeft (Return VNil (Some e) reader)
              | None =>
                  match Decode_ fuel reader with
                  | Return value err reader =>
                      if isEOF err then MapLeft (Return VNil (Some ErrUnexpectedEOF) reader)
                      else match err with
                      | Some e => MapLeft (Return VNil (Some e) reader)
                      | None =>
                          match key with
                          | VNil =>
                              decodeMap_ fuel reader size (wrap (i + 2)) tempMap
                                isAllStringKeys isAllInt64Keys
                          | _ =>
                              let '(isAllStringKeys, isAllInt64Keys) :=
                                match key with
                                | VString _ => (isAllStringKeys, false)
                                | VInt Int64 _ => (false, isAllInt64Keys)
                                | _ => (false, false)
                                end in
                              if negb (hashable key) then MapLeft (Panic UnhashableKey)
                              else
                                decodeMap_ fuel reader size (wrap (i + 2))
                                  (mapassign keyEq tempMap key value)
                                  isAllStringKeys isAllInt64Keys
                          end
                      end
                  | o => MapLeft o
                  end
              end
          | o => MapLeft o
          end
      else MapDone tempMap isAllStringKeys isAllInt64Keys reader
  end.

(** The bytes the reader still holds or can still read. *)
Definition pending (reader : Reader) : nat :=
  (String.length (buf reader) + String.length (rd reader))%nat.

(** [Decode]: every call consumes a byte before it recurses, so the fuel
    given here is never used up ([Decode_total] below). *)
Definition Decode (reader : Reader) : outcome :=
  Decode_ (2 * pending reader + 2) reader.

(** *** encoder.go *)

Definition typeName (v : value) : string :=
  match v with
  | VMapInt64 _ => "map[int64]interface {}"
  | VOther typ => typ
  | _ => ""
  end.

Definition result : Type := (string * option error)%type.

Definition encodeString (v : string) : result :=
  if len v <=? 2 ^ 4 then ("+" ++ v ++ CRLF, None)
  else ("$" ++ Strconv.Itoa (len v) ++ CRLF ++ v ++ CRLF, None).

Definition encodeInt (v : Z) : result := (":" ++ Strconv.Itoa v ++ CRLF, None).

Definition encodeFloat (v : Strconv.float64) : result :=
  ("," ++ Strconv.formatFloat v ++ CRLF, None).

Definition encodeBool (v : bool) : result :=
  if v then ("#t" ++ CRLF, None) else ("#f" ++ CRLF, None).

(** The loop every slice case but [[]interface{}] and [[]string] runs:
    [Encode] of each element, appended to [resp]. *)
Definition encodeElems {A : Type} (enc : A -> result)
  : list A -> string -> result :=
  fix loop (v : list A) (resp : string) : result :=
    match v with
    | [] => (resp, None)
    | elem :: rest =>
        match enc elem with
        | (_, Some err) => (EmptyString, Some err)
        | (encodedElem, None) => loop rest (resp ++ encodedElem)
        end
    end.

(** The loop of the [[]interface{}] case. *)
Definition encodeIfaceElems (enc : value -> result)
  : list value -> string -> result :=
  fix loop (v : list value) (resp : string) : result :=
    match v with
    | [] => (resp, None)
    | elem :: rest =>
        match match elem with
              | VString str => if len str <=? 12 then Some str else None
              | _ => None
              end with
        | Some str => loop rest (resp ++ "+" ++ str ++ CRLF)
        | None =>
            match enc elem with
            | (_, Some err) => (EmptyString, Some err)
            | (encodedElem, None) => loop rest (resp ++ encodedElem)
            end
        end
    end.

Fixpoint encodeStringElems (v : list string) (resp : string) : result :=
  match v with
  | [] => (resp, None)
  | elem :: rest => encodeStringElems rest (resp ++ ("+" ++ elem ++ CRLF))
  end.

(** The loop of the [map[string]interface{}] case. *)
Definition encodeStringPairs (enc : value -> result)
  : list (string * value) -> string -> result :=
  fix loop (v : list (string * value)) (resp : string) : result :=
    match v with
    | [] => (resp, None)
    | (kx, vx) :: rest =>
        let resp := resp ++ "+" ++ kx ++ CRLF in
        match enc vx with
        | (_, Some err) => (EmptyString, Some err)
        | (valueStr, None) => loop rest (resp ++ valueStr)
        end
    end.

(** The loop of the [map[interface{}]interface{}] case. *)
Definition encodeIfacePairs (enc : value -> result)
  : list (value * value) -> string -> result :=
  fix loop (v : list (value * value)) (resp : string) : result :=
    match v with
    | [] => (resp, None)
    | (kx, vx) :: rest =>
        let '(keyStr, err) :=
          match kx with
          | VString key => ("+" ++ key ++ CRLF, None)
          | key => enc key
          end in
        match err with
        | Some err => (EmptyString, Some err)
        | None =>
            match enc vx with
            | (_, Some err) => (EmptyString, Some err)
            | (valueStr, None) => loop rest (resp ++ (keyStr ++ valueStr))
            end
        end
    end.

(** The loop of [encodeStruct] over the fields [i], [i+1], ... *)
Definition encodeFields (enc : value -> result)
  : list (StructField * value) -> string -> result :=
  fix loop (fields : list (StructField * value)) (resp : string) : result :=
    match fields with
    | [] => (resp, None)
    | (field, fieldValue) :: rest =>
        if negb (IsExported field) then loop rest resp
        else
          let fieldName := Name field in
          let resp := resp ++ "+" ++ fieldName ++ CRLF in
          match enc fieldValue with
          | (_, Some err) => (EmptyString, Some err)
          | (encodedValue, None) => loop rest (resp ++ encodedValue)
          end
    end.

Fixpoint Encode (value : value) : result :=
  match value with
  | VString v => encodeString v
  | VInt _ v => encodeInt v
  | VFloat _ v => encodeFloat v
  | VBool v => encodeBool v
  | VNil => ("_" ++ CRLF, None)
  | VError msg => ("-" ++ msg ++ CRLF, None)
  | VArray v =>
      encodeIfaceElems Encode v ("*" ++ Strconv.Itoa (Z.of_nat (List.length v)) ++ CRLF)
  | VStrings v =>
      encodeStringElems v ("*" ++ Strconv.Itoa (Z.of_nat (List.length v)) ++ CRLF)
  | VInts _ v =>
      encodeElems encodeInt v ("*" ++ Strconv.Itoa (Z.of_nat (List.length v)) ++ CRLF)
  | VBools v =>
      encodeElems encodeBool v ("*" ++ Strconv.Itoa (Z.of_nat (List.length v)) ++ CRLF)
  | VFloats _ v =>
      encodeElems encodeFloat v ("*" ++ Strconv.Itoa (Z.of_nat (List.length v)) ++ CRLF)
  | VMapString v =>
      encodeStringPairs Encode v
        ("%" ++ Strconv.Itoa (Z.of_nat (List.length v) * 2) ++ CRLF)
  | VMapIface v =>
      encodeIfacePairs Encode v
        ("%" ++ Strconv.Itoa (Z.of_nat (List.length v) * 2) ++ CRLF)
  | VTime unixMilli => (":" ++ Strconv.Itoa unixMilli ++ CRLF, None)
  | VStruct fields =>
      (* encodeStruct; NumField counts every field *)
      encodeFields Encode fields
        ("%" ++ Strconv.Itoa (Z.of_nat (List.length fields) * 2) ++ CRLF)
  | VMapInt64 _ | VOther _ => (EmptyString, Some (ErrUnsupportedType (typeName value)))
  end.

(** [encodeStruct(s)] for a struct [s] with the given fields. *)
Definition encodeStruct (fields : list (StructField * value)) : result :=
  let resp := "%" ++ Strconv.Itoa (Z.of_nat (List.length fields) * 2) ++ CRLF in
  encodeFields Encode fields resp.

End Resp3.

Import Bufio Resp3.

(** * Vocabulary of the statements *)

(** The bytes a reader has yet to deliver, buffered or not. *)
Definition stream (b : Reader) : string := buf b ++ rd b.

(** The tags whose first step is [readLineCRLF] followed by a check of its
    error: every tag that reads a line, except the map tag. *)
Definition checkedLineTag (c : ascii) : bool :=
  existsb (Ascii.eqb c) ["+"; "-"; ":"; ","; "$"; "="; "*"; "!"]%char.

(** The tags whose line is a length or a count, checked after [Atoi]. *)
Definition checkedLengthTag (c : ascii) : bool :=
  existsb (Ascii.eqb c) ["$"; "="; "*"; "!"]%char.

(** A string of decimal digits. *)
Fixpoint allDigits (s : string) : bool :=
  match s with
  | EmptyString => true
  | String c s' => Strconv.isDigit c && allDigits s'
  end.

(** The scalar values that survive [Encode] followed by [Decode] from a fresh
    reader with a buffer of [size] bytes:
    - a string of at most 16 bytes without a line feed (a Simple String);
    - a longer string whose record fits in the buffer (a Bulk String), the
      buffer being an allocation the runtime accepts;
    - a 64-bit signed integer, a boolean, Null. *)
Inductive roundTripScalar (size : nat) : value -> Prop :=
| rt_simple_string (s : string) :
    len s <= 16 -> IndexByte s LF = None -> roundTripScalar size (VString s)
| rt_bulk_string (s : string) :
    16 < len s ->
    (String.length (fst (Encode (VString s))) <= bufSize (NewReaderSize "" size))%nat ->
    Z.of_nat (bufSize (NewReaderSize "" size)) <= maxAlloc ->
    roundTripScalar size (VString s)
| rt_int64 (n : Z) : minInt <= n <= maxInt -> roundTripScalar size (VInt Int64 n)
| rt_bool (b : bool) : roundTripScalar size (VBool b)
| rt_null : roundTripScalar size VNil.

(** What a call leaves pending. *)
Definition consumes (r : Reader) (o : outcome) : Prop :=
  match o with
  | Return _ e r' =>
      (pending r' <= pending r)%nat
      /\ (e = None -> (pending r' < pending r)%nat)
      /\ extra r' = extra r
  | _ => True
  end.

Definition keeps (r : Reader) (o : outcome) : Prop :=
  match o with
  | Return _ _ r' => (pending r' <= pending r)%nat /\ extra r' = extra r
  | _ => True
  end.

Definition keepsMap (r : Reader) (l : mapLoop) : Prop :=
  match l with
  | MapDone _ _ _ r' => (pending r' <= pending r)%nat /\ extra r' = extra r
  | MapLeft o => keeps r o
  end.

(** The strings of a list, one after the other. *)
Fixpoint joinAll (l : list string) : string :=
  match l with
  | [] => EmptyString
  | x :: l' => x ++ joinAll l'
  end.

(** The wire form of a string by the general rule: a Simple String up to 16
    bytes, a Bulk String beyond. *)
Definition stringWire (s : string) : string :=
  if len s <=? 16 then "+" ++ s ++ CRLF
  else "$" ++ Strconv.Itoa (len s) ++ CRLF ++ s ++ CRLF.

(** The wire form of an array element: that of a string by the general rule,
    that of any other value as Encode gives it standing alone. *)
Definition elementWire (e : value) : string :=
  match e with
  | VString s => stringWire s
  | _ => fst (Encode e)
  end.

(** The fields [encodeStruct] emits, and the two elements it emits for one. *)
Definition exportedFields (fields : list (StructField * value))
  : list (StructField * value) :=
  filter (fun p => IsExported (fst p)) fields.

Definition fieldWire (p : StructField * value) : string :=
  "+" ++ Name (fst p) ++ CRLF ++ fst (Encode (snd p)).

(** *** The map record, as the specification words it

    The pairs are decoded first, one after the other; the pairs with a Null
    key are dropped; the kind of container is chosen from the keys that are
    left; the container is filled with the pairs in order, a later pair
    overwriting an earlier one with an equal key. *)

Definition isNull (v : value) : bool :=
  match v with VNil => true | _ => false end.

Definition isStringKey (v : value) : bool :=
  match v with VString _ => true | _ => false end.

Definition isInt64Key (v : value) : bool :=
  match v with VInt Int64 _ => true | _ => false end.

Definition stringOf (v : value) : string :=
  match v with VString s => s | _ => EmptyString end.

Definition int64Of (v : value) : Z :=
  match v with VInt Int64 n => n | _ => 0 end.

Definition surviving (pairs : list (value * value)) : list (value * value) :=
  filter (fun p => negb (isNull (fst p))) pairs.

Definition assign {K : Type} (eq : K -> K -> bool) (m : list (K * value))
  (p : K * value) : list (K * value) :=
  mapassign eq m (fst p) (snd p).

Definition buildMap {K : Type} (eq : K -> K -> bool) (pairs : list (K * value))
  : list (K * value) :=
  fold_left (assign eq) pairs [].

Definition stringPair (p : value * value) : string * value :=
  (stringOf (fst p), snd p).

Definition int64Pair (p : value * value) : Z * value :=
  (int64Of (fst p), snd p).

Definition mapOfPairs (pairs : list (value * value)) : value :=
  let kept := surviving pairs in
  if forallb isStringKey (map fst kept)
  then VMapString (buildMap String.eqb (map stringPair kept))
  else if forallb isInt64Key (map fst kept)
  then VMapInt64 (buildMap Z.eqb (map int64Pair kept))
  else VMapIface (buildMap keyEq kept).

(** The pairs of a decoded map, with their keys as values. *)
Definition entries (v : value) : list (value * value) :=
  match v with
  | VMapString m => map (fun p => (VString (fst p), snd p)) m
  | VMapInt64 m => map (fun p => (VInt Int64 (fst p), snd p)) m
  | VMapIface m => m
  | _ => []
  end.

(** [DecodesPairs r pairs r']: starting from [r], Decode returns the keys and
    values of [pairs] in turn, each without an error, and leaves [r']. *)
Inductive DecodesPairs : Reader -> list (value * value) -> Reader -> Prop :=
| pairs_nil (r : Reader) : DecodesPairs r [] r
| pairs_cons (r r1 r2 r' : Reader) (key val : value) (rest : list (value * value)) :
    Decode r = Return key None r1 ->
    Decode r1 = Return val None r2 ->
    DecodesPairs r2 rest r' ->
    DecodesPairs r ((key, val) :: rest) r'.

(** What the map loop has done when it ends, in terms of the pairs decoded. *)
Definition mapLoopSpec (r : Reader) (tempMap : list (value * value))
  (s k : bool) (l : mapLoop) : Prop :=
  match l with
  | MapDone tempMap' s' k' r' =>
      exists pairs,
        DecodesPairs r pairs r'
        /\ tempMap' = fold_left (assign keyEq) (surviving pairs) tempMap
        /\ s' = s && forallb isStringKey (map fst (surviving pairs))
        /\ k' = k && forallb isInt64Key (map fst (surviving pairs))
  | MapLeft (Return _ e _) => e <> None
  | MapLeft _ => True
  end.

(** *** The pairs and elements of a record, as the loops read them *)

(** [RecordPairs r pairs r']: from [r] the pairs of a map record are decoded
    in turn and leave [r'].  Before each pair some byte is buffered, the key
    and the value are decoded without an error, and the key is neither an
    array nor a map. *)
Inductive RecordPairs : Reader -> list (value * value) -> Reader -> Prop :=
| record_nil (r : Reader) : RecordPairs r [] r
| record_cons (r r1 r2 r' : Reader) (key val : value) (rest : list (value * value)) :
    Buffered r <> 0 ->
    Decode r = Return key None r1 ->
    Decode r1 = Return val None r2 ->
    hashable key = true ->
    RecordPairs r2 rest r' ->
    RecordPairs r ((key, val) :: rest) r'.

(** The number of pairs of a map record that declares [size] elements:
    half of it, rounded up, and none for a size that is not positive. *)
Definition pairCount (size : Z) : nat := Z.to_nat ((size + 1) / 2).

(** [DecodesElems r elems r']: from [r] the elements of an array are decoded
    in turn, each without an error and with some byte buffered before it,
    and leave [r']. *)
Inductive DecodesElems : Reader -> list value -> Reader -> Prop :=
| elems_nil (r : Reader) : DecodesElems r [] r
| elems_cons (r r1 r' : Reader) (e : value) (rest : list value) :
    Buffered r <> 0 ->
    Decode r = Return e None r1 ->
    DecodesElems r1 rest r' ->
    DecodesElems r (e :: rest) r'.

(** *** Vocabulary of the further properties *)

(** The tag bytes of the grammar, the cases of the switch of [Decode]. *)
Definition supportedTag (c : ascii) : bool :=
  existsb (Ascii.eqb c) ["+"; "-"; ":"; ","; "$"; "="; "*"; "#"; "%"; "!"; "_"]%char.

(** An outcome that is not a return with io.EOF. *)
Definition notEOF (o : outcome) : Prop :=
  match o with
  | Return _ (Some EOF) _ => False
  | _ => True
  end.

Definition notEOFMap (l : mapLoop) : Prop :=
  match l with
  | MapLeft o => notEOF o
  | MapDone _ _ _ _ => True
  end.

(** *** Readers that hold a record in their buffer *)

(** The bytes a call can take without a second read from the source: the
    buffered bytes, or for an empty buffer what the first fill brings in. *)
Definition available (b : Reader) : nat :=
  match buf b with
  | EmptyString => Nat.min (bufSize b) (String.length (rd b))
  | _ => String.length (buf b)
  end.

(** The reader after that fill, if it is due. *)
Definition buffered (b : Reader) : Reader :=
  mkReader (take (available b) (stream b)) (drop (available b) (stream b)) (extra b).

(** A length-framed record: tag, length line, payload and two closing
    bytes, which a well-formed record has as CR and LF. *)
Definition framed (tag : ascii) (payload : string) (a b : ascii) : string :=
  String tag (Strconv.Itoa (len payload) ++ CRLF ++ payload ++ String a (String b "")).

(** The tags of the length-framed records. *)
Definition lengthFramedTag (c : ascii) : bool :=
  existsb (Ascii.eqb c) ["$"; "="; "!"]%char.

(** The tags for which a length or count of -1 stands for Null. *)
Definition nullableTag (c : ascii) : bool :=
  existsb (Ascii.eqb c) ["$"; "="; "*"]%char.

(** What every [bufio.Reader] maintains: the buffered bytes fit in the
    buffer. *)
Definition withinCapacity (b : Reader) : Prop :=
  (String.length (buf b) <= bufSize b)%nat.

(** *** Values that survive the round trip *)

Definition noLF (s : string) : bool :=
  match IndexByte s LF with
  | None => true
  | Some _ => false
  end.

Fixpoint distinctBy {A : Type} (eqb : A -> A -> bool) (l : list A) : bool :=
  match l with
  | [] => true
  | x :: l' => negb (existsb (eqb x) l') && distinctBy eqb l'
  end.

Definition distinct (l : list string) : bool := distinctBy String.eqb l.

(** The values Decode gives back as they were encoded: Null, booleans,
    64-bit signed integers, strings (without a line feed when they are
    sent as Simple Strings), errors with a message of one line, arrays of
    such values and string-keyed maps of such values, with keys of one
    line. *)
Fixpoint roundTrips (v : value) : bool :=
  match v with
  | VNil | VBool _ => true
  | VString s => (16 <? len s) || noLF s
  | VInt Int64 n => (minInt <=? n) && (n <=? maxInt)
  | VError msg => noLF msg
  | VArray elems => forallb roundTrips elems
  | VMapString m =>
      forallb (fun p => let '(k, x) := p in noLF k && roundTrips x) m
      && distinct (map fst m)
  | _ => false
  end.

(** The bytes Encode writes for a value, and for one pair of a
    string-keyed map. *)
Definition wireOf (v : value) : string := fst (Encode v).

Definition pairWire (p : string * value) : string :=
  "+" ++ fst p ++ CRLF ++ fst (Encode (snd p)).

Definition simpleWire (s : string) : string := "+" ++ s ++ CRLF.

(** A value whose encoding, once in the buffer, is decoded to the value
    itself, whatever follows it. *)
Definition decodesBack (v : value) : Prop :=
  fst (Encode v) <> ""
  /\ forall (tail src : string) (x : nat),
       16 * len (fst (Encode v)) <= maxAlloc ->
       Decode (mkReader (fst (Encode v) ++ tail) src x)
       = Return v None (mkReader tail src x).

(** A pair of a string-keyed map and a field of a struct, as pairs of a
    generic map and of a string-keyed map. *)
Definition stringKeyed (p : string * value) : value * value :=
  (VString (fst p), snd p).

Definition fieldPair (p : StructField * value) : string * value :=
  (Name (fst p), snd p).

(** *** Values Encode accepts *)

(** No int64-keyed map and no value of another type, at any place Encode
    visits: the elements of an array, the keys and values of a map, the
    exported fields of a struct. *)
Fixpoint encodable (v : value) : bool :=
  match v with
  | VMapInt64 _ | VOther _ => false
  | VArray elems => forallb encodable elems
  | VMapString m => forallb (fun p => let '(_, x) := p in encodable x) m
  | VMapIface m =>
      forallb (fun p => let '(k, x) := p in encodable k && encodable x) m
  | VStruct fields =>
      forallb (fun p => let '(f, x) := p in negb (IsExported f) || encodable x) fields
  | _ => true
  end.

Definition encodeOutcome (ok : bool) (r : result) : Prop :=
  if ok then snd r = None
  else exists typ, r = (EmptyString, Some (ErrUnsupportedType typ)).

(** *** Values Decode returns *)

(** Null, strings, booleans, errors, int64, float64, arrays of such values
    and the three kinds of map, with distinct keys in the two typed kinds
    and keys that are hashable and not Null in the generic kind. *)
Fixpoint decoded (v : value) : bool :=
  match v with
  | VNil | VString _ | VBool _ | VError _ => true
  | VInt Int64 _ => true
  | VFloat Float64 _ => true
  | VArray elems => forallb decoded elems
  | VMapString m =>
      forallb (fun p => let '(_, x) := p in decoded x) m
      && distinctBy String.eqb (map fst m)
  | VMapInt64 m =>
      forallb (fun p => let '(_, x) := p in decoded x) m
      && distinctBy Z.eqb (map fst m)
  | VMapIface m =>
      forallb (fun p => let '(k, x) := p in
                        hashable k && negb (isNull k) && decoded k && decoded x) m
  | _ => false
  end.

Definition decodedOutcome (o : outcome) : Prop :=
  match o with
  | Return v err _ =>
      decoded v = true
      /\ (err <> None ->
          v = VNil \/ (exists f, v = VFloat Float64 f) \/ v = VBool false)
  | _ => True
  end.

Definition decodedMapLoop (l : mapLoop) : Prop :=
  match l with
  | MapDone tempMap _ _ _ => decoded (VMapIface tempMap) = true
  | MapLeft o => decodedOutcome o
  end.

(** * Properties *)

(** ** The repository's own test vectors *)

Example decode_bulk_string :
  Decode (NewReader ("$6" ++ CRLF ++ "foobar" ++ CRLF))
  = Return (VString "foobar") None (NewReader "").
Proof. vm_compute. reflexivity. Qed.

Example decode_incomplete_bulk_string :
  Decode (NewReader ("$6" ++ CRLF ++ "foo"))
  = Return VNil (Some ErrUnexpectedEOF) (mkReader "foo" "" 4080).
Proof. vm_compute. reflexivity. Qed.

Example decode_array :
  Decode (NewReader ("*2" ++ CRLF ++ "$3" ++ CRLF ++ "foo" ++ CRLF ++ "$3" ++ CRLF ++ "bar" ++ CRLF))
  = Return (VArray [VString "foo"; VString "bar"]) None (NewReader "").
Proof. vm_compute. reflexivity. Qed.

Example decode_int64_key_map :
  Decode (NewReader ("%4" ++ CRLF ++ ":1" ++ CRLF ++ "$6" ++ CRLF ++ "value1" ++ CRLF
                       ++ ":2" ++ CRLF ++ "$6" ++ CRLF ++ "value2" ++ CRLF))
  = Return (VMapInt64 [(1, VString "value1"); (2, VString "value2")]) None (NewReader "").
Proof. vm_compute. reflexivity. Qed.

Example decode_unsupported_type :
  Decode (NewReader ("&" ++ CRLF))
  = Return VNil (Some (ErrUnsupportedRespDataType "&")) (mkReader CRLF "" 4080).
Proof. vm_compute. reflexivity. Qed.

Example encode_struct :
  Encode (VStruct [(mkField "Name" "", VString "Alice");
                   (mkField "Post" "", VString "Senior Software Engineer");
                   (mkField "Age" "", VInt Int 25)])
  = ("%6" ++ CRLF ++ "+Name" ++ CRLF ++ "+Alice" ++ CRLF ++ "+Post" ++ CRLF ++ "$24" ++ CRLF
       ++ "Senior Software Engineer" ++ CRLF ++ "+Age" ++ CRLF ++ ":25" ++ CRLF, None).
Proof. vm_compute. reflexivity. Qed.

Example decode_bulk_larger_than_buffer :
  Decode (NewReaderSize ("$17" ++ CRLF ++ "seventeen bytes!!" ++ CRLF) 16)
  = Return VNil (Some ErrUnexpectedEOF) (mkReader "seventeen b" ("ytes!!" ++ CRLF) 0).
Proof. vm_compute. reflexivity. Qed.

Example encode_float :
  Encode (VFloat Float64 (fst (Strconv.ParseFloat "3.14"))) = (",3.140000" ++ CRLF, None).
Proof. vm_compute. reflexivity. Qed.

(** ** Null and the empty string *)

(** C7: decoding the bytes "$-1\r\n" yields Null without an error, decoding
    the bytes "$0\r\n\r\n" yields the empty string without an error, whatever
    the size of the reader's buffer, and the two results differ. *)
Theorem C7_null_bulk_and_empty_bulk :
  forall size : nat,
    Decode (NewReaderSize ("$-1" ++ CRLF) size) = Return VNil None (NewReaderSize "" size)
    /\ Decode (NewReaderSize ("$0" ++ CRLF ++ CRLF) size)
       = Return (VString "") None (NewReaderSize "" size)
    /\ VNil <> VString "".
Proof.
  intros size. unfold NewReaderSize.
  generalize (size - minReadBufferSize)%nat as n. intros n.
  split; [|split].
  - vm_compute. reflexivity.
  - vm_compute. reflexivity.
  - discriminate.
Qed.

(** ** Lengths below -1 *)

(** C10: there are inputs whose declared count or length parses to an integer
    below -1, "*-2\r\n" and "$-3\r\nxx\r\n", on which Decode returns neither
    a value nor an error: it reaches [make] with a negative length and
    panics. *)
Theorem C10_negative_length_panics :
  Strconv.Atoi "-2" = (-2, None)
  /\ Decode (NewReader ("*-2" ++ CRLF)) = Panic MakesliceLenOutOfRange
  /\ Strconv.Atoi "-3" = (-3, None)
  /\ Decode (NewReader ("$-3" ++ CRLF ++ "xx" ++ CRLF)) = Panic MakesliceLenOutOfRange.
Proof. repeat split; vm_compute; reflexivity. Qed.

(** ** The decoder, case by case

    The lemmas of this section read one call of [Decode_] from the results of
    the reader operations it performs, in the order of decoder.go. *)

Section DecodeCases.

#[local] Arguments Discard : simpl never.
#[local] Arguments readPayload : simpl never.
#[local] Arguments readLineCRLF : simpl never.
#[local] Arguments ReadByte : simpl never.
#[local] Arguments Strconv.Atoi : simpl never.
#[local] Arguments Strconv.ParseFloat : simpl never.
#[local] Arguments wrap : simpl never.
#[local] Arguments makeslice : simpl never.
#[local] Arguments Buffered : simpl never.

Lemma checkedLineTag_cases (c : ascii) :
  checkedLineTag c = true ->
  c = "+"%char \/ c = "-"%char \/ c = ":"%char \/ c = ","%char \/
  c = "$"%char \/ c = "="%char \/ c = "*"%char \/ c = "!"%char.
Proof.
  unfold checkedLineTag. cbn [existsb].
  repeat rewrite orb_true_iff. repeat rewrite Ascii.eqb_eq.
  intuition (auto; discriminate).
Qed.

Lemma checkedLengthTag_cases (c : ascii) :
  checkedLengthTag c = true ->
  c = "$"%char \/ c = "="%char \/ c = "*"%char \/ c = "!"%char.
Proof.
  unfold checkedLengthTag. cbn [existsb].
  repeat rewrite orb_true_iff. repeat rewrite Ascii.eqb_eq.
  intuition (auto; discriminate).
Qed.

(** No byte at all: the clean end of input. *)
Lemma Decode__no_byte (fuel : nat) (reader r1 : Reader) (c : ascii) :
  ReadByte reader = (c, Some EOF, r1) ->
  Decode_ (S fuel) reader = Return VNil (Some EOF) r1.
Proof. intros H. cbn [Decode_]. rewrite H. reflexivity. Qed.

(** A line that cannot be read for lack of bytes is partial input, for every
    tag that checks the error of [readLineCRLF]. *)
Lemma Decode__line_exhausted (fuel : nat) (reader r1 r2 : Reader)
  (tag : ascii) (line : string) (err : error) :
  checkedLineTag tag = true ->
  ReadByte reader = (tag, None, r1) ->
  readLineCRLF r1 = (line, Some err, r2) ->
  isEOF (Some err) = true ->
  Decode_ (S fuel) reader = Return VNil (Some ErrUnexpectedEOF) r2.
Proof.
  intros Htag Hbyte Hline Heof.
  apply checkedLineTag_cases in Htag.
  cbn [Decode_]. rewrite Hbyte.
  decompose [or] Htag; subst tag; cbn match; rewrite Hline, Heof; reflexivity.
Qed.

(** A length or count line that [Atoi] rejects is a malformed record, for
    every tag that checks the error of [Atoi]. *)
Lemma Decode__length_malformed (fuel : nat) (reader r1 r2 : Reader)
  (tag : ascii) (line : string) (n : Z) (k : Strconv.numerr) :
  checkedLengthTag tag = true ->
  ReadByte reader = (tag, None, r1) ->
  readLineCRLF r1 = (line, None, r2) ->
  Strconv.Atoi line = (n, Some k) ->
  Decode_ (S fuel) reader = Return VNil (Some (NumError "Atoi" line k)) r2.
Proof.
  intros Htag Hbyte Hline Hatoi.
  apply checkedLengthTag_cases in Htag.
  cbn [Decode_]. rewrite Hbyte.
  decompose [or] Htag; subst tag; cbn match; rewrite Hline; cbn;
    rewrite Hatoi; reflexivity.
Qed.

Lemma wrap_small (z : Z) : minInt <= z <= maxInt -> wrap z = z.
Proof.
  unfold wrap, minInt, maxInt, intSize. intros H.
  change (2 ^ (64 - 1)) with 9223372036854775808 in *.
  change (2 ^ 64) with 18446744073709551616.
  rewrite Z.mod_small; lia.
Qed.

(** A bulk string whose payload and CRLF are not all buffered is partial
    input, as long as [length+2] does not overflow. *)
Lemma Decode__bulk_partial (fuel : nat) (reader r1 r2 : Reader)
  (lengthStr : string) (n : Z) :
  ReadByte reader = ("$"%char, None, r1) ->
  readLineCRLF r1 = (lengthStr, None, r2) ->
  Strconv.Atoi lengthStr = (n, None) ->
  0 <= n <= maxInt - 2 ->
  Buffered r2 < n + 2 ->
  Decode_ (S fuel) reader = Return VNil (Some ErrUnexpectedEOF) r2.
Proof.
  intros Hbyte Hline Hatoi Hn Hbuf.
  cbn [Decode_]. rewrite Hbyte. cbn match. rewrite Hline. cbn. rewrite Hatoi. cbn.
  destruct (Z.eqb_spec n (-1)) as [->|_]; [lia|].
  rewrite wrap_small by (unfold minInt, maxInt, intSize in *; cbn in *; lia).
  destruct (Z.ltb_spec (Buffered r2) (n + 2)); [reflexivity | lia].
Qed.

End DecodeCases.

(** ** End of input *)

Lemma length_zero_empty (s : string) : String.length s = 0%nat -> s = EmptyString.
Proof. destruct s; [reflexivity | discriminate]. Qed.

(** C3: when the source has no byte available (none buffered, none left to
    read), Decode returns a nil value with io.EOF. *)
Theorem C3_empty_source_is_EOF :
  forall reader : Reader,
    pending reader = 0%nat ->
    Decode reader = Return VNil (Some EOF) reader.
Proof.
  intros [b r x] H. unfold pending in H. cbn in H.
  assert (b = EmptyString) by (apply length_zero_empty; lia).
  assert (r = EmptyString) by (apply length_zero_empty; lia).
  subst. reflexivity.
Qed.

Lemma C3_empty_source_is_EOF_witness :
  pending (NewReader "") = 0%nat
  /\ Decode (NewReader "") = Return VNil (Some EOF) (NewReader "").
Proof.
  split; [reflexivity | apply (C3_empty_source_is_EOF (NewReader "")); reflexivity].
Defined.

(** ** Inputs on which the decoder leaves its contract *)

(** C1 (failing input): the length line "9223372036854775807" declares the
    largest [int]; no payload byte is available, yet [length+2] wraps below
    zero, the availability check passes and Decode panics in [make] instead
    of returning io.ErrUnexpectedEOF.  The test vector "$6\r\nfoo" of the
    claim is reported as partial input. *)
Theorem C1_bulk_length_overflow_panics :
  Strconv.Atoi "9223372036854775807" = (maxInt, None)
  /\ wrap (maxInt + 2) < 0
  /\ Decode (NewReader ("$9223372036854775807" ++ CRLF)) = Panic MakesliceLenOutOfRange
  /\ Decode (NewReader ("$6" ++ CRLF ++ "foo"))
     = Return VNil (Some ErrUnexpectedEOF) (mkReader "foo" "" 4080).
Proof. repeat split; vm_compute; reflexivity. Qed.

(** C2 (failing input): after the tag byte '%' the source is exhausted; the
    line read fails with io.EOF, the map case drops that error and Decode
    returns an empty string-keyed map without an error.  The boolean and the
    null case likewise drop the error of [Discard] when the CRLF is
    missing. *)
Theorem C2_map_header_exhaustion_ignored :
  ReadByte (NewReader "%") = ("%"%char, None, NewReader "")
  /\ readLineCRLF (NewReader "") = ("", Some EOF, NewReader "")
  /\ Decode (NewReader "%") = Return (VMapString []) None (NewReader "")
  /\ Decode (NewReader "#t") = Return (VBool true) None (NewReader "")
  /\ Decode (NewReader "_") = Return VNil None (NewReader "").
Proof. repeat split; vm_compute; reflexivity. Qed.

(** C4 (failing input): the count line "abc" after '%' is complete and fails
    integer parsing; the map case drops the error of [Atoi] and Decode
    returns an empty string-keyed map without an error. *)
Theorem C4_map_count_error_ignored :
  readLineCRLF (mkReader ("abc" ++ CRLF) "" 4080) = ("abc", None, NewReader "")
  /\ Strconv.Atoi "abc" = (0, Some Strconv.ErrSyntax)
  /\ Decode (NewReader ("%abc" ++ CRLF)) = Return (VMapString []) None (NewReader "").
Proof. repeat split; vm_compute; reflexivity. Qed.

(** C9 (failing input): a struct with the exported field Name and the
    non-exported field age.  One pair is emitted, and the header declares 4
    elements, twice the number of all fields, where twice the number of
    emitted pairs is 2. *)
Theorem C9_struct_header_counts_unexported_fields :
  Encode (VStruct [(mkField "Name" "", VString "Alice");
                   (mkField "age" "main", VInt Int 25)])
  = ("%4" ++ CRLF ++ "+Name" ++ CRLF ++ "+Alice" ++ CRLF, None).
Proof. vm_compute. reflexivity. Qed.

(** C6 (counterexample): a 13-byte string element of a []interface{} array
    is emitted as a Simple String, not as a Bulk String. *)
Lemma C6_counterexample :
  let s := "thirteenbytes" in
  len s = 13
  /\ Encode (VArray [VString s]) = ("*1" ++ CRLF ++ "+" ++ s ++ CRLF, None)
  /\ Encode (VArray [VString s])
     <> ("*1" ++ CRLF ++ "$" ++ Strconv.Itoa (len s) ++ CRLF ++ s ++ CRLF, None).
Proof. cbv zeta. repeat split; try (vm_compute; reflexivity). vm_compute. discriminate. Qed.

(** C8 (counterexample): the string "a\nb" contains no CRLF; Encode makes it
    the Simple String "+a\nb\r\n", and decoding those bytes does not succeed:
    the line ends at the bare LF and Decode reports partial input. *)
Lemma C8_counterexample :
  let s := String "a" (String LF "b") in
  String.index 0 CRLF s = None
  /\ Encode (VString s) = ("+" ++ s ++ CRLF, None)
  /\ Decode (NewReader ("+" ++ s ++ CRLF))
     = Return VNil (Some ErrUnexpectedEOF) (mkReader ("b" ++ CRLF) "" 4080).
Proof. cbv zeta. repeat split; vm_compute; reflexivity. Qed.

(** ** Byte strings *)

Section Strings.

Lemma length_app (a b : string) :
  String.length (a ++ b) = (String.length a + String.length b)%nat.
Proof. induction a as [|c a IH]; cbn; [reflexivity | now rewrite IH]. Qed.

Lemma app_assoc (a b c : string) : (a ++ b) ++ c = a ++ (b ++ c).
Proof. induction a as [|x a IH]; cbn; [reflexivity | now rewrite IH]. Qed.

Lemma app_empty_r (a : string) : a ++ "" = a.
Proof. induction a as [|x a IH]; cbn; [reflexivity | now rewrite IH]. Qed.

Lemma take_drop (n : nat) (s : string) : take n s ++ drop n s = s.
Proof.
  revert s; induction n as [|n IH]; intros [|c s]; cbn; try reflexivity.
  now rewrite IH.
Qed.

Lemma length_take (n : nat) (s : string) :
  String.length (take n s) = Nat.min n (String.length s).
Proof.
  revert s; induction n as [|n IH]; intros [|c s]; cbn; try reflexivity.
  now rewrite IH.
Qed.

Lemma length_drop (n : nat) (s : string) :
  String.length (drop n s) = (String.length s - n)%nat.
Proof.
  revert s; induction n as [|n IH]; intros [|c s]; cbn; try reflexivity.
  now rewrite IH.
Qed.

Lemma take_app (a b : string) : take (String.length a) (a ++ b) = a.
Proof. induction a as [|c a IH]; cbn; [now destruct b | now rewrite IH]. Qed.

Lemma drop_app (a b : string) : drop (String.length a) (a ++ b) = b.
Proof. induction a as [|c a IH]; cbn; [now destruct b | exact IH]. Qed.

Lemma take_all (n : nat) (s : string) :
  (String.length s <= n)%nat -> take n s = s.
Proof.
  revert s; induction n as [|n IH]; intros [|c s]; cbn; intros H;
    try reflexivity; try lia.
  rewrite IH by lia. reflexivity.
Qed.

Lemma drop_all (n : nat) (s : string) :
  (String.length s <= n)%nat -> drop n s = "".
Proof.
  revert s; induction n as [|n IH]; intros [|c s]; cbn; intros H;
    try reflexivity; try lia.
  apply IH; lia.
Qed.

Lemma byteAt_app (a : string) (c : ascii) (b : string) :
  byteAt (String.length a) (a ++ String c b) = c.
Proof. induction a as [|x a IH]; cbn; [reflexivity | exact IH]. Qed.

Lemma app_inv_head (a b c : string) : a ++ b = a ++ c -> b = c.
Proof. induction a as [|x a IH]; cbn; intros H; [exact H | injection H; auto]. Qed.

(** *** The first occurrence of a byte *)

Lemma IndexByte_app_l (a b : string) (c : ascii) (i : nat) :
  IndexByte a c = Some i -> IndexByte (a ++ b) c = Some i.
Proof.
  revert i; induction a as [|x a IH]; cbn; intros i H; [discriminate|].
  destruct (Ascii.eqb x c); [exact H|].
  destruct (IndexByte a c) as [j|]; [|discriminate].
  now rewrite (IH j eq_refl).
Qed.

Lemma IndexByte_first (pre post : string) (c : ascii) :
  IndexByte pre c = None ->
  IndexByte (pre ++ String c post) c = Some (String.length pre).
Proof.
  induction pre as [|x pre IH]; cbn; intros H.
  - now rewrite Ascii.eqb_refl.
  - destruct (Ascii.eqb x c); [discriminate|].
    destruct (IndexByte pre c); [discriminate|].
    now rewrite IH.
Qed.

Lemma IndexByte_app_none (a b : string) (c : ascii) :
  IndexByte a c = None -> IndexByte b c = None -> IndexByte (a ++ b) c = None.
Proof.
  induction a as [|x a IH]; cbn; intros Ha Hb; [exact Hb|].
  destruct (Ascii.eqb x c); [discriminate|].
  destruct (IndexByte a c); [discriminate|].
  now rewrite IH.
Qed.

Lemma IndexByte_none_app_l (a b : string) (c : ascii) :
  IndexByte (a ++ b) c = None -> IndexByte a c = None.
Proof.
  induction a as [|x a IH]; cbn; intros H; [reflexivity|].
  destruct (Ascii.eqb x c); [discriminate|].
  destruct (IndexByte (a ++ b) c) eqn:E; [discriminate|].
  now rewrite IH.
Qed.

Lemma IndexByte_none_app_r (a b : string) (c : ascii) :
  IndexByte (a ++ b) c = None -> IndexByte b c = None.
Proof.
  induction a as [|x a IH]; cbn; intros H; [exact H|].
  destruct (Ascii.eqb x c); [discriminate|].
  destruct (IndexByte (a ++ b) c) eqn:E; [discriminate|].
  now apply IH.
Qed.

Lemma IndexByte_lt (s : string) (c : ascii) (i : nat) :
  IndexByte s c = Some i -> (i < String.length s)%nat.
Proof.
  revert i; induction s as [|x s IH]; cbn; intros i H; [discriminate|].
  destruct (Ascii.eqb x c); [injection H as <-; lia|].
  destruct (IndexByte s c) as [j|]; [|discriminate].
  injection H as <-. specialize (IH j eq_refl). lia.
Qed.

(** A buffer without the delimiter is a prefix of the part of the stream
    that precedes the first delimiter. *)
Lemma prefix_before_delim (a b pre post : string) (c : ascii) :
  a ++ b = pre ++ String c post ->
  IndexByte a c = None ->
  exists pre', pre = a ++ pre' /\ b = pre' ++ String c post.
Proof.
  revert pre; induction a as [|x a IH]; cbn; intros pre H Ha.
  - exists pre. split; [reflexivity | exact H].
  - destruct (Ascii.eqb_spec x c) as [->|Hx]; [discriminate|].
    destruct (IndexByte a c) eqn:E; [discriminate|].
    destruct pre as [|y pre]; cbn in H.
    + injection H as H1 H2. congruence.
    + injection H as H1 H2. subst y.
      destruct (IH pre H2 eq_refl) as [pre' [-> ->]].
      exists pre'. split; reflexivity.
Qed.

(** A buffer with the delimiter holds the whole part of the stream that
    precedes the first delimiter. *)
Lemma delim_in_buffer (a b pre post : string) (c : ascii) (i : nat) :
  a ++ b = pre ++ String c post ->
  IndexByte pre c = None ->
  IndexByte a c = Some i ->
  i = String.length pre /\ exists a', a = pre ++ String c a' /\ post = a' ++ b.
Proof.
  revert pre i; induction a as [|x a IH]; cbn; intros pre i H Hpre Ha; [discriminate|].
  destruct pre as [|y pre]; cbn in H, Hpre.
  - injection H as H1 H2. subst x. rewrite Ascii.eqb_refl in Ha.
    injection Ha as <-. split; [reflexivity|].
    exists a. split; [reflexivity | now symmetry].
  - injection H as H1 H2. subst y.
    destruct (Ascii.eqb x c); [discriminate|].
    destruct (IndexByte pre c) eqn:E; [discriminate|].
    destruct (IndexByte a c) as [j|] eqn:Ej; [|discriminate].
    injection Ha as <-.
    destruct (IH pre j H2 E eq_refl) as [-> [a' [-> ->]]].
    split; [reflexivity|]. exists a'. split; reflexivity.
Qed.

End Strings.

Section StringsMore.

Lemma take_app_le (n : nat) (a b : string) :
  (n <= String.length a)%nat -> take n (a ++ b) = take n a.
Proof.
  revert a; induction n as [|n IH]; intros [|x a]; cbn; intros H;
    try reflexivity; try lia.
  rewrite IH by lia. reflexivity.
Qed.

Lemma drop_app_le (n : nat) (a b : string) :
  (n <= String.length a)%nat -> drop n (a ++ b) = drop n a ++ b.
Proof.
  revert a; induction n as [|n IH]; intros [|x a]; cbn; intros H;
    try reflexivity; try lia.
  apply IH; lia.
Qed.

Lemma take_app_ge (n : nat) (a b : string) :
  take (String.length a + n) (a ++ b) = a ++ take n b.
Proof. induction a as [|x a IH]; cbn; [reflexivity | now rewrite IH]. Qed.

Lemma drop_app_ge (n : nat) (a b : string) :
  drop (String.length a + n) (a ++ b) = drop n b.
Proof. induction a as [|x a IH]; cbn; [reflexivity | exact IH]. Qed.

Lemma IndexByte_app_r (a b : string) (c : ascii) :
  IndexByte a c = None ->
  IndexByte (a ++ b) c =
  match IndexByte b c with
  | Some j => Some (String.length a + j)%nat
  | None => None
  end.
Proof.
  induction a as [|x a IH]; cbn; intros H.
  - now destruct (IndexByte b c).
  - destruct (Ascii.eqb x c); [discriminate|].
    destruct (IndexByte a c); [discriminate|].
    rewrite IH by reflexivity. now destruct (IndexByte b c).
Qed.

End StringsMore.

(** ** The buffered reader

    What each operation does to the bytes still to be delivered: the
    operations differ in what they move from the source to the buffer, and
    agree with reading the [stream] from its front. *)

Section ReaderSpec.

Lemma pending_stream (b : Reader) : pending b = String.length (stream b).
Proof. unfold pending, stream. now rewrite length_app. Qed.

Lemma bufSize_pos (b : Reader) : (0 < bufSize b)%nat.
Proof. unfold bufSize, minReadBufferSize. lia. Qed.

Lemma fill_spec (b b' : Reader) (eof : bool) :
  fill b = (b', eof) ->
  stream b' = stream b /\ extra b' = extra b
  /\ (String.length (rd b') <= String.length (rd b))%nat
  /\ (eof = true -> rd b = "" /\ b' = b)
  /\ (eof = false ->
      (String.length (buf b) < bufSize b)%nat ->
      (String.length (rd b') < String.length (rd b))%nat
      /\ (String.length (buf b) < String.length (buf b'))%nat).
Proof.
  unfold fill, stream. destruct (rd b) as [|c r] eqn:Hr; intros H;
    apply pair_equal_spec in H; destruct H as [<- <-].
  - rewrite Hr. repeat split; try reflexivity; try lia; discriminate.
  - set (s := String c r) in *.
    set (n := Nat.min (bufSize b - String.length (buf b)) (String.length s)).
    cbn [buf rd extra].
    assert (Hs : (0 < String.length s)%nat) by (subst s; cbn; lia).
    split; [|split; [|split; [|split]]].
    + rewrite app_assoc, take_drop. reflexivity.
    + reflexivity.
    + rewrite length_drop. lia.
    + discriminate.
    + intros _ Hroom.
      rewrite length_drop, length_app, length_take. fold n.
      assert (Hn : (0 < n <= String.length s)%nat) by (subst n; lia).
      lia.
Qed.

Lemma ReadByte_stream (b : Reader) (c : ascii) (rest : string) :
  stream b = String c rest ->
  exists b', ReadByte b = (c, None, b')
             /\ stream b' = rest /\ extra b' = extra b
             /\ (String.length (rd b') <= String.length (rd b))%nat.
Proof.
  unfold ReadByte. intros H.
  destruct (buf b) as [|x bf] eqn:Hbuf.
  - destruct (fill b) as [b1 eof] eqn:Hfill.
    destruct (fill_spec _ _ _ Hfill) as (Hs & Hx & Hrd & Heof & Hprog).
    destruct eof.
    + destruct (Heof eq_refl) as [Hr _].
      unfold stream in H. rewrite Hbuf, Hr in H. discriminate.
    + assert (Hlt : (String.length (buf b) < bufSize b)%nat)
        by (rewrite Hbuf; cbn; apply bufSize_pos).
      destruct (Hprog eq_refl Hlt) as [_ Hgrow].
      rewrite Hbuf in Hgrow. cbn in Hgrow.
      destruct (buf b1) as [|y bf1] eqn:Hbuf1; [cbn in Hgrow; lia|].
      rewrite <- Hs in H. unfold stream in H. rewrite Hbuf1 in H.
      cbn in H. injection H as -> H.
      exists (withBuf b1 bf1). unfold withBuf, stream; cbn [buf rd extra].
      repeat split; auto.
  - unfold stream in H. rewrite Hbuf in H. cbn in H. injection H as -> H.
    exists (withBuf b bf). unfold withBuf, stream; cbn [buf rd extra].
    repeat split; auto.
Qed.

Lemma ReadByte_empty (b : Reader) :
  stream b = "" -> ReadByte b = (zero, Some EOF, b).
Proof.
  unfold stream, ReadByte, fill. destruct b as [[|x bf] [|y r] e]; cbn;
    intros H; try discriminate. reflexivity.
Qed.

(** The progress measure of the loop of [ReadString]. *)
Lemma readStringLoop_spec (delim : ascii) (fuel : nat) :
  forall (acc : string) (b : Reader),
    (2 * String.length (rd b)
     + (if (bufSize b <=? String.length (buf b))%nat then 1 else 0) < fuel)%nat ->
    match IndexByte (stream b) delim with
    | Some i =>
        exists b', readStringLoop fuel acc b delim
                   = (acc ++ take (S i) (stream b), None, b')
                   /\ stream b' = drop (S i) (stream b)
                   /\ extra b' = extra b
                   /\ (String.length (rd b') <= String.length (rd b))%nat
    | None =>
        readStringLoop fuel acc b delim
        = (acc ++ stream b, Some EOF, mkReader "" "" (extra b))
    end.
Proof.
  induction fuel as [|fuel IH]; intros acc b Hfuel; [lia|].
  cbn [readStringLoop].
  destruct (IndexByte (buf b) delim) as [i|] eqn:Hi.
  - unfold stream. rewrite (IndexByte_app_l _ (rd b) _ _ Hi).
    pose proof (IndexByte_lt _ _ _ Hi) as Hlt.
    exists (withBuf b (drop (S i) (buf b))).
    unfold withBuf; cbn [buf rd extra].
    rewrite take_app_le, drop_app_le by lia. repeat split; auto.
  - unfold stream at 1. rewrite (IndexByte_app_r _ _ _ Hi).
    destruct (Nat.leb_spec (bufSize b) (String.length (buf b))) as [Hfull|Hroom].
    + (* a full buffer is handed over and emptied *)
      specialize (IH (acc ++ buf b) (withBuf b "")).
      change (stream (withBuf b "")) with (rd b) in IH.
      change (rd (withBuf b "")) with (rd b) in IH.
      change (extra (withBuf b "")) with (extra b) in IH.
      change (bufSize (withBuf b "")) with (bufSize b) in IH.
      change (String.length (buf (withBuf b ""))) with 0%nat in IH.
      destruct (Nat.leb_spec (bufSize b) 0) as [H0|_];
        [pose proof (bufSize_pos b); lia|].
      specialize (IH ltac:(lia)).
      destruct (IndexByte (rd b) delim) as [j|].
      * destruct IH as (b' & -> & Hs & Hx & Hrd).
        exists b'. unfold stream.
        rewrite <- !Nat.add_succ_r, take_app_ge, drop_app_ge.
        repeat split; auto. now rewrite app_assoc.
      * rewrite IH. unfold stream. now rewrite app_assoc.
    + destruct (fill b) as [b1 eof] eqn:Hfill.
      destruct (fill_spec _ _ _ Hfill) as (Hs & Hx & Hrd & Heof & Hprog).
      destruct eof.
      * destruct (Heof eq_refl) as [Hr _]. rewrite Hr. cbn.
        unfold stream, withBuf. rewrite Hr, app_empty_r. reflexivity.
      * destruct (Hprog eq_refl Hroom) as [Hless _].
        specialize (IH acc b1).
        assert (Hm : (2 * String.length (rd b1)
                      + (if (bufSize b1 <=? String.length (buf b1))%nat then 1 else 0)
                      < fuel)%nat).
        { destruct (bufSize b1 <=? String.length (buf b1))%nat; lia. }
        specialize (IH Hm). rewrite Hs in IH.
        unfold stream at 1 in IH. rewrite (IndexByte_app_r _ _ _ Hi) in IH.
        destruct (IndexByte (rd b) delim) as [j|].
        -- destruct IH as (b' & -> & Hs' & Hx' & Hrd').
           exists b'. repeat split; auto; try congruence. lia.
        -- rewrite IH. now rewrite Hx.
Qed.

End ReaderSpec.

(** Splits an equation between the triples the reader operations return,
    without unfolding their components. *)
Ltac split_triple E :=
  let E1 := fresh E in
  let E2 := fresh E in
  apply pair_equal_spec in E; destruct E as [E E2];
  apply pair_equal_spec in E; destruct E as [E E1];
  try subst.

Section ReaderOps.

Lemma ReadString_spec (b : Reader) (delim : ascii) :
  match IndexByte (stream b) delim with
  | Some i =>
      exists b', ReadString b delim = (take (S i) (stream b), None, b')
                 /\ stream b' = drop (S i) (stream b)
                 /\ extra b' = extra b
                 /\ (String.length (rd b') <= String.length (rd b))%nat
  | None => ReadString b delim = (stream b, Some EOF, mkReader "" "" (extra b))
  end.
Proof.
  unfold ReadString.
  pose proof (readStringLoop_spec delim (2 * String.length (rd b) + 2) "" b) as H.
  cbn [append] in H. apply H.
  destruct (bufSize b <=? String.length (buf b))%nat; lia.
Qed.

(** A stream with a delimiter: the line up to it is returned. *)
Lemma ReadString_found (b : Reader) (delim : ascii) (pre post : string) :
  stream b = pre ++ String delim post ->
  IndexByte pre delim = None ->
  exists b', ReadString b delim = (pre ++ String delim "", None, b')
             /\ stream b' = post /\ extra b' = extra b
             /\ (String.length (rd b') <= String.length (rd b))%nat.
Proof.
  intros Hs Hpre. pose proof (ReadString_spec b delim) as H.
  rewrite Hs, (IndexByte_first _ _ _ Hpre) in H.
  destruct H as (b' & Hr & Hs' & Hx & Hrd).
  exists b'. rewrite Hr, Hs'.
  rewrite <- (Nat.add_1_r (String.length pre)), take_app_ge, drop_app_ge.
  cbn [take drop]. repeat split; auto.
Qed.

(** A stream without a delimiter: everything is consumed, with io.EOF. *)
Lemma ReadString_not_found (b : Reader) (delim : ascii) :
  IndexByte (stream b) delim = None ->
  ReadString b delim = (stream b, Some EOF, mkReader "" "" (extra b)).
Proof.
  intros Hn. pose proof (ReadString_spec b delim) as H. now rewrite Hn in H.
Qed.

(** [readLineCRLF] on a stream that starts with a CRLF-terminated line. *)
Lemma readLineCRLF_line (b : Reader) (line post : string) :
  stream b = line ++ CRLF ++ post ->
  IndexByte line LF = None ->
  exists b', readLineCRLF b = (line, None, b')
             /\ stream b' = post /\ extra b' = extra b
             /\ (String.length (rd b') <= String.length (rd b))%nat.
Proof.
  intros Hs Hline. unfold readLineCRLF.
  assert (Hs' : stream b = (line ++ String CR "") ++ String LF post)
    by (rewrite Hs, app_assoc; reflexivity).
  assert (Hpre : IndexByte (line ++ String CR "") LF = None).
  { apply IndexByte_app_none; [exact Hline | reflexivity]. }
  destruct (ReadString_found b LF _ _ Hs' Hpre) as (b' & -> & Hst & Hx & Hrd).
  exists b'. rewrite !app_assoc. cbn [append].
  change (String CR (String LF "")) with CRLF.
  assert (Hlen : String.length (line ++ CRLF) = (String.length line + 2)%nat)
    by (rewrite length_app; reflexivity).
  unfold len. rewrite Hlen.
  replace (String.length line + 2 - 2)%nat with (String.length line) by lia.
  destruct (Z.ltb_spec (Z.of_nat (String.length line + 2)) 2) as [Hlt|_]; [lia|].
  unfold CRLF at 1. rewrite byteAt_app, Ascii.eqb_refl. cbn [orb negb].
  rewrite take_app. repeat split; auto.
Qed.

(** [readLineCRLF] fails with io.EOF or io.ErrUnexpectedEOF only, and never
    gives bytes back to the source. *)
Lemma readLineCRLF_cases (b b' : Reader) (line : string) (err : option error) :
  readLineCRLF b = (line, err, b') ->
  (err = None \/ err = Some EOF \/ err = Some ErrUnexpectedEOF)
  /\ extra b' = extra b
  /\ (String.length (rd b') <= String.length (rd b))%nat
  /\ (pending b' <= pending b)%nat.
Proof.
  unfold readLineCRLF. pose proof (ReadString_spec b LF) as H.
  destruct (IndexByte (stream b) LF) as [i|] eqn:Hi.
  - destruct H as (b1 & -> & Hs & Hx & Hrd).
    assert (Hp : (pending b1 <= pending b)%nat)
      by (rewrite !pending_stream, Hs, length_drop; lia).
    destruct (_ || _); intros E; injection E as <- <- <-; auto 6.
  - rewrite H. intros E; injection E as <- <- <-. cbn.
    repeat split; auto; lia.
Qed.

(** [Read] when the buffer holds the bytes asked for. *)
Lemma Read_buffered (b : Reader) (n : nat) :
  (n <= String.length (buf b))%nat ->
  Read b n = (take n (buf b), None, withBuf b (drop n (buf b))).
Proof.
  unfold Read. destruct n as [|n]; intros H.
  - destruct b as [bf r x]. cbn. now destruct bf.
  - destruct (buf b) eqn:E; [cbn in H; lia | reflexivity].
Qed.

Lemma Read_cases (b b' : Reader) (n : nat) (data : string) (err : option error) :
  Read b n = (data, err, b') ->
  (err = None \/ err = Some EOF)
  /\ extra b' = extra b
  /\ (pending b' <= pending b)%nat.
Proof.
  unfold Read. destruct n as [|n].
  - intros E; split_triple E. auto.
  - destruct (buf b) as [|c bf] eqn:Hb.
    + destruct (rd b) as [|d r] eqn:Hr.
      * intros E; split_triple E. auto.
      * destruct (Nat.leb_spec (bufSize b) (S n)).
        -- intros E; split_triple E. cbn [extra].
           repeat split; auto.
           unfold pending; cbn [buf rd]. rewrite Hb, Hr, length_drop. lia.
        -- destruct (fill b) as [b1 eof] eqn:Hf.
           destruct (fill_spec _ _ _ Hf) as (Hs & Hx & _).
           intros E; split_triple E. cbn [extra withBuf].
           repeat split; auto.
           rewrite (pending_stream b), <- Hs.
           unfold pending, stream, withBuf; cbn [buf rd].
           rewrite length_app, length_drop. lia.
    + intros E; split_triple E. cbn [extra withBuf].
      repeat split; auto.
      unfold pending, withBuf; cbn [buf rd]. rewrite Hb, length_drop. lia.
Qed.

Lemma discardLoop_spec (fuel : nat) :
  forall (remain : nat) (b : Reader),
    (0 < remain < fuel)%nat ->
    exists b', extra b' = extra b
               /\ (String.length (rd b') <= String.length (rd b))%nat
               /\ if (remain <=? String.length (stream b))%nat
                  then discardLoop fuel remain b = (None, b')
                       /\ stream b' = drop remain (stream b)
                  else discardLoop fuel remain b = (Some EOF, b')
                       /\ stream b' = "".
Proof.
  induction fuel as [|fuel IH]; intros remain b Hr; [lia|].
  cbn [discardLoop].
  assert (Hstep : exists b1 eof,
             match buf b with "" => fill b | String _ _ => (b, false) end = (b1, eof)
             /\ stream b1 = stream b /\ extra b1 = extra b
             /\ (String.length (rd b1) <= String.length (rd b))%nat
             /\ (eof = true -> stream b = "" /\ b1 = b)
             /\ (eof = false -> (0 < String.length (buf b1))%nat)).
  { destruct (buf b) as [|c bf] eqn:Hb.
    - destruct (fill b) as [b1 eof] eqn:Hf. exists b1, eof.
      destruct (fill_spec _ _ _ Hf) as (Hs & Hx & Hrd & Heof & Hprog).
      repeat split; auto.
      + destruct (Heof H) as [Hrd0 _]. unfold stream. now rewrite Hb, Hrd0.
      + now destruct (Heof H).
      + intros ->. assert (Hroom : (String.length (buf b) < bufSize b)%nat)
          by (rewrite Hb; apply bufSize_pos).
        destruct (Hprog eq_refl Hroom). lia.
    - exists b, false. repeat split; auto; try discriminate.
      intros _. rewrite Hb. cbn. lia. }
  destruct Hstep as (b1 & eof & -> & Hs & Hx & Hrd & Heof & Hne).
  set (skip := Nat.min (String.length (buf b1)) remain).
  set (b2 := withBuf b1 (drop skip (buf b1))).
  assert (Hs2 : stream b2 = drop skip (stream b))
    by (rewrite <- Hs; unfold b2, stream, withBuf; cbn [buf rd];
        rewrite drop_app_le by (subst skip; lia); reflexivity).
  assert (Hx2 : extra b2 = extra b) by exact Hx.
  assert (Hrd2 : (String.length (rd b2) <= String.length (rd b))%nat) by exact Hrd.
  assert (Hlen : String.length (stream b) = String.length (stream b1)) by now rewrite Hs.
  assert (Hb1 : (String.length (buf b1) <= String.length (stream b))%nat)
    by (rewrite Hlen; unfold stream; rewrite length_app; lia).
  destruct (Nat.eqb_spec (remain - skip) 0) as [Hz|Hnz].
  - exists b2. repeat split; auto.
    assert (skip = remain) by (subst skip; lia).
    destruct (Nat.leb_spec remain (String.length (stream b))); [|lia].
    split; [reflexivity | congruence].
  - destruct eof.
    + destruct (Heof eq_refl) as [He ->]. exists b2. repeat split; auto.
      rewrite He in *. cbn [String.length] in *.
      destruct (Nat.leb_spec remain 0); [lia|].
      split; [reflexivity|]. rewrite Hs2. now destruct skip.
    + specialize (Hne eq_refl).
      assert (Hskip : (0 < skip)%nat) by (subst skip; lia).
      destruct (IH (remain - skip)%nat b2 ltac:(lia)) as (b' & Hx' & Hrd' & Hres).
      exists b'. repeat split; try congruence; try lia.
      rewrite Hs2, length_drop in Hres.
      assert (Hsk : skip = String.length (buf b1)) by (subst skip; lia).
      destruct (Nat.leb_spec (remain - skip) (String.length (stream b) - skip));
        destruct (Nat.leb_spec remain (String.length (stream b))); try lia.
      * destruct Hres as [-> Hs']. split; [reflexivity|]. rewrite Hs'.
        rewrite <- (take_drop skip (stream b)) at 2.
        replace remain with (String.length (take skip (stream b)) + (remain - skip))%nat
          at 2 by (rewrite length_take; lia).
        now rewrite drop_app_ge.
      * exact Hres.
Qed.

(** [Discard(n)] skips [n] bytes of the stream, or all of it with io.EOF. *)
Lemma Discard_spec (b : Reader) (n : nat) :
  (0 < n)%nat ->
  exists b', extra b' = extra b
             /\ (String.length (rd b') <= String.length (rd b))%nat
             /\ if (n <=? String.length (stream b))%nat
                then Discard b (Z.of_nat n) = (None, b')
                     /\ stream b' = drop n (stream b)
                else Discard b (Z.of_nat n) = (Some EOF, b')
                     /\ stream b' = "".
Proof.
  intros Hn. unfold Discard.
  destruct (Z.ltb_spec (Z.of_nat n) 0); [lia|].
  destruct (Z.eqb_spec (Z.of_nat n) 0); [lia|].
  rewrite Nat2Z.id. apply discardLoop_spec. lia.
Qed.

Lemma Discard_pending (b b' : Reader) (n : Z) (err : option error) :
  Discard b n = (err, b') ->
  extra b' = extra b /\ (pending b' <= pending b)%nat.
Proof.
  unfold Discard.
  destruct (Z.ltb_spec n 0); [intros E; injection E as <- <-; auto|].
  destruct (Z.eqb_spec n 0); [intros E; injection E as <- <-; auto|].
  intros E.
  destruct (Discard_spec b (Z.to_nat n) ltac:(lia)) as (b1 & Hx & _ & Hres).
  unfold Discard in Hres. rewrite Z2Nat.id in Hres by lia.
  destruct (Z.ltb_spec n 0); [lia|]. destruct (Z.eqb_spec n 0); [lia|].
  rewrite E in Hres. rewrite !pending_stream.
  destruct (_ <=? _)%nat; destruct Hres as [Hres Hs]; injection Hres as -> ->;
    rewrite Hs; split; auto; [rewrite length_drop|cbn]; lia.
Qed.

End ReaderOps.

(** ** Integers and their decimal form *)

Section Decimal.

Import Strconv.

Lemma digit_cases (d : Z) :
  0 <= d < 10 ->
  d = 0 \/ d = 1 \/ d = 2 \/ d = 3 \/ d = 4 \/ d = 5 \/ d = 6 \/ d = 7 \/ d = 8 \/ d = 9.
Proof. lia. Qed.

Lemma digitChar_isDigit (d : Z) : 0 <= d < 10 -> isDigit (digitChar d) = true.
Proof.
  intros H. destruct (digit_cases d H) as [->|[->|[->|[->|[->|[->|[->|[->|[->| ->]]]]]]]]];
    reflexivity.
Qed.

Lemma digitVal_digitChar (d : Z) : 0 <= d < 10 -> digitVal (digitChar d) = d.
Proof.
  intros H. destruct (digit_cases d H) as [->|[->|[->|[->|[->|[->|[->|[->|[->| ->]]]]]]]]];
    reflexivity.
Qed.

Lemma formatBits_acc (fuel : nat) :
  forall (n : Z) (acc : string),
    formatBits fuel n acc = formatBits fuel n "" ++ acc.
Proof.
  induction fuel as [|fuel IH]; intros n acc; cbn [formatBits]; [reflexivity|].
  destruct (n <? 10); [reflexivity|].
  rewrite IH, (IH _ (String _ "")), app_assoc. reflexivity.
Qed.

Lemma allDigits_app (a b : string) :
  allDigits (a ++ b) = allDigits a && allDigits b.
Proof.
  induction a as [|c a IH]; cbn; [reflexivity|]. now rewrite IH, andb_assoc.
Qed.

Lemma formatBits_allDigits (fuel : nat) :
  forall n : Z, 0 <= n -> allDigits (formatBits fuel n "") = true.
Proof.
  induction fuel as [|fuel IH]; intros n Hn; cbn [formatBits]; [reflexivity|].
  destruct (Z.ltb_spec n 10).
  - cbn. rewrite digitChar_isDigit by lia. reflexivity.
  - rewrite formatBits_acc, allDigits_app, IH by (apply Z.div_pos; lia).
    cbn. rewrite digitChar_isDigit; [reflexivity|].
    apply Z.mod_pos_bound; lia.
Qed.

Lemma formatBits_nonempty (fuel : nat) (n : Z) :
  formatBits (S fuel) n "" <> "".
Proof.
  cbn [formatBits]. destruct (n <? 10); [discriminate|].
  rewrite formatBits_acc. destruct (formatBits fuel (n / 10) ""); discriminate.
Qed.

Lemma parseUintLoop_app (a b : string) :
  forall n : Z,
    parseUintLoop (a ++ b) n =
    match parseUintLoop a n with
    | (v, None) => parseUintLoop b v
    | r => r
    end.
Proof.
  induction a as [|c a IH]; intros n; cbn [append parseUintLoop]; [reflexivity|].
  destruct (negb (isDigit c)); [reflexivity|].
  destruct (maxUint64 / 10 + 1 <=? n); [reflexivity|].
  destruct (maxUint64 <? n * 10 + digitVal c); [reflexivity|].
  apply IH.
Qed.

(** Parsing the digits written for [n] gives [n] back. *)
Lemma parseUintLoop_formatBits (fuel : nat) :
  forall n : Z,
    0 <= n <= maxUint64 ->
    n < 2 ^ Z.of_nat fuel ->
    parseUintLoop (formatBits fuel n "") 0 = (n, None).
Proof.
  induction fuel as [|fuel IH]; intros n Hn Hfuel.
  - cbn in Hfuel. cbn. f_equal. lia.
  - cbn [formatBits].
    assert (Hmax : maxUint64 = 18446744073709551615) by reflexivity.
    destruct (Z.ltb_spec n 10) as [Hsmall|Hbig].
    + cbn [parseUintLoop]. rewrite digitChar_isDigit by lia. cbn [negb].
      rewrite digitVal_digitChar by lia.
      destruct (Z.leb_spec (maxUint64 / 10 + 1) 0) as [H0|_];
        [rewrite Hmax in H0; cbn in H0; lia|].
      destruct (Z.ltb_spec maxUint64 (0 * 10 + n)); [lia|]. reflexivity.
    + rewrite formatBits_acc, parseUintLoop_app.
      assert (Hdiv : 0 <= n / 10 <= maxUint64)
        by (split; [apply Z.div_pos; lia | apply Z.div_le_upper_bound; lia]).
      assert (Hq : n / 10 < 2 ^ Z.of_nat fuel).
      { rewrite Nat2Z.inj_succ, Z.pow_succ_r in Hfuel by lia.
        apply Z.div_lt_upper_bound; lia. }
      rewrite (IH _ Hdiv Hq).
      pose proof (Z.mod_pos_bound n 10 ltac:(lia)) as Hmod.
      pose proof (Z.div_mod n 10 ltac:(lia)) as Hdm.
      cbn [parseUintLoop]. rewrite digitChar_isDigit by lia. cbn [negb].
      rewrite digitVal_digitChar by lia.
      assert (Hcut : n / 10 < maxUint64 / 10 + 1).
      { assert (n / 10 <= maxUint64 / 10) by (apply Z.div_le_mono; lia). lia. }
      destruct (Z.leb_spec (maxUint64 / 10 + 1) (n / 10)); [lia|].
      replace (n / 10 * 10 + n mod 10) with n by lia.
      destruct (Z.ltb_spec maxUint64 n); [lia|]. reflexivity.
Qed.

Lemma log2_fuel (n : Z) : 0 <= n -> n < 2 ^ Z.of_nat (S (Z.to_nat (Z.log2 n))).
Proof.
  intros Hn. rewrite Nat2Z.inj_succ, Z2Nat.id by apply Z.log2_nonneg.
  destruct (Z.eq_dec n 0) as [->|Hz]; [reflexivity|].
  apply Z.log2_spec. lia.
Qed.

Lemma ParseUint_formatUint (n : Z) :
  0 <= n <= maxUint64 -> ParseUint (formatUint n) = (n, None).
Proof.
  intros Hn. unfold ParseUint, formatUint.
  pose proof (formatBits_nonempty (Z.to_nat (Z.log2 n)) n) as Hne.
  rewrite parseUintLoop_formatBits; [|exact Hn|apply log2_fuel; lia].
  destruct (formatBits _ n ""); [contradiction | reflexivity].
Qed.

Lemma formatUint_first_digit (n : Z) :
  0 <= n ->
  exists c s, formatUint n = String c s /\ isDigit c = true.
Proof.
  intros Hn. unfold formatUint.
  pose proof (formatBits_nonempty (Z.to_nat (Z.log2 n)) n) as Hne.
  pose proof (formatBits_allDigits (S (Z.to_nat (Z.log2 n))) n Hn) as Hd.
  destruct (formatBits _ n "") as [|c s]; [contradiction|].
  cbn in Hd. apply andb_true_iff in Hd. exists c, s. tauto.
Qed.

(** [Atoi] after [Itoa], on every [int]. *)
Lemma Atoi_Itoa (n : Z) : minInt <= n <= maxInt -> Atoi (Itoa n) = (n, None).
Proof.
  unfold minInt, maxInt, intSize. intros Hn.
  unfold Atoi, ParseInt, Itoa, intSize.
  change (2 ^ (64 - 1)) with 9223372036854775808 in *.
  assert (Hmax : maxUint64 = 18446744073709551615) by reflexivity.
  destruct (Z.ltb_spec n 0) as [Hneg|Hpos].
  - rewrite Ascii.eqb_refl.
    replace (Ascii.eqb "-" "+") with false by reflexivity. cbn [orb].
    rewrite ParseUint_formatUint by lia. cbn [negb andb].
    destruct (Z.ltb_spec 9223372036854775808 (- n)); [lia|]. f_equal. lia.
  - destruct (formatUint_first_digit n Hpos) as (c & s & Hs & Hc).
    pose proof (ParseUint_formatUint n ltac:(lia)) as Hp.
    rewrite Hs in *.
    assert (Hplus : Ascii.eqb c "+" = false)
      by (destruct (Ascii.eqb_spec c "+"); [subst c; discriminate | reflexivity]).
    assert (Hminus : Ascii.eqb c "-" = false)
      by (destruct (Ascii.eqb_spec c "-"); [subst c; discriminate | reflexivity]).
    rewrite Hplus, Hminus. cbn [orb]. rewrite Hp. cbn [negb andb].
    destruct (Z.leb_spec 9223372036854775808 n); [lia | reflexivity].
Qed.

Lemma allDigits_no_LF (s : string) : allDigits s = true -> IndexByte s LF = None.
Proof.
  induction s as [|c s IH]; cbn [IndexByte allDigits]; [reflexivity|]. intros H.
  apply andb_true_iff in H. destruct H as [Hc Hs].
  destruct (Ascii.eqb_spec c LF) as [->|_]; [discriminate|].
  now rewrite IH.
Qed.

Lemma Itoa_no_LF (n : Z) : IndexByte (Itoa n) LF = None.
Proof.
  unfold Itoa, formatUint. destruct (Z.ltb_spec n 0).
  - cbn [IndexByte]. replace (Ascii.eqb "-" LF) with false by reflexivity.
    rewrite allDigits_no_LF; [reflexivity|]. apply formatBits_allDigits. lia.
  - apply allDigits_no_LF, formatBits_allDigits. lia.
Qed.

Lemma Itoa_nonempty (n : Z) : (0 < String.length (Itoa n))%nat.
Proof.
  unfold Itoa, formatUint. destruct (n <? 0); [cbn; lia|].
  pose proof (formatBits_nonempty (Z.to_nat (Z.log2 n)) n).
  destruct (formatBits _ n ""); [contradiction | cbn; lia].
Qed.

End Decimal.

(** ** The decoder on well-formed records *)

Section DecodeRecords.

#[local] Arguments Discard : simpl never.
#[local] Arguments readPayload : simpl never.
#[local] Arguments readLineCRLF : simpl never.
#[local] Arguments ReadByte : simpl never.
#[local] Arguments Strconv.Atoi : simpl never.
#[local] Arguments wrap : simpl never.
#[local] Arguments makeslice : simpl never.
#[local] Arguments Buffered : simpl never.

Lemma Decode__simple_string (fuel : nat) (reader r1 r2 : Reader) (line : string) :
  ReadByte reader = ("+"%char, None, r1) ->
  readLineCRLF r1 = (line, None, r2) ->
  Decode_ (S fuel) reader = Return (VString line) None r2.
Proof. intros H1 H2. cbn [Decode_]. rewrite H1. cbn match. now rewrite H2. Qed.

Lemma Decode__integer (fuel : nat) (reader r1 r2 : Reader) (line : string) (n : Z) :
  ReadByte reader = (":"%char, None, r1) ->
  readLineCRLF r1 = (line, None, r2) ->
  (0 < String.length line)%nat ->
  Strconv.Atoi line = (n, None) ->
  Decode_ (S fuel) reader = Return (VInt Int64 n) None r2.
Proof.
  intros H1 H2 Hlen H3. cbn [Decode_]. rewrite H1. cbn match. rewrite H2. cbn.
  unfold len. destruct (Z.eqb_spec (Z.of_nat (String.length line)) 0); [lia|].
  now rewrite H3.
Qed.

Lemma Decode__boolean (fuel : nat) (reader r1 r2 r3 : Reader) (b : ascii)
  (err : option error) :
  ReadByte reader = ("#"%char, None, r1) ->
  ReadByte r1 = (b, None, r2) ->
  Discard r2 2 = (err, r3) ->
  Decode_ (S fuel) reader = Return (VBool (Ascii.eqb b "t")) None r3.
Proof.
  intros H1 H2 H3. cbn [Decode_]. rewrite H1. cbn match. rewrite H2. cbn.
  now rewrite H3.
Qed.

Lemma Decode__null (fuel : nat) (reader r1 r2 : Reader) (err : option error) :
  ReadByte reader = ("_"%char, None, r1) ->
  Discard r1 2 = (err, r2) ->
  Decode_ (S fuel) reader = Return VNil None r2.
Proof. intros H1 H2. cbn [Decode_]. rewrite H1. cbn match. now rewrite H2. Qed.

Lemma Decode__bulk_string (fuel : nat) (reader r1 r2 r3 r4 : Reader)
  (lengthStr value : string) (n : Z) :
  ReadByte reader = ("$"%char, None, r1) ->
  readLineCRLF r1 = (lengthStr, None, r2) ->
  Strconv.Atoi lengthStr = (n, None) ->
  0 <= n <= maxAlloc ->
  n + 2 <= Buffered r2 ->
  readPayload r2 n = (value, None, r3) ->
  Discard r3 2 = (None, r4) ->
  Decode_ (S fuel) reader = Return (VString value) None r4.
Proof.
  intros H1 H2 H3 Hn Hbuf H4 H5.
  cbn [Decode_]. rewrite H1. cbn match. rewrite H2. cbn. rewrite H3. cbn.
  destruct (Z.eqb_spec n (-1)); [lia|].
  assert (Hmax : maxAlloc = 281474976710656) by reflexivity.
  rewrite wrap_small
    by (unfold minInt, maxInt, intSize;
        change (2 ^ (64 - 1)) with 9223372036854775808; lia).
  destruct (Z.ltb_spec (Buffered r2) (n + 2)); [lia|].
  unfold makeslice.
  destruct (Z.leb_spec 0 n); [|lia].
  destruct (Z.leb_spec (n * 1) maxAlloc); [|lia]. cbn.
  rewrite H4. cbn. now rewrite H5.
Qed.

End DecodeRecords.

Lemma stream_empty (b : Reader) :
  stream b = "" -> b = mkReader "" "" (extra b).
Proof.
  destruct b as [[|c bf] [|d r] x]; cbn; intros H; try discriminate. reflexivity.
Qed.

(** The first byte read by a fresh reader whose buffer holds the whole
    source. *)
Lemma ReadByte_fresh_fits (c : ascii) (rest : string) (size : nat) :
  (String.length (String c rest) <= bufSize (NewReaderSize "" size))%nat ->
  ReadByte (NewReaderSize (String c rest) size)
  = (c, None, mkReader rest "" (size - minReadBufferSize)).
Proof.
  intros H. unfold ReadByte, NewReaderSize, fill, withBuf. cbn [buf rd extra].
  change (bufSize {| buf := ""; rd := String c rest; extra := size - minReadBufferSize |})
    with (bufSize (NewReaderSize "" size)).
  cbn [String.length append]. rewrite Nat.sub_0_r, Nat.min_r by exact H.
  rewrite (take_all _ (String c rest)), (drop_all _ (String c rest))
    by (cbn [String.length]; lia).
  reflexivity.
Qed.

Lemma zeros_none (n : nat) : zeros (n - n) = "".
Proof. now rewrite Nat.sub_diag. Qed.

(** ** Round trip of the scalars *)

Section RoundTrip.

Variable size : nat.

Let fresh (wire : string) : Reader := NewReaderSize wire size.
Let done : Reader := NewReaderSize "" size.

Lemma fresh_stream (wire : string) : stream (fresh wire) = wire.
Proof. reflexivity. Qed.

Lemma finished (b : Reader) :
  stream b = "" -> extra b = extra done -> b = done.
Proof. intros Hs Hx. rewrite (stream_empty b Hs), Hx. reflexivity. Qed.

Ltac same_extra :=
  repeat match goal with
         | H : extra _ = extra _ |- _ => rewrite H; clear H
         end;
  reflexivity.

Lemma roundtrip_simple_string (s : string) :
  len s <= 16 -> IndexByte s LF = None ->
  Encode (VString s) = ("+" ++ s ++ CRLF, None)
  /\ Decode (fresh ("+" ++ s ++ CRLF)) = Return (VString s) None done.
Proof.
  intros Hlen Hlf. split.
  - cbn [Encode]. unfold encodeString.
    destruct (Z.leb_spec (len s) (2 ^ 4)); [reflexivity | cbn in *; lia].
  - destruct (ReadByte_stream (fresh ("+" ++ s ++ CRLF)) "+" (s ++ CRLF) eq_refl)
      as (r1 & H1 & Hs1 & Hx1 & _).
    destruct (readLineCRLF_line r1 s "") as (r2 & H2 & Hs2 & Hx2 & _);
      [now rewrite Hs1 | exact Hlf |].
    unfold Decode. rewrite Nat.add_comm. cbn [Nat.add].
    rewrite (Decode__simple_string _ _ _ _ _ H1 H2).
    f_equal. apply finished; [assumption | same_extra].
Qed.

Lemma roundtrip_int64 (n : Z) :
  minInt <= n <= maxInt ->
  Encode (VInt Int64 n) = (":" ++ Strconv.Itoa n ++ CRLF, None)
  /\ Decode (fresh (":" ++ Strconv.Itoa n ++ CRLF)) = Return (VInt Int64 n) None done.
Proof.
  intros Hn. split; [reflexivity|].
  destruct (ReadByte_stream (fresh (":" ++ Strconv.Itoa n ++ CRLF)) ":"
              (Strconv.Itoa n ++ CRLF) eq_refl) as (r1 & H1 & Hs1 & Hx1 & _).
  destruct (readLineCRLF_line r1 (Strconv.Itoa n) "") as (r2 & H2 & Hs2 & Hx2 & _);
    [now rewrite Hs1 | apply Itoa_no_LF |].
  unfold Decode. rewrite Nat.add_comm. cbn [Nat.add].
  rewrite (Decode__integer _ _ _ _ _ n H1 H2 (Itoa_nonempty n) (Atoi_Itoa n Hn)).
  f_equal. apply finished; [assumption | same_extra].
Qed.

Lemma roundtrip_bool (v : bool) :
  Encode (VBool v) = ((if v then "#t" else "#f") ++ CRLF, None)
  /\ Decode (fresh ((if v then "#t" else "#f") ++ CRLF)) = Return (VBool v) None done.
Proof.
  split; [now destruct v|].
  set (c := (if v then "t" else "f")%char).
  assert (Hw : (if v then "#t" else "#f") ++ CRLF = String "#" (String c CRLF))
    by now destruct v.
  rewrite Hw.
  destruct (ReadByte_stream (fresh (String "#" (String c CRLF))) "#" (String c CRLF) eq_refl)
    as (r1 & H1 & Hs1 & Hx1 & _).
  destruct (ReadByte_stream r1 c CRLF Hs1) as (r2 & H2 & Hs2 & Hx2 & _).
  destruct (Discard_spec r2 2 ltac:(lia)) as (r3 & Hx3 & _ & H3).
  rewrite Hs2 in H3. cbn in H3. destruct H3 as [H3 Hs3].
  unfold Decode. rewrite Nat.add_comm. cbn [Nat.add].
  rewrite (Decode__boolean _ _ _ _ _ _ _ H1 H2 H3).
  f_equal; [now destruct v|]. apply finished; [assumption | same_extra].
Qed.

Lemma roundtrip_null :
  Encode VNil = ("_" ++ CRLF, None)
  /\ Decode (fresh ("_" ++ CRLF)) = Return VNil None done.
Proof.
  split; [reflexivity|].
  destruct (ReadByte_stream (fresh ("_" ++ CRLF)) "_" CRLF eq_refl)
    as (r1 & H1 & Hs1 & Hx1 & _).
  destruct (Discard_spec r1 2 ltac:(lia)) as (r2 & Hx2 & _ & H2).
  rewrite Hs1 in H2. cbn in H2. destruct H2 as [H2 Hs2].
  unfold Decode. rewrite Nat.add_comm. cbn [Nat.add].
  rewrite (Decode__null _ _ _ _ _ H1 H2).
  f_equal. apply finished; [assumption | same_extra].
Qed.

Lemma roundtrip_bulk_string (s : string) :
  16 < len s ->
  (String.length (fst (Encode (VString s))) <= bufSize done)%nat ->
  Z.of_nat (bufSize done) <= maxAlloc ->
  let wire := "$" ++ Strconv.Itoa (len s) ++ CRLF ++ s ++ CRLF in
  Encode (VString s) = (wire, None)
  /\ Decode (fresh wire) = Return (VString s) None done.
Proof.
  intros Hlen Hfit Halloc wire.
  assert (Henc : Encode (VString s) = (wire, None)).
  { cbn [Encode]. unfold encodeString.
    destruct (Z.leb_spec (len s) (2 ^ 4)); [cbn in *; lia | reflexivity]. }
  split; [exact Henc|].
  rewrite Henc in Hfit. cbn [fst] in Hfit.
  assert (Hmax : maxAlloc = 281474976710656) by reflexivity.
  assert (Hwire : (String.length wire
                   = 1 + String.length (Strconv.Itoa (len s)) + 2 + String.length s + 2)%nat).
  { unfold wire. cbn [append String.length]. rewrite !length_app. cbn. lia. }
  (* the tag byte: the whole record enters the buffer *)
  pose proof (ReadByte_fresh_fits "$" (Strconv.Itoa (len s) ++ CRLF ++ s ++ CRLF) size Hfit)
    as H1.
  set (r1 := mkReader (Strconv.Itoa (len s) ++ CRLF ++ s ++ CRLF) ""
               (size - minReadBufferSize)) in H1.
  (* the length line *)
  destruct (readLineCRLF_line r1 (Strconv.Itoa (len s)) (s ++ CRLF))
    as (r2 & H2 & Hs2 & Hx2 & Hrd2);
    [unfold r1, stream; cbn [buf rd]; now rewrite app_empty_r | apply Itoa_no_LF |].
  assert (Hrd : rd r2 = "") by (apply length_zero_empty; cbn in Hrd2; lia).
  assert (Hbuf : buf r2 = s ++ CRLF)
    by (unfold stream in Hs2; now rewrite Hrd, app_empty_r in Hs2).
  assert (Hatoi : Strconv.Atoi (Strconv.Itoa (len s)) = (len s, None)).
  { apply Atoi_Itoa. unfold minInt, maxInt, intSize, len in *.
    change (2 ^ (64 - 1)) with 9223372036854775808. lia. }
  (* the payload and its CRLF *)
  assert (H3 : readPayload r2 (len s) = (s, None, withBuf r2 CRLF)).
  { unfold readPayload, len. rewrite Nat2Z.id, Read_buffered
      by (rewrite Hbuf, length_app; lia).
    rewrite Hbuf, take_app, drop_app, zeros_none, app_empty_r. reflexivity. }
  destruct (Discard_spec (withBuf r2 CRLF) 2 ltac:(lia)) as (r4 & Hx4 & _ & H4).
  assert (Hs3 : stream (withBuf r2 CRLF) = CRLF)
    by (unfold stream, withBuf; cbn [buf rd]; now rewrite Hrd).
  rewrite Hs3 in H4. cbn in H4. destruct H4 as [H4 Hs4].
  unfold Decode. rewrite Nat.add_comm. cbn [Nat.add].
  rewrite (Decode__bulk_string _ _ _ _ _ _ _ _ (len s) H1 H2 Hatoi) with (3 := H3) (4 := H4).
  - f_equal. apply finished; [exact Hs4|]. rewrite Hx4. exact Hx2.
  - unfold len in *. lia.
  - unfold Buffered, len. rewrite Hbuf, length_app. cbn. lia.
Qed.

(** C8, amended: for every scalar in the round-trip domain (a string of at
    most 16 bytes without a line feed, a longer string whose record fits in
    the reader's buffer, a 64-bit signed integer, a boolean, Null), Encode
    succeeds and decoding its output from a fresh reader returns the value
    itself, without an error and with every byte consumed. *)
Theorem C8_scalar_round_trip :
  forall v : value,
    roundTripScalar size v ->
    exists wire : string,
      Encode v = (wire, None)
      /\ Decode (NewReaderSize wire size) = Return v None (NewReaderSize "" size).
Proof.
  intros v Hv. destruct Hv as [s Hlen Hlf | s Hlen Hfit Halloc | n Hn | b | ].
  - eexists. apply (roundtrip_simple_string s Hlen Hlf).
  - eexists. apply (roundtrip_bulk_string s Hlen Hfit Halloc).
  - eexists. apply (roundtrip_int64 n Hn).
  - eexists. apply (roundtrip_bool b).
  - eexists. apply roundtrip_null.
Qed.

End RoundTrip.

Lemma C8_scalar_round_trip_witness :
  roundTripScalar 4096 (VString "This is a long string of length > 16")
  /\ exists wire : string,
       Encode (VString "This is a long string of length > 16") = (wire, None)
       /\ Decode (NewReaderSize wire 4096)
          = Return (VString "This is a long string of length > 16") None
              (NewReaderSize "" 4096).
Proof.
  assert (H : roundTripScalar 4096 (VString "This is a long string of length > 16")).
  { apply rt_bulk_string;
      [reflexivity
      | apply Nat.leb_le; vm_compute; reflexivity
      | apply Z.leb_le; vm_compute; reflexivity]. }
  split; [exact H | apply (C8_scalar_round_trip 4096 _ H)].
Defined.

(** ** Fuel

    Every call of [Decode_] consumes the tag byte before it recurses, and no
    operation gives bytes back, so the recursion depth is bounded by the
    bytes pending: [Decode] is a total function whose result is [Return] or
    [Panic]. *)

Section Fuel.

#[local] Arguments Discard : simpl never.
#[local] Arguments readPayload : simpl never.
#[local] Arguments readLineCRLF : simpl never.
#[local] Arguments ReadByte : simpl never.
#[local] Arguments Strconv.Atoi : simpl never.
#[local] Arguments Strconv.ParseFloat : simpl never.
#[local] Arguments wrap : simpl never.
#[local] Arguments makeslice : simpl never.
#[local] Arguments Buffered : simpl never.
#[local] Arguments pending : simpl never.

Lemma ReadByte_cases (b b' : Reader) (c : ascii) (err : option error) :
  ReadByte b = (c, err, b') ->
  extra b' = extra b
  /\ match err with
     | None => S (pending b') = pending b
     | Some e => e = EOF /\ b' = b /\ pending b = 0%nat
     end.
Proof.
  intros H. destruct (stream b) as [|x rest] eqn:Hs.
  - rewrite (ReadByte_empty b Hs) in H. split_triple H.
    rewrite pending_stream, Hs. auto.
  - destruct (ReadByte_stream b x rest Hs) as (b1 & H1 & Hs1 & Hx1 & _).
    rewrite H1 in H. split_triple H.
    rewrite !pending_stream, Hs. auto.
Qed.

Lemma readPayload_cases (b b' : Reader) (n : Z) (data : string) (err : option error) :
  readPayload b n = (data, err, b') ->
  extra b' = extra b /\ (pending b' <= pending b)%nat.
Proof.
  unfold readPayload.
  destruct (Read b (Z.to_nat n)) as [[d e] b1] eqn:E. intros H. split_triple H.
  destruct (Read_cases _ _ _ _ _ E) as (_ & Hx & Hp). auto.
Qed.

(** One step of the case analysis of a scalar record: name the result of the
    next reader operation and record what it does to the pending bytes. *)
Ltac reader_step :=
  match goal with
  | |- context [readLineCRLF ?x] =>
      let E := fresh "E" in
      destruct (readLineCRLF x) as [[? ?] ?] eqn:E;
      apply readLineCRLF_cases in E; destruct E as (_ & ? & _ & ?)
  | |- context [readPayload ?x ?n] =>
      let E := fresh "E" in
      destruct (readPayload x n) as [[? ?] ?] eqn:E;
      apply readPayload_cases in E; destruct E as (? & ?)
  | |- context [Discard ?x ?n] =>
      let E := fresh "E" in
      destruct (Discard x n) as [? ?] eqn:E;
      apply Discard_pending in E; destruct E as (? & ?)
  | |- context [ReadByte ?x] =>
      let E := fresh "E" in
      destruct (ReadByte x) as [[? [?|]] ?] eqn:E;
      apply ReadByte_cases in E; destruct E as (? & ?)
  | |- context [Strconv.Atoi ?x] => destruct (Strconv.Atoi x) as [? [?|]]
  | |- context [Strconv.ParseFloat ?x] => destruct (Strconv.ParseFloat x) as [? [?|]]
  | |- context [match ?x with _ => _ end] => is_var x; destruct x
  | |- context [if ?x then _ else _] => destruct x
  end; cbn [isEOF atoiError parseFloatError].

(** A scalar record does not depend on the fuel, and consumes at least its
    tag byte. *)
Lemma Decode__scalar (f : nat) (r r1 : Reader) (c : ascii) :
  ReadByte r = (c, None, r1) ->
  c <> "*"%char -> c <> "%"%char ->
  (forall f', Decode_ (S f') r = Decode_ (S f) r)
  /\ match Decode_ (S f) r with
     | Return _ _ r' => (pending r' < pending r)%nat /\ extra r' = extra r
     | Panic _ => True
     | OutOfFuel => False
     end.
Proof.
  intros H Ha Hm.
  destruct (ReadByte_cases _ _ _ _ H) as [Hx Hp].
  split.
  - intros f'. cbn [Decode_]. rewrite H.
    destruct c as [[] [] [] [] [] [] [] []]; try reflexivity; congruence.
  - cbn [Decode_]. rewrite H.
    destruct c as [[] [] [] [] [] [] [] []]; try congruence; clear Ha Hm H;
      repeat reader_step;
      try exact I;
      repeat match goal with H : _ /\ _ |- _ => destruct H end;
      subst; split; (lia || congruence).
Qed.

(** The array and the map case, in terms of their loops. *)
Lemma Decode__array (f : nat) (r r1 : Reader) :
  ReadByte r = ("*"%char, None, r1) ->
  Decode_ (S f) r =
  let '(countStr, err, reader) := readLineCRLF r1 in
  if isEOF err then Return VNil (Some ErrUnexpectedEOF) reader
  else match err with
  | Some e => Return VNil (Some e) reader
  | None =>
      let '(count, err) := Strconv.Atoi countStr in
      match atoiError countStr err with
      | Some e => Return VNil (Some e) reader
      | None =>
          if count =? -1 then Return VNil None reader
          else if negb (makeslice 16 count) then Panic MakesliceLenOutOfRange
          else decodeArray_ f reader count 0 []
      end
  end.
Proof. intros H. cbn [Decode_]. rewrite H. reflexivity. Qed.

Lemma Decode__map (f : nat) (r r1 : Reader) :
  ReadByte r = ("%"%char, None, r1) ->
  Decode_ (S f) r =
  let '(line, _, reader) := readLineCRLF r1 in
  let '(size, _) := Strconv.Atoi line in
  match decodeMap_ f reader size 0 [] true true with
  | MapLeft o => o
  | MapDone tempMap isAllStringKeys isAllInt64Keys reader =>
      if isAllStringKeys then
        match toStringMap tempMap [] with
        | Some finalMap => Return (VMapString finalMap) None reader
        | None => Panic TypeAssertion
        end
      else if isAllInt64Keys then
        match toInt64Map tempMap [] with
        | Some finalMap => Return (VMapInt64 finalMap) None reader
        | None => Panic TypeAssertion
        end
      else Return (VMapIface tempMap) None reader
  end.
Proof. intros H. cbn [Decode_]. rewrite H. reflexivity. Qed.

Lemma Decode__read_error (f : nat) (r r1 : Reader) (c : ascii) (e : error) :
  ReadByte r = (c, Some e, r1) ->
  Decode_ (S f) r = Return VNil (Some e) r1.
Proof. intros H. cbn [Decode_]. rewrite H. now destruct e. Qed.

Ltac split_ands :=
  repeat match goal with H : _ /\ _ |- _ => destruct H end.

Lemma fuel_consumes (f : nat) :
  (forall r, consumes r (Decode_ f r))
  /\ (forall r count i array, keeps r (decodeArray_ f r count i array))
  /\ (forall r size i tempMap s k, keepsMap r (decodeMap_ f r size i tempMap s k)).
Proof.
  induction f as [|f (IHd & IHa & IHm)]; [repeat split|].
  split; [|split].
  - intros r. destruct (ReadByte r) as [[c [e|]] r1] eqn:H.
    + rewrite (Decode__read_error _ _ _ _ _ H).
      apply ReadByte_cases in H. destruct H as (Hx & _ & -> & _).
      cbn. repeat split; auto. discriminate.
    + pose proof (ReadByte_cases _ _ _ _ H) as [Hx Hp].
      destruct (Ascii.eqb_spec c "*") as [->|Ha];
        [|destruct (Ascii.eqb_spec c "%") as [->|Hm]].
      * rewrite (Decode__array _ _ _ H).
        repeat reader_step; cbn [consumes]; split_ands;
          try (repeat split; (lia || congruence || discriminate)).
        match goal with
        | |- consumes _ (decodeArray_ f ?x ?c ?i ?a) =>
            pose proof (IHa x c i a) as Hk; destruct (decodeArray_ f x c i a)
        end; cbn in *; split_ands; repeat split; (lia || congruence).
      * rewrite (Decode__map _ _ _ H).
        destruct (readLineCRLF r1) as [[line e] r2] eqn:E.
        apply readLineCRLF_cases in E. destruct E as (_ & Hx2 & _ & Hp2).
        destruct (Strconv.Atoi line) as [size e'].
        pose proof (IHm r2 size 0 [] true true) as Hk.
        destruct (decodeMap_ f r2 size 0 [] true true) as [tm s k r3|o].
        -- cbn in Hk. destruct Hk as [Hp3 Hx3].
           destruct s; [destruct (toStringMap tm [])|
                        destruct k; [destruct (toInt64Map tm [])|]];
             cbn; repeat split; (lia || congruence).
        -- destruct o; cbn in *; split_ands; repeat split; (lia || congruence).
      * destruct (Decode__scalar f r r1 c H Ha Hm) as [_ Hs].
        destruct (Decode_ (S f) r); cbn; [|exact I|exact I].
        destruct Hs. repeat split; (lia || congruence).
  - intros r count i array. cbn [decodeArray_].
    destruct (i <? count); [|cbn; auto].
    destruct (Buffered r =? 0); [cbn; auto|].
    pose proof (IHd r) as Hd.
    destruct (Decode_ f r) as [v e r1| |]; [|exact I|exact I].
    cbn in Hd. destruct Hd as (Hp & Hlt & Hx).
    destruct e as [e|]; [destruct e; cbn; auto|]. cbn [isEOF].
    pose proof (IHa r1 count (wrap (i + 1)) (array ++ [v])%list) as Hk.
    destruct (decodeArray_ f r1 count (wrap (i + 1)) (array ++ [v])%list); cbn in *;
      split_ands; repeat split; (lia || congruence).
  - intros r size i tempMap s k. cbn [decodeMap_].
    destruct (i <? size); [|cbn; auto].
    destruct (Buffered r =? 0); [cbn; auto|].
    pose proof (IHd r) as Hd.
    destruct (Decode_ f r) as [key e r1| |]; [|exact I|exact I].
    cbn in Hd. destruct Hd as (Hp & Hlt & Hx).
    destruct e as [e|]; [destruct e; cbn; auto|]. cbn [isEOF].
    pose proof (IHd r1) as Hd.
    destruct (Decode_ f r1) as [value e r2| |]; [|exact I|exact I].
    cbn in Hd. destruct Hd as (Hp2 & Hlt2 & Hx2).
    destruct e as [e|];
      [destruct e; cbn; split; (lia || congruence)|]. cbn [isEOF].
    assert (Hrec : forall i' tm s' k',
               keepsMap r (decodeMap_ f r2 size i' tm s' k')).
    { intros i' tm s' k'. pose proof (IHm r2 size i' tm s' k') as Hk.
      destruct (decodeMap_ f r2 size i' tm s' k') as [? ? ? r3|[? ? r3| |]];
        cbn in *; split_ands; repeat split; (lia || congruence). }
    destruct key; try apply Hrec;
      try (destruct (negb (hashable _)); [exact I | apply Hrec]).
    all: destruct k0; cbn; try (destruct (negb (hashable _))); try exact I; apply Hrec.
Qed.

(** More fuel does not change a result. *)
Lemma fuel_mono (f : nat) :
  (forall r f', (f <= f')%nat -> Decode_ f r <> OutOfFuel ->
                Decode_ f' r = Decode_ f r)
  /\ (forall r count i array f', (f <= f')%nat ->
         decodeArray_ f r count i array <> OutOfFuel ->
         decodeArray_ f' r count i array = decodeArray_ f r count i array)
  /\ (forall r size i tempMap s k f', (f <= f')%nat ->
         decodeMap_ f r size i tempMap s k <> MapLeft OutOfFuel ->
         decodeMap_ f' r size i tempMap s k = decodeMap_ f r size i tempMap s k).
Proof.
  induction f as [|f (IHd & IHa & IHm)];
    [repeat split; intros; cbn in *; congruence|].
  split; [|split].
  - intros r [|f'] Hle Hne; [lia|]. assert (Hf : (f <= f')%nat) by lia.
    destruct (ReadByte r) as [[c [e|]] r1] eqn:H.
    + now rewrite !(Decode__read_error _ _ _ _ _ H).
    + destruct (Ascii.eqb_spec c "*") as [->|Ha];
        [|destruct (Ascii.eqb_spec c "%") as [->|Hm]].
      * rewrite (Decode__array f _ _ H) in Hne |- *.
        rewrite (Decode__array f' _ _ H).
        repeat reader_step; try reflexivity. now apply IHa.
      * rewrite (Decode__map f _ _ H) in Hne |- *.
        rewrite (Decode__map f' _ _ H).
        destruct (readLineCRLF r1) as [[line e] r2].
        destruct (Strconv.Atoi line) as [size e'].
        rewrite (IHm r2 size 0 [] true true f' Hf); [reflexivity|].
        intros E. rewrite E in Hne. congruence.
      * destruct (Decode__scalar f r r1 c H Ha Hm) as [Hs _]. apply Hs.
  - intros r count i array [|f'] Hle Hne; [lia|]. assert (Hf : (f <= f')%nat) by lia.
    cbn [decodeArray_] in *.
    destruct (i <? count); [|reflexivity].
    destruct (Buffered r =? 0); [reflexivity|].
    destruct (Decode_ f r) as [v e r1| |] eqn:E; [| |congruence].
    + rewrite (IHd r f' Hf), E by (rewrite E; discriminate).
      destruct (isEOF e); [reflexivity|]. destruct e; [reflexivity|].
      now apply IHa.
    + rewrite (IHd r f' Hf), E by (rewrite E; discriminate). reflexivity.
  - intros r size i tempMap s k [|f'] Hle Hne; [lia|].
    assert (Hf : (f <= f')%nat) by lia.
    cbn [decodeMap_] in *.
    destruct (i <? size); [|reflexivity].
    destruct (Buffered r =? 0); [reflexivity|].
    destruct (Decode_ f r) as [key e r1| |] eqn:E; [| |congruence];
      rewrite (IHd r f' Hf), E by (rewrite E; discriminate); [|reflexivity].
    destruct (isEOF e); [reflexivity|]. destruct e; [reflexivity|].
    destruct (Decode_ f r1) as [value e r2| |] eqn:E1; [| |congruence];
      rewrite (IHd r1 f' Hf), E1 by (rewrite E1; discriminate); [|reflexivity].
    destruct (isEOF e); [reflexivity|]. destruct e; [reflexivity|].
    destruct key; try (now apply IHm);
      try (destruct (negb (hashable _)); [reflexivity | now apply IHm]).
    all: destruct k0; try (destruct (negb (hashable _))); try reflexivity; now apply IHm.
Qed.

(** Twice the pending bytes, and one more, is fuel enough. *)
Lemma fuel_enough (f : nat) :
  (forall r, (2 * pending r + 1 <= f)%nat -> Decode_ f r <> OutOfFuel)
  /\ (forall r count i array, (2 * pending r + 2 <= f)%nat ->
         decodeArray_ f r count i array <> OutOfFuel)
  /\ (forall r size i tempMap s k, (2 * pending r + 2 <= f)%nat ->
         decodeMap_ f r size i tempMap s k <> MapLeft OutOfFuel).
Proof.
  induction f as [|f (IHd & IHa & IHm)]; [repeat split; intros; lia|].
  destruct (fuel_consumes f) as (Cd & Ca & Cm).
  split; [|split].
  - intros r Hf. destruct (ReadByte r) as [[c [e|]] r1] eqn:H.
    + rewrite (Decode__read_error _ _ _ _ _ H). discriminate.
    + pose proof (ReadByte_cases _ _ _ _ H) as [Hx Hp].
      destruct (Ascii.eqb_spec c "*") as [->|Ha];
        [|destruct (Ascii.eqb_spec c "%") as [->|Hm]].
      * rewrite (Decode__array _ _ _ H).
        repeat reader_step; try discriminate. apply IHa. lia.
      * rewrite (Decode__map _ _ _ H).
        destruct (readLineCRLF r1) as [[line e] r2] eqn:E.
        apply readLineCRLF_cases in E. destruct E as (_ & Hx2 & _ & Hp2).
        destruct (Strconv.Atoi line) as [size e'].
        pose proof (IHm r2 size 0 [] true true ltac:(lia)) as Hk.
        destruct (decodeMap_ f r2 size 0 [] true true) as [tm s k r3|o];
          [|congruence].
        destruct s; [destruct (toStringMap tm [])|
                     destruct k; [destruct (toInt64Map tm [])|]]; discriminate.
      * destruct (Decode__scalar f r r1 c H Ha Hm) as [_ Hs].
        destruct (Decode_ (S f) r); [discriminate|discriminate|contradiction].
  - intros r count i array Hf. cbn [decodeArray_].
    destruct (i <? count); [|discriminate].
    destruct (Buffered r =? 0); [discriminate|].
    pose proof (IHd r ltac:(lia)) as Hd. pose proof (Cd r) as Hc.
    destruct (Decode_ f r) as [v e r1| |]; [|discriminate|congruence].
    cbn in Hc. destruct Hc as (Hp & Hlt & Hx).
    destruct e as [e|]; [destruct e; discriminate|]. cbn [isEOF].
    specialize (Hlt eq_refl). apply IHa. lia.
  - intros r size i tempMap s k Hf. cbn [decodeMap_].
    destruct (i <? size); [|discriminate].
    destruct (Buffered r =? 0); [discriminate|].
    pose proof (IHd r ltac:(lia)) as Hd. pose proof (Cd r) as Hc.
    destruct (Decode_ f r) as [key e r1| |]; [|discriminate|congruence].
    cbn in Hc. destruct Hc as (Hp & Hlt & Hx).
    destruct e as [e|]; [destruct e; discriminate|]. cbn [isEOF].
    specialize (Hlt eq_refl).
    pose proof (IHd r1 ltac:(lia)) as Hd1. pose proof (Cd r1) as Hc1.
    destruct (Decode_ f r1) as [value e r2| |]; [|discriminate|congruence].
    cbn in Hc1. destruct Hc1 as (Hp1 & Hlt1 & Hx1).
    destruct e as [e|]; [destruct e; discriminate|]. cbn [isEOF].
    assert (Hrec : forall i' tm s' k',
               decodeMap_ f r2 size i' tm s' k' <> MapLeft OutOfFuel)
      by (intros; apply IHm; lia).
    destruct key; try apply Hrec;
      try (destruct (negb (hashable _)); [discriminate | apply Hrec]).
    all: destruct k0; try (destruct (negb (hashable _))); try discriminate; apply Hrec.
Qed.

End Fuel.

(** [Decode] never runs out of fuel: it returns or panics. *)
Theorem Decode_total (reader : Reader) : Decode reader <> OutOfFuel.
Proof. apply fuel_enough. lia. Qed.

(** The result of [Decode] is the result of [Decode_] with any fuel that
    suffices. *)
Lemma Decode_fuel (fuel : nat) (reader : Reader) (o : outcome) :
  Decode_ fuel reader = o -> o <> OutOfFuel -> Decode reader = o.
Proof.
  intros H Hne. unfold Decode.
  destruct (Nat.le_ge_cases fuel (2 * pending reader + 2)) as [Hle|Hge].
  - rewrite <- H. apply fuel_mono; [exact Hle | congruence].
  - rewrite <- H. symmetry. apply fuel_mono; [exact Hge | apply Decode_total].
Qed.

(** ** The encoder on arrays and structs *)

Section EncodeComposite.

Lemma Encode_string (s : string) : Encode (VString s) = (stringWire s, None).
Proof.
  cbn [Encode]. unfold encodeString, stringWire.
  change (2 ^ 4) with 16. now destruct (len s <=? 16).
Qed.

Lemma encodeIfaceElems_cons (enc : value -> result) (elem : value)
  (rest : list value) (resp : string) :
  encodeIfaceElems enc (elem :: rest) resp =
  match match elem with
        | VString str => if len str <=? 12 then Some str else None
        | _ => None
        end with
  | Some str => encodeIfaceElems enc rest (resp ++ "+" ++ str ++ CRLF)
  | None =>
      match enc elem with
      | (_, Some err) => (EmptyString, Some err)
      | (encodedElem, None) => encodeIfaceElems enc rest (resp ++ encodedElem)
      end
  end.
Proof. reflexivity. Qed.

(** The array loop appends, for each element, what Encode gives for the
    element standing alone: the 12-byte test selects nothing else. *)
Lemma encodeIfaceElems_spec (v : list value) :
  forall resp : string,
    (forall e, In e v -> snd (Encode e) = None) ->
    encodeIfaceElems Encode v resp = (resp ++ joinAll (map elementWire v), None).
Proof.
  induction v as [|elem rest IH]; intros resp Hok.
  - cbn. now rewrite app_empty_r.
  - rewrite encodeIfaceElems_cons.
    assert (Hrest : forall e, In e rest -> snd (Encode e) = None)
      by (intros e He; apply Hok; now right).
    assert (Helem : Encode elem = (elementWire elem, None)).
    { destruct elem; try apply Encode_string;
        specialize (Hok _ (or_introl eq_refl));
        unfold elementWire;
        match goal with |- ?x = _ => destruct x as [w e] end;
        cbn in *; now subst. }
    cbn [map joinAll].
    destruct elem; try (rewrite Helem, IH, app_assoc by exact Hrest; reflexivity).
    destruct (Z.leb_spec (len s) 12) as [Hshort|Hlong].
    + rewrite IH by exact Hrest. cbn [elementWire]. unfold stringWire.
      destruct (Z.leb_spec (len s) 16); [|lia].
      now rewrite !app_assoc.
    + rewrite Helem, IH, app_assoc by exact Hrest. reflexivity.
Qed.

Lemma encodeFields_cons (enc : value -> result) (field : StructField)
  (fieldValue : value) (rest : list (StructField * value)) (resp : string) :
  encodeFields enc ((field, fieldValue) :: rest) resp =
  if negb (IsExported field) then encodeFields enc rest resp
  else
    match enc fieldValue with
    | (_, Some err) => (EmptyString, Some err)
    | (encodedValue, None) =>
        encodeFields enc rest ((resp ++ "+" ++ Name field ++ CRLF) ++ encodedValue)
    end.
Proof. reflexivity. Qed.

Lemma encodeFields_spec (fields : list (StructField * value)) :
  forall resp : string,
    (forall p, In p (exportedFields fields) -> snd (Encode (snd p)) = None) ->
    encodeFields Encode fields resp
    = (resp ++ joinAll (map fieldWire (exportedFields fields)), None).
Proof.
  induction fields as [|[field fieldValue] rest IH]; intros resp Hok.
  - cbn. now rewrite app_empty_r.
  - rewrite encodeFields_cons. unfold exportedFields in *. cbn [filter fst] in *.
    destruct (IsExported field); cbn [negb].
    + assert (Hv : snd (Encode fieldValue) = None)
        by (apply (Hok (field, fieldValue)); now left).
      destruct (Encode fieldValue) as [w e] eqn:E. cbn in Hv. subst e.
      rewrite IH by (intros p Hp; apply Hok; now right).
      cbn [map joinAll]. unfold fieldWire at 2. cbn [fst snd]. rewrite E.
      cbn [fst]. now rewrite !app_assoc.
    + apply IH. exact Hok.
Qed.

(** [encodeStruct]: the header declares twice the number of all fields; the
    pairs are the exported fields in declaration order. *)
Lemma encodeStruct_spec (fields : list (StructField * value)) :
  (forall p, In p (exportedFields fields) -> snd (Encode (snd p)) = None) ->
  Encode (VStruct fields) = encodeStruct fields
  /\ encodeStruct fields
     = ("%" ++ Strconv.Itoa (Z.of_nat (List.length fields) * 2) ++ CRLF
          ++ joinAll (map fieldWire (exportedFields fields)), None).
Proof.
  intros Hok. split; [reflexivity|].
  unfold encodeStruct. rewrite encodeFields_spec by exact Hok.
  now rewrite !app_assoc.
Qed.

(** With every field exported, the header declares twice the number of pairs
    emitted. *)
Lemma exportedFields_all (fields : list (StructField * value)) :
  forallb (fun p => IsExported (fst p)) fields = true ->
  exportedFields fields = fields.
Proof.
  unfold exportedFields. induction fields as [|p rest IH]; cbn; [reflexivity|].
  intros H. apply andb_true_iff in H. destruct H as [Hp Hr].
  now rewrite Hp, IH.
Qed.

(** C6, amended: inside a []interface{} array every element is emitted as
    Encode emits it standing alone.  A string element therefore follows the
    general 16-byte rule: a Simple String when it has at most 16 bytes (in
    particular 13 to 16 bytes), a Bulk String when it has 17 bytes or more;
    the 12-byte test of the array case selects the same Simple String form
    and changes nothing. *)
Theorem C6_array_strings_follow_general_rule :
  forall v : list value,
    (forall e, In e v -> snd (Encode e) = None) ->
    Encode (VArray v)
    = ("*" ++ Strconv.Itoa (Z.of_nat (List.length v)) ++ CRLF
         ++ joinAll (map elementWire v), None)
    /\ forall s, In (VString s) v ->
         elementWire (VString s) = fst (Encode (VString s))
         /\ (len s <= 16 -> elementWire (VString s) = "+" ++ s ++ CRLF)
         /\ (16 < len s ->
             elementWire (VString s)
             = "$" ++ Strconv.Itoa (len s) ++ CRLF ++ s ++ CRLF).
Proof.
  intros v Hok. split.
  - cbn [Encode]. rewrite encodeIfaceElems_spec by exact Hok.
    now rewrite !app_assoc.
  - intros s _. rewrite Encode_string. cbn [elementWire fst]. unfold stringWire.
    split; [reflexivity|].
    destruct (Z.leb_spec (len s) 16); split; intros; (reflexivity || lia).
Qed.

End EncodeComposite.

Lemma C6_array_strings_follow_general_rule_witness :
  let v := [VString "thirteenbytes"; VString "seventeen bytes!!"; VInt Int 7] in
  (forall e, In e v -> snd (Encode e) = None)
  /\ Encode (VArray v)
     = ("*3" ++ CRLF ++ "+thirteenbytes" ++ CRLF
          ++ "$17" ++ CRLF ++ "seventeen bytes!!" ++ CRLF ++ ":7" ++ CRLF, None).
Proof.
  cbv zeta.
  assert (H : forall e,
             In e [VString "thirteenbytes"; VString "seventeen bytes!!"; VInt Int 7] ->
             snd (Encode e) = None)
    by (intros e [<-|[<-|[<-|[]]]]; reflexivity).
  split; [exact H|].
  rewrite (proj1 (C6_array_strings_follow_general_rule _ H)).
  vm_compute. reflexivity.
Defined.

(** ** The map record *)

Section MapLoop.

#[local] Arguments Buffered : simpl never.
#[local] Arguments wrap : simpl never.

Lemma surviving_cons_null (v : value) (pairs : list (value * value)) :
  surviving ((VNil, v) :: pairs) = surviving pairs.
Proof. reflexivity. Qed.

Lemma surviving_cons (key v : value) (pairs : list (value * value)) :
  isNull key = false ->
  surviving ((key, v) :: pairs) = (key, v) :: surviving pairs.
Proof. intros H. unfold surviving. cbn. now rewrite H. Qed.

(** The loop decodes the pairs in turn, assigns the surviving ones to the
    temporary map and clears each flag at the first key that violates it. *)
Lemma decodeMap__spec (f : nat) :
  forall r size i tempMap s k,
    mapLoopSpec r tempMap s k (decodeMap_ f r size i tempMap s k).
Proof.
  induction f as [|f IH]; intros r size i tempMap s k; [exact I|].
  cbn [decodeMap_].
  destruct (i <? size).
  2:{ exists []. cbn. rewrite !andb_true_r. repeat split. constructor. }
  destruct (Buffered r =? 0); [cbn; discriminate|].
  destruct (Decode_ f r) as [key e r1| |] eqn:E1; [|exact I|exact I].
  destruct e as [e|]; [destruct e; cbn; discriminate|]. cbn [isEOF].
  destruct (Decode_ f r1) as [val e r2| |] eqn:E2; [|exact I|exact I].
  destruct e as [e|]; [destruct e; cbn; discriminate|]. cbn [isEOF].
  apply Decode_fuel in E1; [|discriminate].
  apply Decode_fuel in E2; [|discriminate].
  assert (Hstep : forall s1 k1,
             isNull key = false ->
             s1 = s && isStringKey key -> k1 = k && isInt64Key key ->
             mapLoopSpec r tempMap s k
               (decodeMap_ f r2 size (wrap (i + 2))
                  (mapassign keyEq tempMap key val) s1 k1)).
  { intros s1 k1 Hnn -> ->.
    specialize (IH r2 size (wrap (i + 2)) (mapassign keyEq tempMap key val)
                  (s && isStringKey key) (k && isInt64Key key)).
    destruct (decodeMap_ f r2 size (wrap (i + 2)) _ _ _) as [tm' s' k' r'|o];
      [|exact IH].
    destruct IH as (pairs & Hd & -> & -> & ->).
    exists ((key, val) :: pairs).
    rewrite (surviving_cons _ _ _ Hnn). cbn [map fst forallb fold_left].
    rewrite !andb_assoc. repeat split.
    econstructor; eassumption. }
  destruct key;
    try (destruct (negb (hashable _)); [exact I|];
         apply Hstep; [reflexivity | cbn; now rewrite ?andb_true_r, ?andb_false_r ..]).
  - (* a Null key: the pair is dropped *)
    specialize (IH r2 size (wrap (i + 2)) tempMap s k).
    destruct (decodeMap_ f r2 size (wrap (i + 2)) tempMap s k) as [tm' s' k' r'|o];
      [|exact IH].
    destruct IH as (pairs & Hd & -> & -> & ->).
    exists ((VNil, val) :: pairs). rewrite surviving_cons_null.
    repeat split. econstructor; eassumption.
  - (* an integer key *)
    destruct k0; (destruct (negb (hashable _)); [exact I|]);
      apply Hstep; [reflexivity | cbn; now rewrite ?andb_true_r, ?andb_false_r ..].
Qed.

End MapLoop.

(** *** Assignment to a map *)

Section MapAssign.

Context {K : Type} (eqK : K -> K -> bool).

Lemma In_mapassign (m : list (K * value)) (key : K) (v : value) (p : K * value) :
  In p (mapassign eqK m key v) -> p = (key, v) \/ In p m.
Proof.
  induction m as [|[k x] m IH]; cbn.
  - intros [<-|[]]. now left.
  - destruct (eqK k key); cbn; intros [<-|H]; auto.
    destruct (IH H); auto.
Qed.

(** Every entry of a map built from a list of pairs is one of the pairs. *)
Lemma In_fold_assign (l : list (K * value)) :
  forall (acc : list (K * value)) (p : K * value),
    In p (fold_left (assign eqK) l acc) -> In p l \/ In p acc.
Proof.
  induction l as [|q l IH]; intros acc p; cbn; [auto|].
  intros H. destruct (IH _ _ H) as [Hl|Ha]; [auto|].
  unfold assign in Ha. destruct (In_mapassign _ _ _ _ Ha) as [->|Hacc]; auto.
  left. left. now destruct q.
Qed.

Lemma In_buildMap (l : list (K * value)) (p : K * value) :
  In p (buildMap eqK l) -> In p l.
Proof. intros H. destruct (In_fold_assign _ _ _ H) as [Hl|[]]. exact Hl. Qed.

Hypothesis eqK_eq : forall a b : K, eqK a b = true <-> a = b.

Lemma mapassign_fresh (m : list (K * value)) (key : K) (v : value) :
  ~ In key (map fst m) -> mapassign eqK m key v = (m ++ [(key, v)])%list.
Proof.
  induction m as [|[k x] m IH]; cbn; intros Hn; [reflexivity|].
  destruct (eqK k key) eqn:E.
  - apply eqK_eq in E. tauto.
  - rewrite IH by tauto. reflexivity.
Qed.

Lemma keys_mapassign (m : list (K * value)) (key : K) (v : value) (a : K) :
  In a (map fst (mapassign eqK m key v)) -> a = key \/ In a (map fst m).
Proof.
  intros H. apply in_map_iff in H. destruct H as ([k x] & <- & H).
  destruct (In_mapassign _ _ _ _ H) as [E|Hm].
  - injection E as -> ->. now left.
  - right. apply in_map_iff. now exists (k, x).
Qed.

Lemma NoDup_mapassign (m : list (K * value)) (key : K) (v : value) :
  NoDup (map fst m) -> NoDup (map fst (mapassign eqK m key v)).
Proof.
  induction m as [|[k x] m IH]; cbn; intros Hnd.
  - constructor; [intros [] | constructor].
  - inversion Hnd as [|? ? Hk Hm]; subst.
    destruct (eqK k key) eqn:E; cbn.
    + apply eqK_eq in E. subst. now constructor.
    + constructor; [|now apply IH].
      intros Hin. destruct (keys_mapassign _ _ _ _ Hin) as [->|H']; [|tauto].
      assert (Hrefl : eqK key key = true) by now apply eqK_eq.
      congruence.
Qed.

Lemma NoDup_fold_assign (l : list (K * value)) :
  forall acc, NoDup (map fst acc) -> NoDup (map fst (fold_left (assign eqK) l acc)).
Proof.
  induction l as [|p l IH]; intros acc H; cbn; [exact H|].
  apply IH. now apply NoDup_mapassign.
Qed.

(** Pairs with distinct keys are assigned one after the other, in order. *)
Lemma fold_assign_distinct (l : list (K * value)) :
  forall acc,
    NoDup (map fst (acc ++ l)%list) -> fold_left (assign eqK) l acc = (acc ++ l)%list.
Proof.
  induction l as [|[k x] l IH]; intros acc H; cbn; [now rewrite app_nil_r|].
  unfold assign at 2. cbn [fst snd].
  rewrite mapassign_fresh.
  - rewrite IH; rewrite <- List.app_assoc; [reflexivity | exact H].
  - rewrite map_app in H. cbn in H. apply NoDup_remove_2 in H.
    intros Hin. apply H. apply in_or_app. now left.
Qed.

End MapAssign.

(** *** From the temporary map to the typed maps *)

Section KeyConversion.

Context {K : Type} (eqK : K -> K -> bool) (proj : value -> K) (isK : value -> bool).

Hypothesis keyEq_proj :
  forall a b, isK a = true -> isK b = true -> keyEq a b = eqK (proj a) (proj b).

Let pairK (p : value * value) : K * value := (proj (fst p), snd p).

Lemma mapassign_proj (m : list (value * value)) (key v : value) :
  forallb isK (map fst m) = true -> isK key = true ->
  map pairK (mapassign keyEq m key v) = mapassign eqK (map pairK m) (proj key) v
  /\ forallb isK (map fst (mapassign keyEq m key v)) = true.
Proof.
  intros Hm Hkey. induction m as [|[k x] m IH]; cbn.
  - now rewrite Hkey.
  - cbn in Hm. apply andb_true_iff in Hm. destruct Hm as [Hk Hm].
    rewrite (keyEq_proj _ _ Hk Hkey).
    destruct (eqK (proj k) (proj key)); cbn.
    + now rewrite Hkey, Hm.
    + destruct (IH Hm) as [-> ->]. now rewrite Hk.
Qed.

Lemma fold_assign_proj (l : list (value * value)) :
  forall acc,
    forallb isK (map fst acc) = true -> forallb isK (map fst l) = true ->
    map pairK (fold_left (assign keyEq) l acc)
    = fold_left (assign eqK) (map pairK l) (map pairK acc)
    /\ forallb isK (map fst (fold_left (assign keyEq) l acc)) = true.
Proof.
  induction l as [|[k x] l IH]; intros acc Hacc Hl; [cbn; auto|].
  cbn [map fst forallb] in Hl. apply andb_true_iff in Hl. destruct Hl as [Hk Hl].
  cbn [fold_left map].
  change (assign keyEq acc (k, x)) with (mapassign keyEq acc k x).
  change (assign eqK (map pairK acc) (pairK (k, x)))
    with (mapassign eqK (map pairK acc) (proj k) x).
  destruct (mapassign_proj acc k x Hacc Hk) as [Hmap Hall].
  rewrite <- Hmap. apply IH; assumption.
Qed.

End KeyConversion.

Section TypedMaps.

Lemma toStringMap_fold (tempMap : list (value * value)) :
  forall finalMap,
    forallb isStringKey (map fst tempMap) = true ->
    toStringMap tempMap finalMap
    = Some (fold_left (assign String.eqb) (map stringPair tempMap) finalMap).
Proof.
  induction tempMap as [|[k x] m IH]; intros finalMap H; cbn; [reflexivity|].
  cbn in H. apply andb_true_iff in H. destruct H as [Hk Hm].
  destruct k; try discriminate. now apply IH.
Qed.

Lemma toInt64Map_fold (tempMap : list (value * value)) :
  forall finalMap,
    forallb isInt64Key (map fst tempMap) = true ->
    toInt64Map tempMap finalMap
    = Some (fold_left (assign Z.eqb) (map int64Pair tempMap) finalMap).
Proof.
  induction tempMap as [|[k x] m IH]; intros finalMap H; cbn; [reflexivity|].
  cbn in H. apply andb_true_iff in H. destruct H as [Hk Hm].
  destruct k; try discriminate. destruct k; try discriminate. now apply IH.
Qed.

Lemma keyEq_strings (a b : value) :
  isStringKey a = true -> isStringKey b = true ->
  keyEq a b = String.eqb (stringOf a) (stringOf b).
Proof. destruct a, b; try discriminate. reflexivity. Qed.

Lemma keyEq_int64s (a b : value) :
  isInt64Key a = true -> isInt64Key b = true ->
  keyEq a b = Z.eqb (int64Of a) (int64Of b).
Proof.
  destruct a as [| |ka na| | | | | | | | | | | | | |]; try discriminate.
  destruct b as [| |kb nb| | | | | | | | | | | | | |]; try discriminate.
  destruct ka, kb; try discriminate. reflexivity.
Qed.

(** The conversion loop of an all-string temporary map yields the map that
    the surviving pairs build directly with string keys. *)
Lemma toStringMap_buildMap (kept : list (value * value)) :
  forallb isStringKey (map fst kept) = true ->
  toStringMap (buildMap keyEq kept) []
  = Some (buildMap String.eqb (map stringPair kept)).
Proof.
  intros H. unfold buildMap.
  destruct (fold_assign_proj String.eqb stringOf isStringKey keyEq_strings
              kept [] eq_refl H) as [Hmap Hall].
  rewrite (toStringMap_fold _ _ Hall). f_equal.
  change (map (fun p => (stringOf (fst p), snd p)) ?l) with (map stringPair l) in Hmap.
  rewrite Hmap. cbn [map].
  apply (fold_assign_distinct String.eqb String.eqb_eq _ []).
  cbn [app]. apply NoDup_fold_assign; [apply String.eqb_eq | constructor].
Qed.

Lemma toInt64Map_buildMap (kept : list (value * value)) :
  forallb isInt64Key (map fst kept) = true ->
  toInt64Map (buildMap keyEq kept) []
  = Some (buildMap Z.eqb (map int64Pair kept)).
Proof.
  intros H. unfold buildMap.
  destruct (fold_assign_proj Z.eqb int64Of isInt64Key keyEq_int64s
              kept [] eq_refl H) as [Hmap Hall].
  rewrite (toInt64Map_fold _ _ Hall). f_equal.
  change (map (fun p => (int64Of (fst p), snd p)) ?l) with (map int64Pair l) in Hmap.
  rewrite Hmap. cbn [map].
  apply (fold_assign_distinct Z.eqb Z.eqb_eq _ []).
  cbn [app]. apply NoDup_fold_assign; [apply Z.eqb_eq | constructor].
Qed.

End TypedMaps.

(** *** The result of a map record *)

Section MapResult.

Lemma surviving_In (pairs : list (value * value)) (p : value * value) :
  In p (surviving pairs) -> In p pairs /\ fst p <> VNil.
Proof.
  unfold surviving. intros H. apply filter_In in H. destruct H as [Hin Hnn].
  split; [exact Hin|]. intros E. rewrite E in Hnn. discriminate.
Qed.

(** Every entry of the result is one of the surviving pairs, key and value. *)
Lemma entries_mapOfPairs (pairs : list (value * value)) (p : value * value) :
  In p (entries (mapOfPairs pairs)) -> In p (surviving pairs).
Proof.
  unfold mapOfPairs. set (kept := surviving pairs).
  destruct (forallb isStringKey (map fst kept)) eqn:Hs;
    [|destruct (forallb isInt64Key (map fst kept)) eqn:Hk]; cbn [entries]; intros H.
  - apply in_map_iff in H. destruct H as (q & <- & Hq).
    apply In_buildMap, in_map_iff in Hq. destruct Hq as (q0 & <- & Hq0).
    rewrite forallb_forall in Hs.
    specialize (Hs (fst q0) (in_map fst _ _ Hq0)).
    destruct q0 as [[] x]; try discriminate. exact Hq0.
  - apply in_map_iff in H. destruct H as (q & <- & Hq).
    apply In_buildMap, in_map_iff in Hq. destruct Hq as (q0 & <- & Hq0).
    rewrite forallb_forall in Hk.
    specialize (Hk (fst q0) (in_map fst _ _ Hq0)).
    destruct q0 as [[| |[] n| | | | | | | | | | | | | |] x]; try discriminate.
    exact Hq0.
  - now apply In_buildMap in H.
Qed.

(** The map case of [Decode_] returns what the specification builds from the
    decoded pairs. *)
Lemma Decode__map_result (f : nat) (reader r1 r2 reader' : Reader)
  (line : string) (e : option error) (v : value) :
  ReadByte reader = ("%"%char, None, r1) ->
  readLineCRLF r1 = (line, e, r2) ->
  Decode_ (S f) reader = Return v None reader' ->
  exists pairs, DecodesPairs r2 pairs reader' /\ v = mapOfPairs pairs.
Proof.
  intros Hbyte Hline H. rewrite (Decode__map _ _ _ Hbyte), Hline in H.
  destruct (Strconv.Atoi line) as [size e'].
  pose proof (decodeMap__spec f r2 size 0 [] true true) as Hspec.
  destruct (decodeMap_ f r2 size 0 [] true true) as [tm s k r3|o].
  - destruct Hspec as (pairs & Hd & -> & -> & ->). cbn [andb] in H.
    exists pairs. unfold mapOfPairs.
    fold (buildMap keyEq (surviving pairs)) in H.
    destruct (forallb isStringKey (map fst (surviving pairs))) eqn:Hs.
    + rewrite (toStringMap_buildMap _ Hs) in H. injection H as <- <-. auto.
    + destruct (forallb isInt64Key (map fst (surviving pairs))) eqn:Hk.
      * rewrite (toInt64Map_buildMap _ Hk) in H. injection H as <- <-. auto.
      * injection H as <- <-. auto.
  - subst o. cbn in Hspec. congruence.
Qed.

End MapResult.

(** ** The same facts for [Decode] *)

Section DecodeFacts.

Lemma Decode_unfold (reader : Reader) :
  Decode reader = Decode_ (S (S (2 * pending reader))) reader.
Proof. unfold Decode. now rewrite Nat.add_comm. Qed.

(** Within the range of [int], a bulk string whose payload and CRLF are not
    all buffered is reported as partial input. *)
Lemma Decode_bulk_partial (reader r1 r2 : Reader) (lengthStr : string) (n : Z) :
  ReadByte reader = ("$"%char, None, r1) ->
  readLineCRLF r1 = (lengthStr, None, r2) ->
  Strconv.Atoi lengthStr = (n, None) ->
  0 <= n <= maxInt - 2 ->
  Buffered r2 < n + 2 ->
  Decode reader = Return VNil (Some ErrUnexpectedEOF) r2.
Proof. rewrite Decode_unfold. apply Decode__bulk_partial. Qed.

(** A line that ends for lack of bytes is partial input, for every tag but
    the map tag. *)
Lemma Decode_line_exhausted (reader r1 r2 : Reader) (tag : ascii)
  (line : string) (err : error) :
  checkedLineTag tag = true ->
  ReadByte reader = (tag, None, r1) ->
  readLineCRLF r1 = (line, Some err, r2) ->
  Decode reader = Return VNil (Some ErrUnexpectedEOF) r2.
Proof.
  intros Htag Hbyte Hline. rewrite Decode_unfold.
  apply (Decode__line_exhausted _ _ _ _ _ _ _ Htag Hbyte Hline).
  destruct (readLineCRLF_cases _ _ _ _ Hline) as ([E|[E|E]] & _);
    [discriminate | now injection E as -> | now injection E as ->].
Qed.

(** A length or count that [Atoi] rejects is a malformed record, for every
    tag with a length or a count but the map tag. *)
Lemma Decode_length_malformed (reader r1 r2 : Reader) (tag : ascii)
  (line : string) (n : Z) (k : Strconv.numerr) :
  checkedLengthTag tag = true ->
  ReadByte reader = (tag, None, r1) ->
  readLineCRLF r1 = (line, None, r2) ->
  Strconv.Atoi line = (n, Some k) ->
  Decode reader = Return VNil (Some (NumError "Atoi" line k)) r2.
Proof. rewrite Decode_unfold. apply Decode__length_malformed. Qed.

(** Every count below -1 makes the array case panic, whatever follows. *)
Lemma Decode_array_negative_count (n : Z) (rest : string) (size : nat) :
  minInt <= n < -1 ->
  Decode (NewReaderSize ("*" ++ Strconv.Itoa n ++ CRLF ++ rest) size)
  = Panic MakesliceLenOutOfRange.
Proof.
  intros Hn. rewrite Decode_unfold.
  destruct (ReadByte_stream (NewReaderSize ("*" ++ Strconv.Itoa n ++ CRLF ++ rest) size)
              "*" (Strconv.Itoa n ++ CRLF ++ rest) eq_refl) as (r1 & H1 & Hs1 & _).
  destruct (readLineCRLF_line r1 (Strconv.Itoa n) rest Hs1 (Itoa_no_LF n))
    as (r2 & H2 & _).
  rewrite (Decode__array _ _ _ H1), H2. cbn [isEOF].
  rewrite Atoi_Itoa
    by (unfold minInt, maxInt, intSize in *;
        change (2 ^ (64 - 1)) with 9223372036854775808 in *; lia).
  cbn [atoiError].
  destruct (Z.eqb_spec n (-1)); [lia|].
  unfold makeslice. destruct (Z.leb_spec 0 n); [lia|]. reflexivity.
Qed.

End DecodeFacts.

(** ** The pairs of a map record *)

Section RecordRuns.

#[local] Arguments Buffered : simpl never.
#[local] Arguments wrap : simpl never.
#[local] Arguments pending : simpl never.

Lemma Decode_success_consumes (r r' : Reader) (v : value) :
  Decode r = Return v None r' -> (pending r' < pending r)%nat.
Proof.
  intros H. pose proof (proj1 (fuel_consumes (2 * pending r + 2)) r) as Hc.
  unfold Decode in H. rewrite H in Hc. cbn in Hc. now apply Hc.
Qed.

Lemma int_small (z : Z) : 0 <= z <= maxInt -> wrap z = z.
Proof.
  intros H. apply wrap_small. unfold minInt, maxInt, intSize in *.
  change (2 ^ (64 - 1)) with 9223372036854775808 in *. lia.
Qed.

Lemma decodeMap__prefix (size : Z) (r : Reader) (pairs : list (value * value))
  (r' : Reader) :
  RecordPairs r pairs r' ->
  forall (f : nat) (i : Z) (tm : list (value * value)) (s k : bool),
    0 <= i ->
    i + 2 * Z.of_nat (List.length pairs) <= maxInt ->
    (pairs <> [] -> i + 2 * Z.of_nat (List.length pairs) - 2 < size) ->
    (2 * pending r + 2 <= f)%nat ->
    exists f',
      (2 * pending r' + 2 <= f')%nat
      /\ decodeMap_ f r size i tm s k
         = decodeMap_ f' r' size (i + 2 * Z.of_nat (List.length pairs))
             (fold_left (assign keyEq) (surviving pairs) tm)
             (s && forallb isStringKey (map fst (surviving pairs)))
             (k && forallb isInt64Key (map fst (surviving pairs))).
Proof.
  induction 1 as [r|r r1 r2 r' key val rest Hb Hk Hv Hh Hrest IH];
    intros f i tm s k Hi Hmax Hlt Hf.
  - exists f. cbn [List.length surviving filter fold_left map forallb].
    rewrite Z.add_0_r, !andb_true_r. auto.
  - destruct f as [|f]; [lia|].
    pose proof (Decode_success_consumes _ _ _ Hk) as Hc1.
    pose proof (Decode_success_consumes _ _ _ Hv) as Hc2.
    cbn [List.length] in Hmax, Hlt. specialize (Hlt ltac:(discriminate)).
    cbn [decodeMap_].
    destruct (Z.ltb_spec i size); [|lia].
    destruct (Z.eqb_spec (Buffered r) 0); [contradiction|].
    assert (E1 : Decode_ f r = Return key None r1).
    { rewrite <- Hk. symmetry. apply (Decode_fuel f r); [reflexivity|].
      apply (proj1 (fuel_enough f)). lia. }
    assert (E2 : Decode_ f r1 = Return val None r2).
    { rewrite <- Hv. symmetry. apply (Decode_fuel f r1); [reflexivity|].
      apply (proj1 (fuel_enough f)). lia. }
    rewrite E1. cbn [isEOF]. rewrite E2. cbn [isEOF].
    rewrite (int_small (i + 2)) by lia.
    assert (Hstep : forall s1 k1,
               isNull key = false ->
               s1 = s && isStringKey key -> k1 = k && isInt64Key key ->
               exists f',
                 (2 * pending r' + 2 <= f')%nat
                 /\ decodeMap_ f r2 size (i + 2) (mapassign keyEq tm key val) s1 k1
                    = decodeMap_ f' r' size
                        (i + 2 * Z.of_nat (S (List.length rest)))
                        (fold_left (assign keyEq) (surviving ((key, val) :: rest)) tm)
                        (s && forallb isStringKey (map fst (surviving ((key, val) :: rest))))
                        (k && forallb isInt64Key (map fst (surviving ((key, val) :: rest))))).
    { intros s1 k1 Hnn -> ->.
      destruct (IH f (i + 2) (mapassign keyEq tm key val)
                  (s && isStringKey key) (k && isInt64Key key))
        as (f' & Hf' & E); try lia.
      exists f'. split; [exact Hf'|]. rewrite E.
      rewrite (surviving_cons _ _ _ Hnn). cbn [map fst forallb fold_left].
      rewrite !andb_assoc.
      replace (i + 2 + 2 * Z.of_nat (List.length rest))
        with (i + 2 * Z.of_nat (S (List.length rest))) by lia.
      reflexivity. }
    destruct key; try discriminate Hh;
      try (cbn [hashable negb]; apply Hstep;
           [reflexivity | cbn; now rewrite ?andb_true_r, ?andb_false_r ..]).
    + (* a Null key: the pair is dropped *)
      destruct (IH f (i + 2) tm s k) as (f' & Hf' & E); try lia.
      exists f'. split; [exact Hf'|]. rewrite E, surviving_cons_null.
      replace (i + 2 + 2 * Z.of_nat (List.length rest))
        with (i + 2 * Z.of_nat (S (List.length rest))) by lia.
      reflexivity.
    + (* an integer key *)
      destruct k0; cbn [hashable negb]; apply Hstep;
        [reflexivity | cbn; now rewrite ?andb_true_r, ?andb_false_r ..].
Qed.

Lemma decodeMap__record (f : nat) :
  forall (r : Reader) (size i : Z) (tm : list (value * value)) (s k : bool)
         (tm' : list (value * value)) (s' k' : bool) (r' : Reader),
    size < maxInt -> 0 <= i ->
    decodeMap_ f r size i tm s k = MapDone tm' s' k' r' ->
    exists pairs,
      RecordPairs r pairs r'
      /\ tm' = fold_left (assign keyEq) (surviving pairs) tm
      /\ s' = s && forallb isStringKey (map fst (surviving pairs))
      /\ k' = k && forallb isInt64Key (map fst (surviving pairs))
      /\ size <= i + 2 * Z.of_nat (List.length pairs)
      /\ (pairs <> [] -> i + 2 * Z.of_nat (List.length pairs) - 2 < size).
Proof.
  induction f as [|f IH]; intros r size i tm s k tm' s' k' r' Hsize Hi H;
    [discriminate|].
  cbn [decodeMap_] in H.
  destruct (Z.ltb_spec i size) as [Hlt|Hge].
  2:{ injection H as <- <- <- <-. exists []. cbn. rewrite !andb_true_r.
      repeat split; try lia; [constructor | congruence]. }
  destruct (Z.eqb_spec (Buffered r) 0) as [|Hb]; [discriminate|].
  destruct (Decode_ f r) as [key e r1| |] eqn:E1; try discriminate.
  destruct e as [e|]; [destruct e; discriminate|]. cbn [isEOF] in H.
  destruct (Decode_ f r1) as [val e r2| |] eqn:E2; try discriminate.
  destruct e as [e|]; [destruct e; discriminate|]. cbn [isEOF] in H.
  apply Decode_fuel in E1; [|discriminate].
  apply Decode_fuel in E2; [|discriminate].
  rewrite (int_small (i + 2)) in H by lia.
  assert (Hstep : forall s1 k1,
             isNull key = false -> hashable key = true ->
             s1 = s && isStringKey key -> k1 = k && isInt64Key key ->
             decodeMap_ f r2 size (i + 2) (mapassign keyEq tm key val) s1 k1
             = MapDone tm' s' k' r' ->
             exists pairs,
               RecordPairs r pairs r'
               /\ tm' = fold_left (assign keyEq) (surviving pairs) tm
               /\ s' = s && forallb isStringKey (map fst (surviving pairs))
               /\ k' = k && forallb isInt64Key (map fst (surviving pairs))
               /\ size <= i + 2 * Z.of_nat (List.length pairs)
               /\ (pairs <> [] -> i + 2 * Z.of_nat (List.length pairs) - 2 < size)).
  { intros s1 k1 Hnn Hh -> -> H'.
    apply IH in H'; [|exact Hsize|lia].
    destruct H' as (pairs & Hd & -> & -> & -> & Hle & Hlast).
    exists ((key, val) :: pairs).
    rewrite (surviving_cons _ _ _ Hnn). cbn [map fst forallb fold_left List.length].
    rewrite !andb_assoc. repeat split; try lia.
    - econstructor; eassumption.
    - intros _. destruct pairs as [|p pairs]; [cbn; lia|].
      specialize (Hlast ltac:(discriminate)). cbn [List.length] in *. lia. }
  destruct key;
    try (destruct (negb (hashable _)) eqn:Hh; [discriminate|];
         apply negb_false_iff in Hh;
         apply (Hstep _ _ eq_refl Hh) in H;
         [exact H | cbn; now rewrite ?andb_true_r, ?andb_false_r ..]).
  - (* a Null key *)
    apply IH in H; [|exact Hsize|lia].
    destruct H as (pairs & Hd & -> & -> & -> & Hle & Hlast).
    exists ((VNil, val) :: pairs). rewrite surviving_cons_null.
    cbn [List.length]. repeat split; try lia.
    + econstructor; try eassumption. reflexivity.
    + intros _. destruct pairs as [|p pairs]; [cbn; lia|].
      specialize (Hlast ltac:(discriminate)). cbn [List.length] in *. lia.
  - (* an integer key *)
    destruct k0;
      (destruct (negb (hashable _)) eqn:Hh; [discriminate|];
       apply negb_false_iff in Hh;
       apply (Hstep _ _ eq_refl Hh) in H;
       [exact H | cbn; now rewrite ?andb_true_r, ?andb_false_r ..]).
Qed.

Lemma wrap_next_even (i : Z) :
  minInt <= i <= maxInt -> Z.Even i ->
  minInt <= wrap (i + 2) <= maxInt /\ Z.Even (wrap (i + 2)).
Proof.
  intros Hr [m ->].
  assert (Hmin : minInt = -9223372036854775808) by reflexivity.
  assert (Hmax : maxInt = 9223372036854775807) by reflexivity.
  destruct (Z.le_gt_cases (2 * m + 2) maxInt) as [Hle|Hgt].
  - rewrite wrap_small by lia. split; [lia|]. exists (m + 1). lia.
  - assert (E : 2 * m + 2 = 9223372036854775808) by lia. rewrite E.
    change (wrap 9223372036854775808) with (-9223372036854775808).
    split; [lia|]. exists (-4611686018427387904). reflexivity.
Qed.

(** With a declared size of the largest [int] or more the index never
    reaches the size: the loop does not end by its condition. *)
Lemma decodeMap__no_end (f : nat) :
  forall (r : Reader) (size i : Z) (tm : list (value * value)) (s k : bool)
         (tm' : list (value * value)) (s' k' : bool) (r' : Reader),
    maxInt <= size -> minInt <= i <= maxInt -> Z.Even i ->
    decodeMap_ f r size i tm s k <> MapDone tm' s' k' r'.
Proof.
  induction f as [|f IH]; intros r size i tm s k tm' s' k' r' Hsize Hi He;
    [discriminate|].
  cbn [decodeMap_].
  assert (Hmax : maxInt = 9223372036854775807) by reflexivity.
  destruct (Z.ltb_spec i size) as [Hlt|Hge].
  2:{ destruct He as [m ->]. lia. }
  destruct (wrap_next_even i Hi He) as [Hi' He'].
  destruct (Buffered r =? 0); [discriminate|].
  destruct (Decode_ f r) as [key e r1| |]; try discriminate.
  destruct e as [e|]; [destruct e; discriminate|]. cbn [isEOF].
  destruct (Decode_ f r1) as [val e r2| |]; try discriminate.
  destruct e as [e|]; [destruct e; discriminate|]. cbn [isEOF].
  destruct key; try (now apply IH);
    try (destruct (negb (hashable _)); [discriminate | now apply IH]).
  destruct k0; (destruct (negb (hashable _)); [discriminate | now apply IH]).
Qed.

Lemma pairCount_bounds (size : Z) (n : nat) :
  size <= 2 * Z.of_nat n ->
  (n <> 0%nat -> 2 * Z.of_nat n - 2 < size) ->
  n = pairCount size.
Proof.
  intros Hle Hlast. unfold pairCount.
  pose proof (Z.div_mod (size + 1) 2 ltac:(lia)) as Hd.
  pose proof (Z.mod_pos_bound (size + 1) 2 ltac:(lia)) as Hm.
  destruct n as [|n]; [lia|]. specialize (Hlast ltac:(discriminate)). lia.
Qed.

Lemma pairCount_inv (size : Z) (n : nat) :
  n = pairCount size ->
  size <= 2 * Z.of_nat n /\ (n <> 0%nat -> 2 * Z.of_nat n - 2 < size).
Proof.
  unfold pairCount. intros ->.
  pose proof (Z.div_mod (size + 1) 2 ltac:(lia)) as Hd.
  pose proof (Z.mod_pos_bound (size + 1) 2 ltac:(lia)) as Hm.
  split; [lia | intros Hn; lia].
Qed.

(** The end of the map case, after the loop: the typed map the two flags
    select is the map the specification builds from the pairs. *)
Lemma map_case_result (pairs : list (value * value)) (reader' : Reader) :
  (if true && forallb isStringKey (map fst (surviving pairs))
   then match toStringMap (fold_left (assign keyEq) (surviving pairs) []) [] with
        | Some finalMap => Return (VMapString finalMap) None reader'
        | None => Panic TypeAssertion
        end
   else if true && forallb isInt64Key (map fst (surviving pairs))
   then match toInt64Map (fold_left (assign keyEq) (surviving pairs) []) [] with
        | Some finalMap => Return (VMapInt64 finalMap) None reader'
        | None => Panic TypeAssertion
        end
   else Return (VMapIface (fold_left (assign keyEq) (surviving pairs) [])) None reader')
  = Return (mapOfPairs pairs) None reader'.
Proof.
  cbn [andb]. unfold mapOfPairs. fold (buildMap keyEq (surviving pairs)).
  destruct (forallb isStringKey (map fst (surviving pairs))) eqn:Hs.
  - now rewrite (toStringMap_buildMap _ Hs).
  - destruct (forallb isInt64Key (map fst (surviving pairs))) eqn:Hk.
    + now rewrite (toInt64Map_buildMap _ Hk).
    + reflexivity.
Qed.

(** C5: a map record is decoded successfully exactly through the pairs its
    header announces.  When Decode returns a map without an error, the pairs
    it decoded in turn are as many as the declared size asks for (half of
    it, rounded up), and the result is chosen from all of them: with the
    pairs under a Null key dropped, a string-keyed map if every key left is
    a string, else an int64-keyed map if every key left is an int64, else a
    generic map; every entry of the result is one of the pairs with a key
    that is not Null; with no pair left the result is the empty
    string-keyed map.  Conversely, for a declared size below the largest
    [int], whenever that many pairs are decoded in turn, Decode returns the
    map so chosen, without an error. *)
Theorem C5_map_classified_after_decoding :
  forall (reader r1 r2 : Reader) (line : string) (e : option error)
         (size : Z) (e' : option Strconv.numerr),
    ReadByte reader = ("%"%char, None, r1) ->
    readLineCRLF r1 = (line, e, r2) ->
    Strconv.Atoi line = (size, e') ->
    (forall (v : value) (reader' : Reader),
        Decode reader = Return v None reader' ->
        exists pairs : list (value * value),
          RecordPairs r2 pairs reader'
          /\ List.length pairs = pairCount size
          /\ v = mapOfPairs pairs
          /\ (forallb isStringKey (map fst (surviving pairs)) = true ->
              exists m, v = VMapString m)
          /\ (forallb isStringKey (map fst (surviving pairs)) = false ->
              forallb isInt64Key (map fst (surviving pairs)) = true ->
              exists m, v = VMapInt64 m)
          /\ (forallb isStringKey (map fst (surviving pairs)) = false ->
              forallb isInt64Key (map fst (surviving pairs)) = false ->
              exists m, v = VMapIface m)
          /\ (forall p, In p (entries v) -> In p pairs /\ fst p <> VNil)
          /\ (surviving pairs = [] -> v = VMapString []))
    /\ (forall (pairs : list (value * value)) (reader' : Reader),
          size < maxInt ->
          RecordPairs r2 pairs reader' ->
          List.length pairs = pairCount size ->
          Decode reader = Return (mapOfPairs pairs) None reader').
Proof.
  intros reader r1 r2 line e size e' Hbyte Hline Hsize.
  assert (Hunfold : Decode reader
                    = match decodeMap_ (S (2 * pending reader)) r2 size 0 [] true true with
                      | MapLeft o => o
                      | MapDone tempMap isAllStringKeys isAllInt64Keys reader0 =>
                          if isAllStringKeys then
                            match toStringMap tempMap [] with
                            | Some finalMap => Return (VMapString finalMap) None reader0
                            | None => Panic TypeAssertion
                            end
                          else if isAllInt64Keys then
                            match toInt64Map tempMap [] with
                            | Some finalMap => Return (VMapInt64 finalMap) None reader0
                            | None => Panic TypeAssertion
                            end
                          else Return (VMapIface tempMap) None reader0
                      end).
  { rewrite Decode_unfold, (Decode__map _ _ _ Hbyte), Hline, Hsize. reflexivity. }
  split.
  - intros v reader' H. rewrite Hunfold in H. clear Hunfold.
    pose proof (decodeMap__spec (S (2 * pending reader)) r2 size 0 [] true true) as Hspec.
    destruct (decodeMap_ (S (2 * pending reader)) r2 size 0 [] true true)
      as [tm s k r3|o] eqn:E.
    2:{ rewrite H in Hspec. cbn in Hspec. congruence. }
    clear Hspec.
    destruct (Z.lt_ge_cases size maxInt) as [Hlt|Hge].
    2:{ exfalso. revert E. apply decodeMap__no_end; [exact Hge | | now exists 0].
        split; [discriminate | discriminate]. }
    destruct (decodeMap__record _ _ _ _ _ _ _ _ _ _ _ Hlt (Z.le_refl 0) E)
      as (pairs & Hd & -> & -> & -> & Hle & Hlast).
    rewrite map_case_result in H. injection H as <- <-.
    exists pairs. split; [exact Hd|]. split.
    { apply pairCount_bounds; [lia|]. intros Hn. apply Hlast.
      intros ->. now apply Hn. }
    split; [reflexivity|].
    split; [|split; [|split; [|split]]].
    + intros Hs. unfold mapOfPairs. rewrite Hs. eauto.
    + intros Hs Hk. unfold mapOfPairs. rewrite Hs, Hk. eauto.
    + intros Hs Hk. unfold mapOfPairs. rewrite Hs, Hk. eauto.
    + intros p Hp. now apply surviving_In, entries_mapOfPairs.
    + intros Hnone. unfold mapOfPairs. rewrite Hnone. reflexivity.
  - intros pairs reader' Hlt Hd Hcount. rewrite Hunfold.
    destruct (pairCount_inv size _ Hcount) as [Hle Hlast].
    destruct (ReadByte_cases _ _ _ _ Hbyte) as [_ Hp1].
    destruct (readLineCRLF_cases _ _ _ _ Hline) as (_ & _ & _ & Hp2).
    destruct (decodeMap__prefix size r2 pairs reader' Hd
                (S (2 * pending reader)) 0 [] true true) as (f' & Hf' & ->).
    + lia.
    + destruct pairs as [|p pairs]; [cbn; discriminate|].
      specialize (Hlast ltac:(discriminate)). lia.
    + intros Hne. apply Hlast. intros E0. apply Hne.
      now apply length_zero_iff_nil.
    + lia.
    + destruct f' as [|f']; [lia|]. cbn [decodeMap_].
      destruct (Z.ltb_spec (0 + 2 * Z.of_nat (List.length pairs)) size); [lia|].
      apply map_case_result.
Qed.

Lemma C5_map_classified_after_decoding_witness :
  let wire := "%6" ++ CRLF ++ "_" ++ CRLF ++ "+dropped" ++ CRLF
                   ++ "+a" ++ CRLF ++ ":1" ++ CRLF ++ "+b" ++ CRLF ++ "#t" ++ CRLF in
  let r1 := mkReader (drop 1 wire) "" 4080 in
  let r2 := mkReader (drop 4 wire) "" 4080 in
  let pairs := [(VNil, VString "dropped"); (VString "a", VInt Int64 1);
                (VString "b", VBool true)] in
  ReadByte (NewReader wire) = ("%"%char, None, r1)
  /\ readLineCRLF r1 = ("6", None, r2)
  /\ Strconv.Atoi "6" = (6, None)
  /\ 6 < maxInt
  /\ RecordPairs r2 pairs (NewReader "")
  /\ List.length pairs = pairCount 6
  /\ Decode (NewReader wire)
     = Return (VMapString [("a", VInt Int64 1); ("b", VBool true)]) None (NewReader "").
Proof.
  cbv zeta.
  assert (H1 : ReadByte (NewReader ("%6" ++ CRLF ++ "_" ++ CRLF ++ "+dropped" ++ CRLF
                   ++ "+a" ++ CRLF ++ ":1" ++ CRLF ++ "+b" ++ CRLF ++ "#t" ++ CRLF))
               = ("%"%char, None,
                  mkReader (drop 1 ("%6" ++ CRLF ++ "_" ++ CRLF ++ "+dropped" ++ CRLF
                   ++ "+a" ++ CRLF ++ ":1" ++ CRLF ++ "+b" ++ CRLF ++ "#t" ++ CRLF))
                    "" 4080))
    by (vm_compute; reflexivity).
  assert (H2 : readLineCRLF
                 (mkReader (drop 1 ("%6" ++ CRLF ++ "_" ++ CRLF ++ "+dropped" ++ CRLF
                   ++ "+a" ++ CRLF ++ ":1" ++ CRLF ++ "+b" ++ CRLF ++ "#t" ++ CRLF))
                    "" 4080)
               = ("6", None,
                  mkReader (drop 4 ("%6" ++ CRLF ++ "_" ++ CRLF ++ "+dropped" ++ CRLF
                   ++ "+a" ++ CRLF ++ ":1" ++ CRLF ++ "+b" ++ CRLF ++ "#t" ++ CRLF))
                    "" 4080))
    by (vm_compute; reflexivity).
  assert (H3 : Strconv.Atoi "6" = (6, None)) by (vm_compute; reflexivity).
  assert (H4 : 6 < maxInt) by (vm_compute; reflexivity).
  assert (H5 : RecordPairs
                 (mkReader (drop 4 ("%6" ++ CRLF ++ "_" ++ CRLF ++ "+dropped" ++ CRLF
                   ++ "+a" ++ CRLF ++ ":1" ++ CRLF ++ "+b" ++ CRLF ++ "#t" ++ CRLF))
                    "" 4080)
                 [(VNil, VString "dropped"); (VString "a", VInt Int64 1);
                  (VString "b", VBool true)]
                 (NewReader "")).
  { apply (record_cons _ (mkReader ("+dropped" ++ CRLF ++ "+a" ++ CRLF ++ ":1" ++ CRLF
                                      ++ "+b" ++ CRLF ++ "#t" ++ CRLF) "" 4080)
             (mkReader ("+a" ++ CRLF ++ ":1" ++ CRLF ++ "+b" ++ CRLF ++ "#t" ++ CRLF)
                "" 4080));
      [vm_compute; discriminate | vm_compute; reflexivity | vm_compute; reflexivity
      | reflexivity |].
    apply (record_cons _ (mkReader (":1" ++ CRLF ++ "+b" ++ CRLF ++ "#t" ++ CRLF) "" 4080)
             (mkReader ("+b" ++ CRLF ++ "#t" ++ CRLF) "" 4080));
      [vm_compute; discriminate | vm_compute; reflexivity | vm_compute; reflexivity
      | reflexivity |].
    apply (record_cons _ (mkReader ("#t" ++ CRLF) "" 4080) (NewReader ""));
      [vm_compute; discriminate | vm_compute; reflexivity | vm_compute; reflexivity
      | reflexivity |].
    apply record_nil. }
  assert (H6 : List.length [(VNil, VString "dropped"); (VString "a", VInt Int64 1);
                            (VString "b", VBool true)] = pairCount 6)
    by (vm_compute; reflexivity).
  split; [exact H1|]. split; [exact H2|]. split; [exact H3|]. split; [exact H4|].
  split; [exact H5|]. split; [exact H6|].
  exact (proj2 (C5_map_classified_after_decoding _ _ _ _ _ _ _ H1 H2 H3) _ _ H4 H5 H6).
Defined.

End RecordRuns.


(** * Further properties of the codec *)

(** ** readLineCRLF *)

Section LineReader.

(** X1: when the bytes to come start with a line that ends in CRLF (and has
    no earlier line feed), readLineCRLF returns the line without its CRLF, no
    error, and leaves exactly the bytes after the CRLF, whatever part of them
    was buffered. *)
Theorem readLineCRLF_returns_line :
  forall (reader : Reader) (line rest : string),
    stream reader = line ++ CRLF ++ rest ->
    IndexByte line LF = None ->
    exists reader',
      readLineCRLF reader = (line, None, reader') /\ stream reader' = rest.
Proof.
  intros reader line rest Hs Hl.
  destruct (readLineCRLF_line reader line rest Hs Hl) as (r' & H & Hs' & _).
  exists r'. auto.
Qed.

Lemma readLineCRLF_returns_line_witness :
  let reader := NewReaderSize ("Hello" ++ CRLF ++ "World!" ++ CRLF) 16 in
  stream reader = "Hello" ++ CRLF ++ "World!" ++ CRLF
  /\ IndexByte "Hello" LF = None
  /\ exists reader',
       readLineCRLF reader = ("Hello", None, reader')
       /\ stream reader' = "World!" ++ CRLF.
Proof.
  cbv zeta. split; [reflexivity|]. split; [reflexivity|].
  apply (readLineCRLF_returns_line
           (NewReaderSize ("Hello" ++ CRLF ++ "World!" ++ CRLF) 16)
           "Hello" ("World!" ++ CRLF)); reflexivity.
Defined.

(** X2: when no line feed is to come, readLineCRLF returns the empty string
    with io.EOF and has consumed every byte, buffered or not. *)
Theorem readLineCRLF_without_LF_is_EOF :
  forall reader : Reader,
    IndexByte (stream reader) LF = None ->
    readLineCRLF reader = ("", Some EOF, mkReader "" "" (extra reader)).
Proof.
  intros reader H. unfold readLineCRLF.
  now rewrite (ReadString_not_found reader LF H).
Qed.

Lemma readLineCRLF_without_LF_is_EOF_witness :
  IndexByte (stream (NewReader ("Hello, World!" ++ String CR ""))) LF = None
  /\ readLineCRLF (NewReader ("Hello, World!" ++ String CR ""))
     = ("", Some EOF, NewReader "").
Proof.
  split; [reflexivity|].
  apply (readLineCRLF_without_LF_is_EOF (NewReader ("Hello, World!" ++ String CR "")));
    reflexivity.
Defined.

Lemma string_last (s : string) :
  s <> "" -> exists p c, s = p ++ String c "".
Proof.
  induction s as [|x s IH]; [congruence|]. intros _.
  destruct s as [|y s].
  - exists "", x. reflexivity.
  - destruct (IH ltac:(discriminate)) as (p & c & E).
    exists (String x p), c. cbn. now rewrite <- E.
Qed.

(** X3: a line that ends in a line feed not preceded by a carriage return is
    reported as io.ErrUnexpectedEOF with an empty string; the line, line feed
    included, has been consumed. *)
Theorem readLineCRLF_bare_LF_is_unexpected_EOF :
  forall (reader : Reader) (pre rest : string),
    stream reader = pre ++ String LF rest ->
    IndexByte pre LF = None ->
    (forall p, pre <> p ++ String CR "") ->
    exists reader',
      readLineCRLF reader = ("", Some ErrUnexpectedEOF, reader')
      /\ stream reader' = rest.
Proof.
  intros reader pre rest Hs Hpre Hcr.
  destruct (ReadString_found reader LF pre rest Hs Hpre) as (r' & H & Hs' & _).
  exists r'. split; [|exact Hs'].
  unfold readLineCRLF. rewrite H. unfold len.
  destruct pre as [|x pre0] eqn:E; [reflexivity|].
  destruct (string_last (String x pre0) ltac:(discriminate)) as (p & c & Ep).
  rewrite Ep, app_assoc. cbn [append].
  assert (Hlen : String.length (p ++ String c (String LF "")) = (String.length p + 2)%nat)
    by (rewrite length_app; cbn; lia).
  rewrite Hlen.
  replace (String.length p + 2 - 2)%nat with (String.length p) by lia.
  rewrite byteAt_app.
  destruct (Ascii.eqb_spec c CR) as [->|Hc].
  - exfalso. apply (Hcr p). exact Ep.
  - cbn [negb]. now rewrite orb_true_r.
Qed.

Lemma readLineCRLF_bare_LF_is_unexpected_EOF_witness :
  let reader := NewReader ("Hello, World!" ++ String LF "next") in
  stream reader = "Hello, World!" ++ String LF "next"
  /\ IndexByte "Hello, World!" LF = None
  /\ (forall p, "Hello, World!" <> p ++ String CR "")
  /\ exists reader',
       readLineCRLF reader = ("", Some ErrUnexpectedEOF, reader')
       /\ stream reader' = "next".
Proof.
  cbv zeta.
  assert (H : forall p, "Hello, World!" <> p ++ String CR "").
  { intros p E.
    assert (L : byteAt 12 "Hello, World!" = byteAt 12 (p ++ String CR "")) by now rewrite <- E.
    assert (Hl : String.length "Hello, World!" = String.length (p ++ String CR ""))
      by now rewrite <- E.
    rewrite length_app in Hl. cbn in Hl.
    assert (Hp : String.length p = 12%nat) by lia.
    rewrite <- Hp, byteAt_app in L. rewrite Hp in L. discriminate. }
  split; [reflexivity|]. split; [reflexivity|]. split; [exact H|].
  apply (readLineCRLF_bare_LF_is_unexpected_EOF
           (NewReader ("Hello, World!" ++ String LF "next")) "Hello, World!" "next");
    [reflexivity | reflexivity | exact H].
Defined.

End LineReader.

(** ** What Decode consumes and which errors it returns *)

Section DecodeErrors.

#[local] Arguments Discard : simpl never.
#[local] Arguments readPayload : simpl never.
#[local] Arguments readLineCRLF : simpl never.
#[local] Arguments ReadByte : simpl never.
#[local] Arguments Strconv.Atoi : simpl never.
#[local] Arguments Strconv.ParseFloat : simpl never.
#[local] Arguments wrap : simpl never.
#[local] Arguments makeslice : simpl never.
#[local] Arguments Buffered : simpl never.
#[local] Arguments pending : simpl never.

(** X4: a call of Decode never gives bytes back to the reader, never changes
    the size of its buffer, and a call that returns without an error has
    consumed at least one byte: a loop that calls Decode until it fails
    terminates. *)
Theorem Decode_consumes :
  forall (reader reader' : Reader) (v : value) (err : option error),
    Decode reader = Return v err reader' ->
    (pending reader' <= pending reader)%nat
    /\ (err = None -> (pending reader' < pending reader)%nat)
    /\ bufSize reader' = bufSize reader.
Proof.
  intros reader reader' v err H.
  pose proof (proj1 (fuel_consumes (2 * pending reader + 2)) reader) as Hc.
  unfold Decode in H. rewrite H in Hc. cbn in Hc.
  destruct Hc as (Hp & Hlt & Hx). unfold bufSize. rewrite Hx. auto.
Qed.

Lemma Decode_consumes_witness :
  let reader := NewReader ("+OK" ++ CRLF ++ ":1" ++ CRLF) in
  let reader' := mkReader (":1" ++ CRLF) "" 4080 in
  Decode reader = Return (VString "OK") None reader'
  /\ (pending reader' <= pending reader)%nat
  /\ (@None error = None -> (pending reader' < pending reader)%nat)
  /\ bufSize reader' = bufSize reader.
Proof.
  cbv zeta.
  assert (H : Decode (NewReader ("+OK" ++ CRLF ++ ":1" ++ CRLF))
              = Return (VString "OK") None (mkReader (":1" ++ CRLF) "" 4080))
    by (vm_compute; reflexivity).
  split; [exact H | apply (Decode_consumes _ _ _ _ H)].
Defined.

Ltac reader_step' :=
  match goal with
  | |- context [readLineCRLF ?x] =>
      let E := fresh "E" in
      destruct (readLineCRLF x) as [[? ?] ?] eqn:E;
      apply readLineCRLF_cases in E; destruct E as (_ & ? & _ & ?)
  | |- context [readPayload ?x ?n] =>
      let E := fresh "E" in
      destruct (readPayload x n) as [[? ?] ?] eqn:E;
      apply readPayload_cases in E; destruct E as (? & ?)
  | |- context [Discard ?x ?n] =>
      let E := fresh "E" in
      destruct (Discard x n) as [? ?] eqn:E;
      apply Discard_pending in E; destruct E as (? & ?)
  | |- context [ReadByte ?x] =>
      let E := fresh "E" in
      destruct (ReadByte x) as [[? [?|]] ?] eqn:E;
      apply ReadByte_cases in E; destruct E as (? & ?)
  | |- context [Strconv.Atoi ?x] => destruct (Strconv.Atoi x) as [? [?|]]
  | |- context [Strconv.ParseFloat ?x] => destruct (Strconv.ParseFloat x) as [? [?|]]
  | |- context [match ?x with _ => _ end] => is_var x; destruct x
  | |- context [if ?x then _ else _] => destruct x
  end; cbn [isEOF atoiError parseFloatError].

(** After the availability check of the bulk case, the payload and its CRLF
    are read from the buffer alone: neither [Read] nor [Discard] can fail. *)
Lemma payload_then_CRLF (r : Reader) (n : Z) :
  0 <= n -> n + 2 <= Buffered r ->
  exists value r3 r4,
    readPayload r n = (value, None, r3) /\ Discard r3 2 = (None, r4).
Proof.
  intros Hn Hbuf. unfold Buffered, len in Hbuf.
  unfold readPayload. rewrite Read_buffered by lia.
  set (r3 := withBuf r (drop (Z.to_nat n) (buf r))).
  destruct (Discard_spec r3 2 ltac:(lia)) as (r4 & _ & _ & H4).
  assert (Hlen : (2 <= String.length (stream r3))%nat).
  { unfold r3, stream, withBuf. cbn [buf rd]. rewrite length_app, length_drop. lia. }
  destruct (Nat.leb_spec 2 (String.length (stream r3))); [|lia].
  destruct H4 as [H4 _]. eauto.
Qed.

(** The three length-framed cases never return io.EOF. *)
Lemma Decode__framed_notEOF (f : nat) (r r1 : Reader) (c : ascii) :
  ReadByte r = (c, None, r1) ->
  c = "$"%char \/ c = "="%char \/ c = "!"%char ->
  notEOF (Decode_ (S f) r).
Proof.
  intros H Hc. cbn [Decode_]. rewrite H.
  assert (Hframe : forall r2 n,
             (Buffered r2 <? wrap (n + 2)) = false -> negb (makeslice 1 n) = false ->
             exists value r3 r4,
               readPayload r2 n = (value, None, r3) /\ Discard r3 2 = (None, r4)).
  { intros r2 n Hb Hm. apply negb_false_iff in Hm. unfold makeslice in Hm.
    apply andb_true_iff in Hm. destruct Hm as [H0 Hmax].
    apply Z.leb_le in H0, Hmax. apply Z.ltb_ge in Hb.
    assert (Ha : maxAlloc = 281474976710656) by reflexivity.
    rewrite wrap_small in Hb
      by (unfold minInt, maxInt, intSize;
          change (2 ^ (64 - 1)) with 9223372036854775808; lia).
    apply payload_then_CRLF; lia. }
  destruct Hc as [->|[->| ->]]; cbn match;
    destruct (readLineCRLF r1) as [[line e] r2];
    (destruct e as [[]|]; cbn [isEOF]; try exact I);
    (destruct (Strconv.Atoi line) as [n [k|]]; cbn [atoiError]; try exact I);
    try (destruct (n =? -1); [exact I|]);
    try (destruct (n =? 0); [exact I|]);
    (destruct (Buffered r2 <? wrap (n + 2)) eqn:Hb; [exact I|]);
    (destruct (negb (makeslice 1 n)) eqn:Hm; [exact I|]);
    destruct (Hframe r2 n Hb Hm) as (value & r3 & r4 & -> & H4);
    cbn [isEOF]; rewrite H4; exact I.
Qed.

(** The other scalar cases never return io.EOF either. *)
Lemma Decode__scalar_notEOF (f : nat) (r r1 : Reader) (c : ascii) :
  ReadByte r = (c, None, r1) ->
  c <> "*"%char -> c <> "%"%char ->
  notEOF (Decode_ (S f) r).
Proof.
  intros H Ha Hm.
  destruct (Ascii.eqb_spec c "$") as [->|H1];
    [apply (Decode__framed_notEOF _ _ _ _ H); auto|].
  destruct (Ascii.eqb_spec c "=") as [->|H2];
    [apply (Decode__framed_notEOF _ _ _ _ H); auto|].
  destruct (Ascii.eqb_spec c "!") as [->|H3];
    [apply (Decode__framed_notEOF _ _ _ _ H); auto|].
  cbn [Decode_]. rewrite H.
  destruct c as [[] [] [] [] [] [] [] []]; try congruence; clear;
    repeat reader_step'; exact I.
Qed.

Lemma fuel_notEOF (f : nat) :
  (forall r, pending r <> 0%nat -> notEOF (Decode_ f r))
  /\ (forall r count i array, notEOF (decodeArray_ f r count i array))
  /\ (forall r size i tempMap s k, notEOFMap (decodeMap_ f r size i tempMap s k)).
Proof.
  induction f as [|f (IHd & IHa & IHm)]; [repeat split|].
  split; [|split].
  - intros r Hp. destruct (ReadByte r) as [[c [e|]] r1] eqn:H.
    + apply ReadByte_cases in H. destruct H as (_ & _ & _ & H0). contradiction.
    + destruct (Ascii.eqb_spec c "*") as [->|Ha];
        [|destruct (Ascii.eqb_spec c "%") as [->|Hm]].
      * rewrite (Decode__array _ _ _ H).
        destruct (readLineCRLF r1) as [[line e] r2].
        destruct e as [[]|]; cbn [isEOF]; try exact I.
        destruct (Strconv.Atoi line) as [n [k|]]; cbn [atoiError]; try exact I.
        destruct (n =? -1); [exact I|].
        destruct (negb (makeslice 16 n)); [exact I | apply IHa].
      * rewrite (Decode__map _ _ _ H).
        destruct (readLineCRLF r1) as [[line e] r2].
        destruct (Strconv.Atoi line) as [size e'].
        pose proof (IHm r2 size 0 [] true true) as Hk.
        destruct (decodeMap_ f r2 size 0 [] true true) as [tm s k r3|o];
          [|exact Hk].
        destruct s; [destruct (toStringMap tm [])|
                     destruct k; [destruct (toInt64Map tm [])|]]; exact I.
      * apply (Decode__scalar_notEOF _ _ _ _ H Ha Hm).
  - intros r count i array. cbn [decodeArray_].
    destruct (i <? count); [|exact I].
    destruct (Buffered r =? 0); [exact I|].
    destruct (Decode_ f r) as [v e r1| |]; [|exact I|exact I].
    destruct e as [[]|]; cbn [isEOF]; try exact I. apply IHa.
  - intros r size i tempMap s k. cbn [decodeMap_].
    destruct (i <? size); [|exact I].
    destruct (Buffered r =? 0); [exact I|].
    destruct (Decode_ f r) as [key e r1| |]; [|exact I|exact I].
    destruct e as [[]|]; cbn [isEOF]; try exact I.
    destruct (Decode_ f r1) as [val e r2| |]; [|exact I|exact I].
    destruct e as [[]|]; cbn [isEOF]; try exact I.
    destruct key; try apply IHm;
      try (destruct (negb (hashable _)); [exact I | apply IHm]).
    all: destruct k0; try (destruct (negb (hashable _))); try exact I; apply IHm.
Qed.

(** X5: Decode returns io.EOF only for a reader with no byte left, buffered
    or to be read: every exhaustion after the first byte of a record, at any
    depth of nesting, is reported otherwise.  (With C3: io.EOF exactly when
    nothing is pending.) *)
Theorem Decode_EOF_only_at_end :
  forall (reader reader' : Reader) (v : value),
    Decode reader = Return v (Some EOF) reader' ->
    pending reader = 0%nat.
Proof.
  intros reader reader' v H.
  destruct (Nat.eq_dec (pending reader) 0) as [E|Hne]; [exact E|].
  pose proof (proj1 (fuel_notEOF (2 * pending reader + 2)) reader Hne) as Hn.
  unfold Decode in H. rewrite H in Hn. contradiction.
Qed.

Lemma Decode_EOF_only_at_end_witness :
  Decode (NewReaderSize "" 64) = Return VNil (Some EOF) (NewReaderSize "" 64)
  /\ pending (NewReaderSize "" 64) = 0%nat.
Proof.
  assert (H : Decode (NewReaderSize "" 64) = Return VNil (Some EOF) (NewReaderSize "" 64))
    by reflexivity.
  split; [exact H | apply (Decode_EOF_only_at_end _ _ _ H)].
Defined.

(** X6: a first byte that is none of the eleven tags makes Decode return the
    unsupported-datatype error naming that byte, with a nil value; only that
    byte has been consumed. *)
Theorem Decode_unsupported_tag :
  forall (reader : Reader) (c : ascii) (rest : string),
    stream reader = String c rest ->
    supportedTag c = false ->
    exists reader',
      Decode reader = Return VNil (Some (ErrUnsupportedRespDataType c)) reader'
      /\ stream reader' = rest.
Proof.
  intros reader c rest Hs Hc.
  destruct (ReadByte_stream reader c rest Hs) as (r1 & H1 & Hs1 & _).
  exists r1. split; [|exact Hs1].
  rewrite Decode_unfold. cbn [Decode_]. rewrite H1.
  destruct c as [[] [] [] [] [] [] [] []]; try reflexivity; discriminate.
Qed.

Lemma Decode_unsupported_tag_witness :
  stream (NewReader ("&" ++ CRLF)) = String "&" CRLF
  /\ supportedTag "&" = false
  /\ exists reader',
       Decode (NewReader ("&" ++ CRLF))
       = Return VNil (Some (ErrUnsupportedRespDataType "&")) reader'
       /\ stream reader' = CRLF.
Proof.
  split; [reflexivity|]. split; [reflexivity|].
  apply (Decode_unsupported_tag (NewReader ("&" ++ CRLF)) "&" CRLF); reflexivity.
Defined.

End DecodeErrors.

(** ** Records read line by line, through any buffer *)

Section LineRecords.

#[local] Arguments Discard : simpl never.
#[local] Arguments readPayload : simpl never.
#[local] Arguments readLineCRLF : simpl never.
#[local] Arguments ReadByte : simpl never.
#[local] Arguments Strconv.Atoi : simpl never.
#[local] Arguments wrap : simpl never.
#[local] Arguments makeslice : simpl never.
#[local] Arguments Buffered : simpl never.

(** X7: a Simple String record decodes to its text and a Simple Error record
    to an error with its text, with exactly the record consumed, whatever
    the buffer size: the line may span several fills of the buffer. *)
Theorem Decode_simple_string_and_error :
  forall (reader : Reader) (line rest : string),
    IndexByte line LF = None ->
    (stream reader = "+" ++ line ++ CRLF ++ rest ->
     exists reader',
       Decode reader = Return (VString line) None reader' /\ stream reader' = rest)
    /\ (stream reader = "-" ++ line ++ CRLF ++ rest ->
        exists reader',
          Decode reader = Return (VError line) None reader' /\ stream reader' = rest).
Proof.
  intros reader line rest Hl. split; intros Hs.
  - destruct (ReadByte_stream reader "+" _ Hs) as (r1 & H1 & Hs1 & _).
    destruct (readLineCRLF_line r1 line rest Hs1 Hl) as (r2 & H2 & Hs2 & _).
    exists r2. split; [|exact Hs2].
    rewrite Decode_unfold. apply (Decode__simple_string _ _ _ _ _ H1 H2).
  - destruct (ReadByte_stream reader "-" _ Hs) as (r1 & H1 & Hs1 & _).
    destruct (readLineCRLF_line r1 line rest Hs1 Hl) as (r2 & H2 & Hs2 & _).
    exists r2. split; [|exact Hs2].
    rewrite Decode_unfold. cbn [Decode_]. rewrite H1. cbn match. now rewrite H2.
Qed.

Lemma Decode_simple_string_and_error_witness :
  let reader := NewReaderSize ("-Error message, longer than the buffer" ++ CRLF ++ "+OK") 16 in
  IndexByte "Error message, longer than the buffer" LF = None
  /\ stream reader = "-" ++ "Error message, longer than the buffer" ++ CRLF ++ "+OK"
  /\ exists reader',
       Decode reader = Return (VError "Error message, longer than the buffer") None reader'
       /\ stream reader' = "+OK".
Proof.
  cbv zeta. split; [reflexivity|]. split; [reflexivity|].
  apply (proj2 (Decode_simple_string_and_error
                  (NewReaderSize ("-Error message, longer than the buffer" ++ CRLF ++ "+OK") 16)
                  "Error message, longer than the buffer" "+OK" eq_refl)).
  reflexivity.
Defined.

(** X8: an integer of any Go integer type, and a time.Time, are encoded as
    an Integer record that decodes to the int64 of the same number (for a
    time, its Unix milliseconds), with exactly the record consumed, as long
    as the number is in the int64 range. *)
Theorem Decode_encoded_integer_is_int64 :
  forall (reader : Reader) (k : intKind) (n : Z) (rest : string),
    minInt <= n <= maxInt ->
    (stream reader = fst (Encode (VInt k n)) ++ rest ->
     exists reader',
       Decode reader = Return (VInt Int64 n) None reader' /\ stream reader' = rest)
    /\ (stream reader = fst (Encode (VTime n)) ++ rest ->
        exists reader',
          Decode reader = Return (VInt Int64 n) None reader' /\ stream reader' = rest).
Proof.
  intros reader k n rest Hn.
  assert (H : stream reader = ":" ++ Strconv.Itoa n ++ CRLF ++ rest ->
              exists reader',
                Decode reader = Return (VInt Int64 n) None reader'
                /\ stream reader' = rest).
  { intros Hs.
    destruct (ReadByte_stream reader ":" _ Hs) as (r1 & H1 & Hs1 & _).
    destruct (readLineCRLF_line r1 (Strconv.Itoa n) rest Hs1 (Itoa_no_LF n))
      as (r2 & H2 & Hs2 & _).
    exists r2. split; [|exact Hs2].
    rewrite Decode_unfold.
    apply (Decode__integer _ _ _ _ _ n H1 H2 (Itoa_nonempty n) (Atoi_Itoa n Hn)). }
  split; intros Hs; apply H; rewrite Hs; cbn [Encode encodeInt fst];
    now rewrite !app_assoc.
Qed.

Lemma Decode_encoded_integer_is_int64_witness :
  let reader := NewReader (":-42" ++ CRLF) in
  minInt <= -42 <= maxInt
  /\ stream reader = fst (Encode (VInt Int8 (-42))) ++ ""
  /\ exists reader',
       Decode reader = Return (VInt Int64 (-42)) None reader' /\ stream reader' = "".
Proof.
  cbv zeta.
  assert (Hn : minInt <= -42 <= maxInt) by (vm_compute; split; discriminate).
  split; [exact Hn|]. split; [reflexivity|].
  apply (proj1 (Decode_encoded_integer_is_int64
                  (NewReader (":-42" ++ CRLF)) Int8 (-42) "" Hn)).
  reflexivity.
Defined.

Lemma Atoi_Itoa_above_int64 (n : Z) :
  maxInt < n <= maxUint64 ->
  Strconv.Atoi (Strconv.Itoa n) = (maxInt, Some Strconv.ErrRange).
Proof.
  unfold maxInt, intSize. change (2 ^ (64 - 1)) with 9223372036854775808.
  intros Hn.
  unfold Strconv.Atoi, Strconv.ParseInt, Strconv.Itoa, intSize.
  change (2 ^ (64 - 1)) with 9223372036854775808.
  destruct (Z.ltb_spec n 0); [lia|].
  destruct (formatUint_first_digit n ltac:(lia)) as (c & s & Hs & Hc).
  pose proof (ParseUint_formatUint n ltac:(lia)) as Hp.
  rewrite Hs in *.
  assert (Hplus : Ascii.eqb c "+" = false)
    by (destruct (Ascii.eqb_spec c "+"); [subst c; discriminate | reflexivity]).
  assert (Hminus : Ascii.eqb c "-" = false)
    by (destruct (Ascii.eqb_spec c "-"); [subst c; discriminate | reflexivity]).
  rewrite Hplus, Hminus. cbn [orb]. rewrite Hp. cbn [negb andb].
  destruct (Z.leb_spec 9223372036854775808 n); [reflexivity | lia].
Qed.

(** X9: an unsigned 64-bit integer above the largest int64 is encoded by
    Encode without an error, but Decode rejects the record with the range
    error of Atoi: such a value does not survive the round trip. *)
Theorem Decode_rejects_encoded_uint64_above_int64 :
  forall (reader : Reader) (n : Z) (rest : string),
    maxInt < n <= maxUint64 ->
    stream reader = fst (Encode (VInt Uint64 n)) ++ rest ->
    snd (Encode (VInt Uint64 n)) = None
    /\ exists reader',
         Decode reader
         = Return VNil (Some (NumError "Atoi" (Strconv.Itoa n) Strconv.ErrRange)) reader'
         /\ stream reader' = rest.
Proof.
  intros reader n rest Hn Hs. split; [reflexivity|].
  cbn [Encode encodeInt fst] in Hs. rewrite !app_assoc in Hs.
  destruct (ReadByte_stream reader ":" _ Hs) as (r1 & H1 & Hs1 & _).
  destruct (readLineCRLF_line r1 (Strconv.Itoa n) rest Hs1 (Itoa_no_LF n))
    as (r2 & H2 & Hs2 & _).
  exists r2. split; [|exact Hs2].
  rewrite Decode_unfold. cbn [Decode_]. rewrite H1. cbn match. rewrite H2. cbn [isEOF].
  pose proof (Itoa_nonempty n) as Hne. unfold len.
  destruct (Z.eqb_spec (Z.of_nat (String.length (Strconv.Itoa n))) 0); [lia|].
  now rewrite (Atoi_Itoa_above_int64 n Hn).
Qed.

Lemma Decode_rejects_encoded_uint64_above_int64_witness :
  let reader := NewReader (":18446744073709551615" ++ CRLF) in
  maxInt < 18446744073709551615 <= maxUint64
  /\ stream reader = fst (Encode (VInt Uint64 18446744073709551615)) ++ ""
  /\ exists reader',
       Decode reader
       = Return VNil
           (Some (NumError "Atoi" (Strconv.Itoa 18446744073709551615) Strconv.ErrRange))
           reader'
       /\ stream reader' = "".
Proof.
  cbv zeta.
  assert (Hn : maxInt < 18446744073709551615 <= maxUint64)
    by (vm_compute; split; [reflexivity | discriminate]).
  split; [exact Hn|]. split; [reflexivity|].
  apply (Decode_rejects_encoded_uint64_above_int64
           (NewReader (":18446744073709551615" ++ CRLF)) 18446744073709551615 "" Hn).
  reflexivity.
Defined.

(** X10: in a Boolean record only the byte after the tag counts: 't' is true
    and every other byte is false; the two bytes that follow are discarded
    whatever they are.  A Null record likewise discards the two bytes after
    its tag unchecked. *)
Theorem Decode_boolean_and_null_discard_two_bytes :
  forall (reader : Reader) (c a b : ascii) (rest : string),
    (stream reader = String "#" (String c (String a (String b rest))) ->
     exists reader',
       Decode reader = Return (VBool (Ascii.eqb c "t")) None reader'
       /\ stream reader' = rest)
    /\ (stream reader = String "_" (String a (String b rest)) ->
        exists reader',
          Decode reader = Return VNil None reader' /\ stream reader' = rest).
Proof.
  intros reader c a b rest. split; intros Hs.
  - destruct (ReadByte_stream reader "#" _ Hs) as (r1 & H1 & Hs1 & _).
    destruct (ReadByte_stream r1 c _ Hs1) as (r2 & H2 & Hs2 & _).
    destruct (Discard_spec r2 2 ltac:(lia)) as (r3 & _ & _ & H3).
    rewrite Hs2 in H3. cbn in H3. destruct H3 as [H3 Hs3].
    exists r3. split; [|exact Hs3].
    rewrite Decode_unfold. apply (Decode__boolean _ _ _ _ _ _ _ H1 H2 H3).
  - destruct (ReadByte_stream reader "_" _ Hs) as (r1 & H1 & Hs1 & _).
    destruct (Discard_spec r1 2 ltac:(lia)) as (r2 & _ & _ & H2).
    rewrite Hs1 in H2. cbn in H2. destruct H2 as [H2 Hs2].
    exists r2. split; [|exact Hs2].
    rewrite Decode_unfold. apply (Decode__null _ _ _ _ _ H1 H2).
Qed.

Lemma Decode_boolean_and_null_discard_two_bytes_witness :
  let reader := NewReader "#yqq+OK" in
  stream reader = String "#" (String "y" (String "q" (String "q" "+OK")))
  /\ exists reader',
       Decode reader = Return (VBool false) None reader' /\ stream reader' = "+OK".
Proof.
  cbv zeta. split; [reflexivity|].
  apply (proj1 (Decode_boolean_and_null_discard_two_bytes
                  (NewReader "#yqq+OK") "y" "q" "q" "+OK")).
  reflexivity.
Defined.

(** X11: a Verbatim String record whose length line parses to 0 returns the
    empty string as soon as the length line is read: the CRLF of the empty
    payload is not consumed and is what the next call of Decode reads first
    (a Bulk String of length 0 consumes it, see C7). *)
Theorem Decode_empty_verbatim_leaves_CRLF :
  forall (reader : Reader) (lengthStr rest : string),
    stream reader = "=" ++ lengthStr ++ CRLF ++ rest ->
    IndexByte lengthStr LF = None ->
    Strconv.Atoi lengthStr = (0, None) ->
    exists reader',
      Decode reader = Return (VString "") None reader' /\ stream reader' = rest.
Proof.
  intros reader lengthStr rest Hs Hl Ha.
  destruct (ReadByte_stream reader "=" _ Hs) as (r1 & H1 & Hs1 & _).
  destruct (readLineCRLF_line r1 lengthStr rest Hs1 Hl) as (r2 & H2 & Hs2 & _).
  exists r2. split; [|exact Hs2].
  rewrite Decode_unfold. cbn [Decode_]. rewrite H1. cbn match. rewrite H2. cbn [isEOF].
  rewrite Ha. reflexivity.
Qed.

Lemma Decode_empty_verbatim_leaves_CRLF_witness :
  let reader := NewReader ("=0" ++ CRLF ++ CRLF) in
  stream reader = "=" ++ "0" ++ CRLF ++ CRLF
  /\ IndexByte "0" LF = None
  /\ Strconv.Atoi "0" = (0, None)
  /\ exists reader',
       Decode reader = Return (VString "") None reader' /\ stream reader' = CRLF.
Proof.
  cbv zeta. split; [reflexivity|]. split; [reflexivity|]. split; [reflexivity|].
  apply (Decode_empty_verbatim_leaves_CRLF (NewReader ("=0" ++ CRLF ++ CRLF)) "0" CRLF);
    reflexivity.
Defined.

End LineRecords.

(** ** Records within the bytes available *)

Section Buffered.

#[local] Arguments Discard : simpl never.
#[local] Arguments readPayload : simpl never.
#[local] Arguments readLineCRLF : simpl never.
#[local] Arguments ReadByte : simpl never.
#[local] Arguments Strconv.Atoi : simpl never.
#[local] Arguments wrap : simpl never.
#[local] Arguments makeslice : simpl never.
#[local] Arguments Buffered : simpl never.

Lemma ReadByte_buffered (c : ascii) (t src : string) (x : nat) :
  ReadByte (mkReader (String c t) src x) = (c, None, mkReader t src x).
Proof. reflexivity. Qed.

Lemma readLineCRLF_buffered (line t src : string) (x : nat) :
  IndexByte line LF = None ->
  readLineCRLF (mkReader (line ++ CRLF ++ t) src x) = (line, None, mkReader t src x).
Proof.
  intros Hline. unfold readLineCRLF, ReadString.
  rewrite Nat.add_comm. cbn [Nat.add readStringLoop buf].
  assert (Hi : IndexByte (line ++ CRLF ++ t) LF = Some (S (String.length line))).
  { change (line ++ CRLF ++ t) with (line ++ (String CR "" ++ String LF t)).
    rewrite <- (app_assoc line (String CR "") (String LF t)).
    rewrite IndexByte_first.
    - rewrite length_app. cbn [String.length]. f_equal. lia.
    - apply IndexByte_app_none; [exact Hline | reflexivity]. }
  rewrite Hi. cbn [append].
  assert (Ht : take (S (S (String.length line))) (line ++ CRLF ++ t) = line ++ CRLF).
  { replace (S (S (String.length line))) with (String.length line + 2)%nat by lia.
    rewrite take_app_ge. reflexivity. }
  assert (Hd : drop (S (S (String.length line))) (line ++ CRLF ++ t) = t).
  { replace (S (S (String.length line))) with (String.length line + 2)%nat by lia.
    rewrite drop_app_ge. reflexivity. }
  rewrite Ht, Hd.
  assert (Hlen : String.length (line ++ CRLF) = (String.length line + 2)%nat)
    by (rewrite length_app; reflexivity).
  unfold len. rewrite Hlen.
  replace (String.length line + 2 - 2)%nat with (String.length line) by lia.
  destruct (Z.ltb_spec (Z.of_nat (String.length line + 2)) 2) as [Hlt|_]; [lia|].
  unfold CRLF at 1. rewrite byteAt_app, Ascii.eqb_refl. cbn [orb negb].
  rewrite take_app. reflexivity.
Qed.

Lemma Discard_buffered (a b : ascii) (t src : string) (x : nat) :
  Discard (mkReader (String a (String b t)) src x) 2 = (None, mkReader t src x).
Proof.
  unfold Discard. cbn [Z.ltb Z.eqb Z.compare Z.to_nat Pos.to_nat Pos.iter_op Nat.add].
  cbn [discardLoop buf String.length].
  rewrite Nat.min_r by lia. cbn. reflexivity.
Qed.

Lemma readPayload_buffered (s t src : string) (x : nat) :
  readPayload (mkReader (s ++ t) src x) (len s) = (s, None, mkReader t src x).
Proof.
  unfold readPayload, len. rewrite Nat2Z.id.
  rewrite Read_buffered by (cbn [buf]; rewrite length_app; lia).
  cbn [buf]. rewrite take_app, drop_app, Nat.sub_diag. cbn [zeros].
  now rewrite app_empty_r.
Qed.

Lemma Decode__ReadByte (f : nat) (r r' : Reader) :
  ReadByte r = ReadByte r' -> Decode_ f r = Decode_ f r'.
Proof. intros H. destruct f; [reflexivity|]. cbn [Decode_]. now rewrite H. Qed.

Lemma pending_buffered (r : Reader) : pending (buffered r) = pending r.
Proof.
  unfold pending, buffered. cbn [buf rd].
  rewrite <- length_app, take_drop. unfold stream. now rewrite length_app.
Qed.

Lemma ReadByte_buffered_eq (r : Reader) : ReadByte r = ReadByte (buffered r).
Proof.
  destruct r as [[|c bf] src x]; unfold buffered, available, stream; cbn [buf rd extra].
  - destruct src as [|d src]; [reflexivity|].
    unfold ReadByte, fill. cbn [buf rd extra append].
    rewrite Nat.sub_0_r.
    change (bufSize {| buf := ""; rd := String d src; extra := x |}) with (S (15 + x)).
    cbn [String.length Nat.min take drop]. reflexivity.
  - rewrite take_app, drop_app. reflexivity.
Qed.

Lemma Decode_buffered_eq (r : Reader) : Decode r = Decode (buffered r).
Proof.
  unfold Decode. rewrite pending_buffered. apply Decode__ReadByte, ReadByte_buffered_eq.
Qed.

(** A record that lies within the bytes available: the buffer holds it. *)
Lemma buffered_holds (r : Reader) (wire rest : string) :
  stream r = wire ++ rest ->
  (String.length wire <= available r)%nat ->
  exists tail src,
    buffered r = mkReader (wire ++ tail) src (extra r) /\ tail ++ src = rest.
Proof.
  intros Hs Ha. unfold buffered. rewrite Hs.
  exists (take (available r - String.length wire) rest),
         (drop (available r - String.length wire) rest).
  replace (available r) with (String.length wire + (available r - String.length wire))%nat
    at 1 2 by lia.
  rewrite take_app_ge, drop_app_ge, take_drop. auto.
Qed.

Lemma len_nonneg (s : string) : 0 <= len s.
Proof. unfold len. lia. Qed.

Lemma checks_pass (n tl : Z) :
  0 <= n <= maxAlloc -> 0 <= tl ->
  (n =? -1) = false
  /\ (n + 2 + tl <? wrap (n + 2)) = false
  /\ makeslice 1 n = true.
Proof.
  intros Hn Htl.
  assert (Hmax : maxAlloc = 281474976710656) by reflexivity.
  rewrite wrap_small
    by (unfold minInt, maxInt, intSize;
        change (2 ^ (64 - 1)) with 9223372036854775808; lia).
  unfold makeslice. repeat split.
  - apply Z.eqb_neq. lia.
  - apply Z.ltb_ge. lia.
  - apply andb_true_iff. split; apply Z.leb_le; lia.
Qed.

Lemma Buffered_payload (payload : string) (a b : ascii) (tail src : string) (x : nat) :
  Buffered (mkReader (payload ++ String a (String b tail)) src x)
  = len payload + 2 + len tail.
Proof.
  unfold Buffered, len. cbn [buf]. rewrite length_app. cbn [String.length]. lia.
Qed.

Lemma Atoi_len (s : string) :
  len s <= maxAlloc -> Strconv.Atoi (Strconv.Itoa (len s)) = (len s, None).
Proof.
  intros H. apply Atoi_Itoa.
  assert (Hmax : maxAlloc = 281474976710656) by reflexivity.
  unfold minInt, maxInt, intSize. change (2 ^ (64 - 1)) with 9223372036854775808.
  unfold len in *. lia.
Qed.

Ltac framed_steps payload a b tail Hn :=
  rewrite Decode_unfold; cbn [Decode_ append];
  rewrite ReadByte_buffered; cbn match;
  rewrite (readLineCRLF_buffered _ _ _ _ (Itoa_no_LF _)); cbn [isEOF];
  rewrite (Atoi_len _ Hn); cbn [atoiError];
  rewrite Buffered_payload;
  let H1 := fresh in let H2 := fresh in let H3 := fresh in
  destruct (checks_pass (len payload) (len tail)) as (H1 & H2 & H3);
  [pose proof (len_nonneg payload); lia | apply len_nonneg |];
  rewrite ?H1, H2, H3; cbn [negb];
  rewrite readPayload_buffered; cbn [isEOF];
  rewrite Discard_buffered.

Lemma Decode_bulk_buffered (payload : string) (a b : ascii) (tail src : string)
  (x : nat) :
  len payload <= maxAlloc ->
  Decode (mkReader ("$" ++ Strconv.Itoa (len payload) ++ CRLF
                      ++ payload ++ String a (String b tail)) src x)
  = Return (VString payload) None (mkReader tail src x).
Proof. intros Hn. framed_steps payload a b tail Hn. reflexivity. Qed.

Lemma Decode_blob_buffered (payload : string) (a b : ascii) (tail src : string)
  (x : nat) :
  len payload <= maxAlloc ->
  Decode (mkReader ("!" ++ Strconv.Itoa (len payload) ++ CRLF
                      ++ payload ++ String a (String b tail)) src x)
  = Return (VError payload) None (mkReader tail src x).
Proof. intros Hn. framed_steps payload a b tail Hn. reflexivity. Qed.

Lemma Decode_verbatim_buffered (payload : string) (a b : ascii) (tail src : string)
  (x : nat) :
  len payload <= maxAlloc ->
  payload <> "" ->
  Decode (mkReader ("=" ++ Strconv.Itoa (len payload) ++ CRLF
                      ++ payload ++ String a (String b tail)) src x)
  = Return (VString payload) None (mkReader tail src x).
Proof.
  intros Hn Hne.
  assert (H0 : (len payload =? 0) = false).
  { apply Z.eqb_neq. destruct payload; [easy|]. unfold len. cbn [String.length]. lia. }
  rewrite Decode_unfold; cbn [Decode_ append];
  rewrite ReadByte_buffered; cbn match;
  rewrite (readLineCRLF_buffered _ _ _ _ (Itoa_no_LF _)); cbn [isEOF];
  rewrite (Atoi_len _ Hn); cbn [atoiError]. rewrite H0.
  rewrite Buffered_payload.
  destruct (checks_pass (len payload) (len tail)) as (H1 & H2 & H3);
  [pose proof (len_nonneg payload); lia | apply len_nonneg |].
  rewrite H1, H2, H3; cbn [negb].
  rewrite readPayload_buffered; cbn [isEOF].
  rewrite Discard_buffered. reflexivity.
Qed.

(** X12: a Bulk String, a Blob Error and a non-empty Verbatim String whose
    record lies within the bytes available are decoded to the payload of
    the declared length, whatever bytes the payload holds (CR and LF
    included), with exactly the record consumed; the two bytes after the
    payload are dropped without being compared with CR and LF. *)
Theorem Decode_length_framed_payload :
  forall (reader : Reader) (tag : ascii) (payload : string) (a b : ascii)
         (rest : string),
    stream reader = framed tag payload a b ++ rest ->
    (String.length (framed tag payload a b) <= available reader)%nat ->
    len payload <= maxAlloc ->
    exists reader',
      stream reader' = rest
      /\ (tag = "$"%char -> Decode reader = Return (VString payload) None reader')
      /\ (tag = "!"%char -> Decode reader = Return (VError payload) None reader')
      /\ (tag = "="%char -> payload <> "" ->
          Decode reader = Return (VString payload) None reader').
Proof.
  intros reader tag payload a b rest Hs Ha Hn.
  destruct (buffered_holds reader _ rest Hs Ha) as (tail & src & Hb & Hrest).
  exists (mkReader tail src (extra reader)). split; [exact Hrest|].
  rewrite Decode_buffered_eq, Hb. unfold framed.
  assert (Hw : forall t : ascii,
             String t (Strconv.Itoa (len payload) ++ CRLF ++ payload
                         ++ String a (String b "")) ++ tail
             = String t "" ++ Strconv.Itoa (len payload) ++ CRLF
                 ++ payload ++ String a (String b tail)).
  { intros t. cbn [append]. now rewrite !app_assoc. }
  rewrite Hw. repeat split.
  - intros ->. now apply Decode_bulk_buffered.
  - intros ->. now apply Decode_blob_buffered.
  - intros -> Hne. now apply Decode_verbatim_buffered.
Qed.

Lemma Decode_length_framed_payload_witness :
  let payload := "two" ++ CRLF ++ "lines" in
  let reader := NewReader (framed "$" payload "x" "y" ++ "+OK") in
  stream reader = framed "$" payload "x" "y" ++ "+OK"
  /\ (String.length (framed "$" payload "x" "y") <= available reader)%nat
  /\ len payload <= maxAlloc
  /\ exists reader',
       stream reader' = "+OK"
       /\ Decode reader = Return (VString payload) None reader'.
Proof.
  cbv zeta.
  assert (Ha : (String.length (framed "$" ("two" ++ CRLF ++ "lines") "x" "y")
                <= available (NewReader (framed "$" ("two" ++ CRLF ++ "lines") "x" "y"
                                           ++ "+OK")))%nat)
    by (apply Nat.leb_le; vm_compute; reflexivity).
  assert (Hn : len ("two" ++ CRLF ++ "lines") <= maxAlloc)
    by (apply Z.leb_le; vm_compute; reflexivity).
  split; [reflexivity|]. split; [exact Ha|]. split; [exact Hn|].
  destruct (Decode_length_framed_payload
              (NewReader (framed "$" ("two" ++ CRLF ++ "lines") "x" "y" ++ "+OK"))
              "$" ("two" ++ CRLF ++ "lines") "x" "y" "+OK" eq_refl Ha Hn)
    as (reader' & Hs & Hd & _).
  exists reader'. split; [exact Hs | exact (Hd eq_refl)].
Defined.

Lemma fill_withinCapacity (b : Reader) :
  withinCapacity b -> withinCapacity (fst (fill b)).
Proof.
  unfold withinCapacity, fill. intros H.
  destruct (rd b) as [|c r] eqn:E; [exact H|].
  cbn [fst buf]. rewrite length_app, length_take.
  change (bufSize {| buf := _; rd := _; extra := extra b |}) with (bufSize b). lia.
Qed.

Lemma ReadByte_withinCapacity (b b' : Reader) (c : ascii) (e : option error) :
  withinCapacity b -> ReadByte b = (c, e, b') -> withinCapacity b'.
Proof.
  intros H. unfold ReadByte.
  destruct (buf b) as [|x bf] eqn:E.
  - pose proof (fill_withinCapacity b H) as Hf.
    destruct (fill b) as [b1 eof]. cbn [fst] in Hf.
    destruct eof; [intros E'; now split_triple E'|].
    destruct (buf b1) as [|y bf1] eqn:E1; intros E'; split_triple E'; [exact Hf|].
    unfold withinCapacity in *. rewrite E1 in Hf. cbn in *. lia.
  - intros E'. split_triple E'. unfold withinCapacity in *. rewrite E in H. cbn in *. lia.
Qed.

Lemma readStringLoop_withinCapacity (delim : ascii) (fuel : nat) :
  forall (acc : string) (b b' : Reader) (line : string) (e : option error),
    withinCapacity b ->
    readStringLoop fuel acc b delim = (line, e, b') -> withinCapacity b'.
Proof.
  induction fuel as [|fuel IH]; intros acc b b' line e H; cbn [readStringLoop].
  - destruct (IndexByte (buf b) delim) as [i|]; intros E; split_triple E; [|exact H].
    unfold withinCapacity, withBuf, bufSize in *. cbn [buf extra].
    rewrite length_drop. lia.
  - destruct (IndexByte (buf b) delim) as [i|].
    { intros E; split_triple E. unfold withinCapacity, withBuf, bufSize in *. cbn [buf extra].
    rewrite length_drop. lia. }
    destruct (bufSize b <=? String.length (buf b))%nat.
    + apply IH. unfold withinCapacity. cbn. lia.
    + pose proof (fill_withinCapacity b H) as Hf.
      destruct (fill b) as [b1 eof]. cbn [fst] in Hf. destruct eof.
      * intros E; split_triple E. unfold withinCapacity. cbn. lia.
      * now apply IH.
Qed.

Lemma readLineCRLF_withinCapacity (b b' : Reader) (line : string) (e : option error) :
  withinCapacity b -> readLineCRLF b = (line, e, b') -> withinCapacity b'.
Proof.
  intros H. unfold readLineCRLF, ReadString.
  destruct (readStringLoop _ "" b LF) as [[l e'] b1] eqn:E.
  pose proof (readStringLoop_withinCapacity _ _ _ _ _ _ _ H E) as H1.
  destruct e'; [intros E'; now split_triple E'|].
  destruct (_ || _); intros E'; now split_triple E'.
Qed.

(** X13: a length-framed record whose payload and closing CRLF are longer
    than the reader's buffer is reported as partial input on every call,
    however many bytes the source holds; the tag and the length line have
    been consumed by then. *)
Theorem Decode_payload_beyond_buffer :
  forall (reader : Reader) (tag : ascii) (lengthStr : string) (n : Z) (rest : string),
    withinCapacity reader ->
    lengthFramedTag tag = true ->
    stream reader = String tag (lengthStr ++ CRLF ++ rest) ->
    IndexByte lengthStr LF = None ->
    Strconv.Atoi lengthStr = (n, None) ->
    Z.of_nat (bufSize reader) < n + 2 <= maxInt ->
    exists reader',
      Decode reader = Return VNil (Some ErrUnexpectedEOF) reader'
      /\ stream reader' = rest.
Proof.
  intros reader tag lengthStr n rest Hw Htag Hs Hl Ha Hn.
  destruct (ReadByte_stream reader tag _ Hs) as (r1 & H1 & Hs1 & Hx1 & _).
  pose proof (ReadByte_withinCapacity _ _ _ _ Hw H1) as Hw1.
  destruct (readLineCRLF_line r1 lengthStr rest Hs1 Hl) as (r2 & H2 & Hs2 & Hx2 & _).
  pose proof (readLineCRLF_withinCapacity _ _ _ _ Hw1 H2) as Hw2.
  exists r2. split; [|exact Hs2].
  assert (Hb : Buffered r2 < n + 2).
  { unfold Buffered, len, withinCapacity, bufSize in *. rewrite Hx2, Hx1 in Hw2. lia. }
  assert (Hwrap : wrap (n + 2) = n + 2).
  { apply wrap_small. unfold minInt, maxInt, intSize in *.
    change (2 ^ (64 - 1)) with 9223372036854775808 in *. lia. }
  assert (Hlt : (Buffered r2 <? wrap (n + 2)) = true)
    by (rewrite Hwrap; apply Z.ltb_lt; exact Hb).
  assert (H15 : 14 < n) by (unfold bufSize, minReadBufferSize in Hn; lia).
  assert (Hm1 : (n =? -1) = false) by (apply Z.eqb_neq; lia).
  assert (H0 : (n =? 0) = false) by (apply Z.eqb_neq; lia).
  rewrite Decode_unfold. cbn [Decode_]. rewrite H1.
  unfold lengthFramedTag in Htag. cbn [existsb] in Htag.
  repeat rewrite orb_true_iff in Htag. repeat rewrite Ascii.eqb_eq in Htag.
  destruct Htag as [->|[->|[->|Hf]]]; [| | | discriminate];
    cbn match; rewrite H2; cbn [isEOF];
    rewrite Ha; cbn [atoiError]; rewrite ?Hm1, ?H0, Hlt; reflexivity.
Qed.

Lemma Decode_payload_beyond_buffer_witness :
  let reader := NewReaderSize ("$15" ++ CRLF ++ "fifteen bytes.." ++ CRLF) 16 in
  withinCapacity reader
  /\ lengthFramedTag "$" = true
  /\ stream reader = String "$" ("15" ++ CRLF ++ "fifteen bytes.." ++ CRLF)
  /\ IndexByte "15" LF = None
  /\ Strconv.Atoi "15" = (15, None)
  /\ Z.of_nat (bufSize reader) < 15 + 2 <= maxInt
  /\ exists reader',
       Decode reader = Return VNil (Some ErrUnexpectedEOF) reader'
       /\ stream reader' = "fifteen bytes.." ++ CRLF.
Proof.
  cbv zeta.
  assert (Hw : withinCapacity
                 (NewReaderSize ("$15" ++ CRLF ++ "fifteen bytes.." ++ CRLF) 16))
    by (apply Nat.leb_le; vm_compute; reflexivity).
  assert (Hn : Z.of_nat (bufSize (NewReaderSize ("$15" ++ CRLF ++ "fifteen bytes.." ++ CRLF) 16))
               < 15 + 2 <= maxInt)
    by (split; [apply Z.ltb_lt | apply Z.leb_le]; vm_compute; reflexivity).
  split; [exact Hw|]. split; [reflexivity|]. split; [reflexivity|].
  split; [reflexivity|]. split; [reflexivity|]. split; [exact Hn|].
  apply (Decode_payload_beyond_buffer
           (NewReaderSize ("$15" ++ CRLF ++ "fifteen bytes.." ++ CRLF) 16)
           "$" "15" 15 ("fifteen bytes.." ++ CRLF) Hw eq_refl eq_refl eq_refl eq_refl Hn).
Defined.

End Buffered.

Section DecodeEdges.

#[local] Arguments Discard : simpl never.
#[local] Arguments readPayload : simpl never.
#[local] Arguments readLineCRLF : simpl never.
#[local] Arguments ReadByte : simpl never.
#[local] Arguments Strconv.Atoi : simpl never.
#[local] Arguments wrap : simpl never.
#[local] Arguments makeslice : simpl never.
#[local] Arguments Buffered : simpl never.

(** X14: for the eight tags whose line is checked, a record that ends
    before any line feed is reported as partial input (not as end of
    input), and every byte of the reader has been consumed. *)
Theorem Decode_truncated_line_is_partial :
  forall (reader : Reader) (tag : ascii) (body : string),
    checkedLineTag tag = true ->
    stream reader = String tag body ->
    IndexByte body LF = None ->
    Decode reader = Return VNil (Some ErrUnexpectedEOF) (mkReader "" "" (extra reader)).
Proof.
  intros reader tag body Htag Hs Hb.
  destruct (ReadByte_stream reader tag _ Hs) as (r1 & H1 & Hs1 & Hx1 & _).
  assert (H2 : readLineCRLF r1 = ("", Some EOF, mkReader "" "" (extra reader))).
  { unfold readLineCRLF. rewrite <- Hs1 in Hb.
    now rewrite (ReadString_not_found r1 LF Hb), Hx1. }
  apply (Decode_line_exhausted _ _ _ _ _ _ Htag H1 H2).
Qed.

Lemma Decode_truncated_line_is_partial_witness :
  checkedLineTag "*" = true
  /\ stream (NewReader "*12") = String "*" "12"
  /\ IndexByte "12" LF = None
  /\ Decode (NewReader "*12") = Return VNil (Some ErrUnexpectedEOF) (NewReader "").
Proof.
  split; [reflexivity|]. split; [reflexivity|]. split; [reflexivity|].
  apply (Decode_truncated_line_is_partial (NewReader "*12") "*" "12");
    reflexivity.
Defined.

(** X15: for the four tags with a checked length or count, a line Atoi
    rejects makes Decode return the error of Atoi, naming the line; the tag
    and the line have been consumed, the rest is untouched. *)
Theorem Decode_malformed_length_is_rejected :
  forall (reader : Reader) (tag : ascii) (line rest : string) (n : Z)
         (k : Strconv.numerr),
    checkedLengthTag tag = true ->
    stream reader = String tag (line ++ CRLF ++ rest) ->
    IndexByte line LF = None ->
    Strconv.Atoi line = (n, Some k) ->
    exists reader',
      Decode reader = Return VNil (Some (NumError "Atoi" line k)) reader'
      /\ stream reader' = rest.
Proof.
  intros reader tag line rest n k Htag Hs Hl Ha.
  destruct (ReadByte_stream reader tag _ Hs) as (r1 & H1 & Hs1 & _).
  destruct (readLineCRLF_line r1 line rest Hs1 Hl) as (r2 & H2 & Hs2 & _).
  exists r2. split; [|exact Hs2].
  apply (Decode_length_malformed _ _ _ _ _ _ _ Htag H1 H2 Ha).
Qed.

Lemma Decode_malformed_length_is_rejected_witness :
  let reader := NewReader ("$1x" ++ CRLF ++ "a" ++ CRLF) in
  checkedLengthTag "$" = true
  /\ stream reader = String "$" ("1x" ++ CRLF ++ "a" ++ CRLF)
  /\ IndexByte "1x" LF = None
  /\ Strconv.Atoi "1x" = (0, Some Strconv.ErrSyntax)
  /\ exists reader',
       Decode reader = Return VNil (Some (NumError "Atoi" "1x" Strconv.ErrSyntax)) reader'
       /\ stream reader' = "a" ++ CRLF.
Proof.
  cbv zeta. split; [reflexivity|]. split; [reflexivity|]. split; [reflexivity|].
  split; [reflexivity|].
  apply (Decode_malformed_length_is_rejected
           (NewReader ("$1x" ++ CRLF ++ "a" ++ CRLF)) "$" "1x" ("a" ++ CRLF)
           0 Strconv.ErrSyntax); reflexivity.
Defined.

(** X16: for every length or count below -1 and each of the four tags with
    a checked length or count, Decode panics in [make], whatever the reader
    and whatever follows the line. *)
Theorem Decode_length_below_minus_one_panics :
  forall (reader : Reader) (tag : ascii) (n : Z) (rest : string),
    checkedLengthTag tag = true ->
    minInt <= n < -1 ->
    stream reader = String tag (Strconv.Itoa n ++ CRLF ++ rest) ->
    Decode reader = Panic MakesliceLenOutOfRange.
Proof.
  intros reader tag n rest Htag Hn Hs.
  destruct (ReadByte_stream reader tag _ Hs) as (r1 & H1 & Hs1 & _).
  destruct (readLineCRLF_line r1 (Strconv.Itoa n) rest Hs1 (Itoa_no_LF n))
    as (r2 & H2 & _).
  assert (Hr : minInt <= n <= maxInt /\ minInt <= n + 2 <= maxInt).
  { unfold minInt, maxInt, intSize in *.
    change (2 ^ (64 - 1)) with 9223372036854775808 in *. lia. }
  destruct Hr as [Hr Hr2].
  assert (Hm1 : (n =? -1) = false) by (apply Z.eqb_neq; lia).
  assert (H0 : (n =? 0) = false) by (apply Z.eqb_neq; lia).
  assert (Hlt : (Buffered r2 <? wrap (n + 2)) = false).
  { rewrite (wrap_small _ Hr2). apply Z.ltb_ge. unfold Buffered, len. lia. }
  assert (Hm : forall e, 0 < e -> makeslice e n = false).
  { intros e He. unfold makeslice. destruct (Z.leb_spec 0 n); [lia | reflexivity]. }
  rewrite Decode_unfold. cbn [Decode_]. rewrite H1.
  destruct (checkedLengthTag_cases tag Htag) as [-> | [-> | [-> | ->]]];
    cbn match; rewrite H2; cbn [isEOF]; rewrite (Atoi_Itoa n Hr); cbn [atoiError];
    rewrite ?Hm1, ?H0, ?Hlt, Hm by lia; reflexivity.
Qed.

Lemma Decode_length_below_minus_one_panics_witness :
  checkedLengthTag "!" = true
  /\ minInt <= -2 < -1
  /\ stream (NewReader ("!-2" ++ CRLF)) = String "!" (Strconv.Itoa (-2) ++ CRLF ++ "")
  /\ Decode (NewReader ("!-2" ++ CRLF)) = Panic MakesliceLenOutOfRange.
Proof.
  assert (Hn : minInt <= -2 < -1) by (vm_compute; split; [discriminate | reflexivity]).
  split; [reflexivity|]. split; [exact Hn|]. split; [reflexivity|].
  apply (Decode_length_below_minus_one_panics (NewReader ("!-2" ++ CRLF)) "!" (-2) "");
    [reflexivity | exact Hn | reflexivity].
Defined.

End DecodeEdges.

(** ** Round trip of nested values *)

Section ValueInduction.

Variable P : value -> Prop.

Hypothesis HNil : P VNil.
Hypothesis HString : forall s, P (VString s).
Hypothesis HInt : forall k n, P (VInt k n).
Hypothesis HFloat : forall k f, P (VFloat k f).
Hypothesis HBool : forall b, P (VBool b).
Hypothesis HError : forall msg, P (VError msg).
Hypothesis HArray : forall elems, Forall P elems -> P (VArray elems).
Hypothesis HStrings : forall elems, P (VStrings elems).
Hypothesis HInts : forall k elems, P (VInts k elems).
Hypothesis HBools : forall elems, P (VBools elems).
Hypothesis HFloats : forall k elems, P (VFloats k elems).
Hypothesis HMapString : forall m, Forall (fun p => P (snd p)) m -> P (VMapString m).
Hypothesis HMapInt64 : forall m, Forall (fun p => P (snd p)) m -> P (VMapInt64 m).
Hypothesis HMapIface :
  forall m, Forall (fun p => P (fst p) /\ P (snd p)) m -> P (VMapIface m).
Hypothesis HTime : forall t, P (VTime t).
Hypothesis HStruct : forall fields, Forall (fun p => P (snd p)) fields -> P (VStruct fields).
Hypothesis HOther : forall typ, P (VOther typ).

Lemma value_nested_ind : forall v, P v.
Proof.
  fix IH 1. intros [ | s | k n | k f | b | msg | elems | elems | k elems | elems
                   | k elems | m | m | m | t | fields | typ ];
    try (clear IH; auto; fail).
  - apply HArray. induction elems as [|e elems IHl]; constructor; [apply IH | exact IHl].
  - apply HMapString. induction m as [|[k x] m IHl]; constructor; [apply IH | exact IHl].
  - apply HMapInt64. induction m as [|[k x] m IHl]; constructor; [apply IH | exact IHl].
  - apply HMapIface. induction m as [|[k x] m IHl]; constructor;
      [split; apply IH | exact IHl].
  - apply HStruct. induction fields as [|[k x] m IHl]; constructor; [apply IH | exact IHl].
Qed.

End ValueInduction.

Section NestedRoundTrip.

#[local] Arguments Discard : simpl never.
#[local] Arguments readPayload : simpl never.
#[local] Arguments readLineCRLF : simpl never.
#[local] Arguments ReadByte : simpl never.
#[local] Arguments Strconv.Atoi : simpl never.
#[local] Arguments wrap : simpl never.
#[local] Arguments makeslice : simpl never.
#[local] Arguments Buffered : simpl never.

Lemma noLF_true (s : string) : noLF s = true -> IndexByte s LF = None.
Proof. unfold noLF. now destruct (IndexByte s LF). Qed.

Lemma elementWire_Encode (e : value) : elementWire e = fst (Encode e).
Proof. destruct e; try reflexivity. cbn [elementWire]. now rewrite Encode_string. Qed.

Lemma encodeStringPairs_spec (m : list (string * value)) :
  forall resp : string,
    (forall p, In p m -> snd (Encode (snd p)) = None) ->
    encodeStringPairs Encode m resp = (resp ++ joinAll (map pairWire m), None).
Proof.
  induction m as [|[k x] m IH]; intros resp H.
  - cbn. now rewrite app_empty_r.
  - cbn [encodeStringPairs]. pose proof (H (k, x) (or_introl eq_refl)) as Hx.
    cbn [snd] in Hx. destruct (Encode x) as [w e] eqn:E. cbn [snd] in Hx. subst e.
    fold (encodeStringPairs Encode). rewrite IH by (intros p Hp; apply H; now right).
    cbn [map joinAll]. unfold pairWire at 2. cbn [fst snd]. rewrite E. cbn [fst].
    now rewrite !app_assoc.
Qed.

Lemma Decode_fuel_eq (f : nat) (r : Reader) :
  (2 * pending r + 1 <= f)%nat -> Decode_ f r = Decode r.
Proof.
  intros H. symmetry. apply (Decode_fuel f r); [reflexivity|].
  now apply (proj1 (fuel_enough f)).
Qed.

Lemma Decode_simple_buffered (line tail src : string) (x : nat) :
  IndexByte line LF = None ->
  Decode (mkReader ("+" ++ line ++ CRLF ++ tail) src x)
  = Return (VString line) None (mkReader tail src x).
Proof.
  intros H. rewrite Decode_unfold. cbn [Decode_ append].
  rewrite ReadByte_buffered. cbn match.
  now rewrite (readLineCRLF_buffered _ _ _ _ H).
Qed.

Lemma len_app (a b : string) : len (a ++ b) = len a + len b.
Proof. unfold len. rewrite length_app. lia. Qed.

Lemma pending_mk (b src : string) (x : nat) :
  pending (mkReader b src x) = (String.length b + String.length src)%nat.
Proof. reflexivity. Qed.

Lemma nonempty_length (s : string) : s <> "" -> (0 < String.length s)%nat.
Proof. destruct s; [congruence | cbn; lia]. Qed.

Lemma Buffered_nonempty (w tail src : string) (x : nat) :
  w <> "" -> (Buffered (mkReader (w ++ tail) src x) =? 0) = false.
Proof.
  intros H. apply Z.eqb_neq. unfold Buffered, len. cbn [buf].
  rewrite length_app. pose proof (nonempty_length w H). lia.
Qed.

Lemma decodeArray_buffered (es : list value) :
  forall (f : nat) (done : list value) (tail src : string) (x : nat) (count : Z),
    Forall decodesBack es ->
    16 * len (joinAll (map wireOf es)) <= maxAlloc ->
    Z.of_nat (List.length done + List.length es) <= count <= maxInt ->
    (2 * pending (mkReader (joinAll (map wireOf es) ++ tail) src x) + 2 <= f)%nat ->
    (count = Z.of_nat (List.length done + List.length es) ->
     decodeArray_ f (mkReader (joinAll (map wireOf es) ++ tail) src x)
       count (Z.of_nat (List.length done)) done
     = Return (VArray (done ++ es)) None (mkReader tail src x))
    /\ (Z.of_nat (List.length done + List.length es) < count -> tail = "" ->
        decodeArray_ f (mkReader (joinAll (map wireOf es) ++ tail) src x)
          count (Z.of_nat (List.length done)) done
        = Return VNil (Some ErrUnexpectedEOF) (mkReader "" src x)).
Proof.
  induction es as [|e es IH]; intros f done tail src x count Hes Hb Hc Hf.
  - destruct f as [|f]; [lia|]. cbn [decodeArray_ List.length map joinAll append] in *.
    rewrite Nat.add_0_r in *. split.
    + intros ->. now rewrite Z.ltb_irrefl, app_nil_r.
    + intros Hlt ->. destruct (Z.ltb_spec (Z.of_nat (List.length done)) count); [|lia].
      reflexivity.
  - destruct f as [|f]; [lia|].
    inversion Hes as [|? ? [Hne He] Hes']; subst.
    cbn [map joinAll] in *. rewrite len_app in Hb.
    pose proof (len_nonneg (wireOf e)). pose proof (len_nonneg (joinAll (map wireOf es))).
    rewrite app_assoc in *. fold (wireOf e) in Hne, He.
    cbn [decodeArray_].
    destruct (Z.ltb_spec (Z.of_nat (List.length done)) count)
      as [_|Hge]; [|cbn [List.length] in Hc; lia].
    rewrite (Buffered_nonempty _ _ _ _ Hne).
    rewrite Decode_fuel_eq by lia.
    unfold wireOf at 1 3. rewrite He by (fold (wireOf e); lia). cbn [isEOF].
    assert (Hw : wrap (Z.of_nat (List.length done) + 1)
                 = Z.of_nat (List.length (done ++ [e])%list)).
    { rewrite wrap_small; [rewrite List.length_app; cbn [List.length]; lia|].
      cbn [List.length] in Hc. unfold minInt, maxInt, intSize in *.
      change (2 ^ (64 - 1)) with 9223372036854775808 in *. lia. }
    rewrite Hw.
    replace (List.length done + List.length (e :: es))%nat
      with (List.length (done ++ [e])%list + List.length es)%nat in *
      by (rewrite List.length_app; cbn [List.length]; lia).
    replace (done ++ e :: es)%list with ((done ++ [e]) ++ es)%list
      by now rewrite <- List.app_assoc.
    apply IH.
    + exact Hes'.
    + lia.
    + exact Hc.
    + rewrite pending_mk in *. rewrite !length_app in *.
      pose proof (nonempty_length _ Hne). lia.
Qed.

Lemma mapassign_stringKeyed (done : list (string * value)) (k : string) (v : value) :
  ~ In k (map fst done) ->
  mapassign keyEq (map stringKeyed done) (VString k) v
  = map stringKeyed (done ++ [(k, v)])%list.
Proof.
  induction done as [|[k' x] done IH]; cbn; intros Hn; [reflexivity|].
  destruct (String.eqb_spec k' k) as [->|_]; [tauto|].
  rewrite IH by tauto. reflexivity.
Qed.

Lemma decodeMap_buffered (ps : list (string * value)) :
  forall (f : nat) (done : list (string * value)) (tail src : string) (x : nat)
         (size : Z) (k : bool),
    Forall (fun p => IndexByte (fst p) LF = None /\ decodesBack (snd p)) ps ->
    NoDup (map fst (done ++ ps)%list) ->
    16 * len (joinAll (map pairWire ps)) <= maxAlloc ->
    2 * Z.of_nat (List.length done + List.length ps) <= maxInt ->
    2 * Z.of_nat (List.length done + List.length ps) - 1 <= size ->
    (2 * pending (mkReader (joinAll (map pairWire ps) ++ tail) src x) + 2 <= f)%nat ->
    (size <= 2 * Z.of_nat (List.length done + List.length ps) ->
     exists k',
       decodeMap_ f (mkReader (joinAll (map pairWire ps) ++ tail) src x)
         size (2 * Z.of_nat (List.length done)) (map stringKeyed done) true k
       = MapDone (map stringKeyed (done ++ ps)%list) true k' (mkReader tail src x))
    /\ (2 * Z.of_nat (List.length done + List.length ps) < size -> tail = "" ->
        decodeMap_ f (mkReader (joinAll (map pairWire ps) ++ tail) src x)
          size (2 * Z.of_nat (List.length done)) (map stringKeyed done) true k
        = MapLeft (Return VNil (Some ErrUnexpectedEOF) (mkReader "" src x))).
Proof.
  induction ps as [|[key v] ps IH];
    intros f done tail src x size k Hps Hnd Hb Hmax Hc Hf.
  - destruct f as [|f]; [lia|]. cbn [decodeMap_ List.length map joinAll append] in *.
    rewrite Nat.add_0_r in *. split.
    + intros Hle. destruct (Z.ltb_spec (2 * Z.of_nat (List.length done)) size); [lia|].
      rewrite app_nil_r. now exists k.
    + intros Hlt ->.
      destruct (Z.ltb_spec (2 * Z.of_nat (List.length done)) size); [|lia].
      reflexivity.
  - destruct f as [|f]; [lia|].
    inversion Hps as [|? ? [Hkey [Hne He]] Hps']; subst. cbn [fst snd] in *.
    cbn [map joinAll] in *.
    change (pairWire (key, v)) with ("+" ++ key ++ CRLF ++ wireOf v) in *.
    rewrite !len_app in Hb.
    change (len "+") with 1 in Hb. change (len CRLF) with 2 in Hb.
    pose proof (len_nonneg (wireOf v)). pose proof (len_nonneg key).
    pose proof (len_nonneg (joinAll (map pairWire ps))).
    rewrite !app_assoc in *.
    cbn [decodeMap_].
    destruct (Z.ltb_spec (2 * Z.of_nat (List.length done)) size)
      as [_|Hge]; [|cbn [List.length] in Hc; lia].
    rewrite (Buffered_nonempty "+" _ _ _ ltac:(discriminate)).
    rewrite pending_mk in Hf. rewrite !length_app in Hf.
    change (String.length "+") with 1%nat in Hf.
    rewrite Decode_fuel_eq
      by (rewrite pending_mk, !length_app; change (String.length "+") with 1%nat; lia).
    rewrite (Decode_simple_buffered _ _ _ _ Hkey). cbn [isEOF].
    rewrite Decode_fuel_eq by (rewrite pending_mk, !length_app; lia).
    unfold wireOf. rewrite He by (fold (wireOf v); lia). cbn [isEOF hashable negb].
    rewrite mapassign_stringKeyed
      by (rewrite map_app in Hnd; cbn [map fst] in Hnd;
          apply NoDup_remove_2 in Hnd; intros Hin; apply Hnd, in_or_app; now left).
    assert (Hw : wrap (2 * Z.of_nat (List.length done) + 2)
                 = 2 * Z.of_nat (List.length (done ++ [(key, v)])%list)).
    { rewrite wrap_small; [rewrite List.length_app; cbn [List.length]; lia|].
      cbn [List.length] in Hmax. unfold minInt, maxInt, intSize in *.
      change (2 ^ (64 - 1)) with 9223372036854775808 in *. lia. }
    rewrite Hw.
    replace (List.length done + List.length ((key, v) :: ps))%nat
      with (List.length (done ++ [(key, v)])%list + List.length ps)%nat in *
      by (rewrite List.length_app; cbn [List.length]; lia).
    replace (done ++ (key, v) :: ps)%list with ((done ++ [(key, v)]) ++ ps)%list in *
      by now rewrite <- List.app_assoc.
    apply IH.
    + exact Hps'.
    + exact Hnd.
    + lia.
    + exact Hmax.
    + exact Hc.
    + rewrite pending_mk, !length_app.
      pose proof (nonempty_length _ Hne). lia.
Qed.

Lemma count_le_join {A : Type} (wire : A -> string) (l : list A) :
  Forall (fun a => wire a <> "") l ->
  Z.of_nat (List.length l) <= len (joinAll (map wire l)).
Proof.
  induction 1 as [|a l Ha _ IH]; cbn [List.length map joinAll]; [unfold len; cbn; lia|].
  rewrite len_app. pose proof (nonempty_length _ Ha). unfold len in *. lia.
Qed.

Lemma maxAlloc_maxInt (z : Z) : z <= maxAlloc -> z <= maxInt.
Proof.
  unfold maxAlloc, maxInt, intSize. change (2 ^ (64 - 1)) with 9223372036854775808.
  change (2 ^ 48) with 281474976710656. lia.
Qed.

Lemma Itoa_len_pos (n : Z) : 0 < len (Strconv.Itoa n).
Proof. pose proof (Itoa_nonempty n). unfold len. lia. Qed.

Lemma Decode_array_buffered (es : list value) (count : Z) (tail src : string) (x : nat) :
  Forall decodesBack es ->
  16 * len ("*" ++ Strconv.Itoa count ++ CRLF ++ joinAll (map wireOf es)) <= maxAlloc ->
  Z.of_nat (List.length es) <= count ->
  16 * count <= maxAlloc ->
  (count = Z.of_nat (List.length es) ->
   Decode (mkReader ("*" ++ Strconv.Itoa count ++ CRLF
                       ++ joinAll (map wireOf es) ++ tail) src x)
   = Return (VArray es) None (mkReader tail src x))
  /\ (Z.of_nat (List.length es) < count -> tail = "" ->
      Decode (mkReader ("*" ++ Strconv.Itoa count ++ CRLF
                          ++ joinAll (map wireOf es) ++ tail) src x)
      = Return VNil (Some ErrUnexpectedEOF) (mkReader "" src x)).
Proof.
  intros Hes Hb Hle Hc.
  rewrite !len_app in Hb. change (len "*") with 1 in Hb. change (len CRLF) with 2 in Hb.
  pose proof (Itoa_len_pos count) as Hi.
  pose proof (len_nonneg (joinAll (map wireOf es))) as Hj.
  assert (Hmax : maxAlloc = 281474976710656) by reflexivity.
  assert (Hint : minInt <= count <= maxInt).
  { unfold minInt, maxInt, intSize. change (2 ^ (64 - 1)) with 9223372036854775808. lia. }
  rewrite Decode_unfold. cbn [append].
  rewrite (Decode__array _ _ _ (ReadByte_buffered _ _ _ _)).
  rewrite (readLineCRLF_buffered _ _ _ _ (Itoa_no_LF _)). cbn [isEOF].
  rewrite (Atoi_Itoa _ Hint). cbn [atoiError].
  destruct (Z.eqb_spec count (-1)) as [E|_]; [lia|].
  assert (Hm : makeslice 16 count = true).
  { unfold makeslice. apply andb_true_iff. split; apply Z.leb_le; lia. }
  rewrite Hm. cbn [negb].
  apply (decodeArray_buffered es _ [] tail src x count Hes); cbn [List.length Nat.add].
  - lia.
  - lia.
  - rewrite !pending_mk. cbn [append String.length]. rewrite !length_app.
    cbn [String.length]. lia.
Qed.

Lemma distinctBy_NoDup {A : Type} (eqb : A -> A -> bool) (l : list A) :
  (forall a b, eqb a b = true <-> a = b) ->
  distinctBy eqb l = true <-> NoDup l.
Proof.
  intros Heq. induction l as [|a l IH]; cbn [distinctBy].
  - split; [constructor | reflexivity].
  - rewrite andb_true_iff, negb_true_iff, IH. split.
    + intros [Hn Hl]. constructor; [|exact Hl]. intros Hin.
      assert (E : existsb (eqb a) l = true)
        by (apply existsb_exists; exists a; split; [exact Hin | now apply Heq]).
      congruence.
    + intros Hnd. inversion Hnd as [|? ? Hn Hl]; subst. split; [|exact Hl].
      destruct (existsb (eqb a) l) eqn:E; [|reflexivity].
      apply existsb_exists in E. destruct E as (b & Hb & Hab).
      apply Heq in Hab. now subst.
Qed.

Lemma distinct_NoDup (l : list string) : distinct l = true -> NoDup l.
Proof. apply distinctBy_NoDup, String.eqb_eq. Qed.

Lemma toStringMap_stringKeyed (m : list (string * value)) :
  NoDup (map fst m) -> toStringMap (map stringKeyed m) [] = Some m.
Proof.
  intros Hnd. rewrite toStringMap_fold.
  - rewrite map_map. unfold stringPair, stringKeyed. cbn [fst snd stringOf].
    rewrite (map_ext _ (fun p => p)) by (now intros [k x]). rewrite map_id.
    f_equal. apply (fold_assign_distinct String.eqb String.eqb_eq m []). exact Hnd.
  - rewrite map_map. cbn [stringKeyed fst]. induction m; [reflexivity|].
    cbn. inversion Hnd; auto.
Qed.

Lemma Decode_map_buffered (m : list (string * value)) (size : Z)
  (tail src : string) (x : nat) :
  Forall (fun p => IndexByte (fst p) LF = None /\ decodesBack (snd p)) m ->
  NoDup (map fst m) ->
  16 * len ("%" ++ Strconv.Itoa size ++ CRLF ++ joinAll (map pairWire m)) <= maxAlloc ->
  2 * Z.of_nat (List.length m) - 1 <= size <= maxInt ->
  (size <= 2 * Z.of_nat (List.length m) ->
   Decode (mkReader ("%" ++ Strconv.Itoa size ++ CRLF
                       ++ joinAll (map pairWire m) ++ tail) src x)
   = Return (VMapString m) None (mkReader tail src x))
  /\ (2 * Z.of_nat (List.length m) < size -> tail = "" ->
      Decode (mkReader ("%" ++ Strconv.Itoa size ++ CRLF
                          ++ joinAll (map pairWire m) ++ tail) src x)
      = Return VNil (Some ErrUnexpectedEOF) (mkReader "" src x)).
Proof.
  intros Hm Hnd Hb Hc.
  rewrite !len_app in Hb. change (len "%") with 1 in Hb. change (len CRLF) with 2 in Hb.
  pose proof (Itoa_len_pos size) as Hi.
  pose proof (len_nonneg (joinAll (map pairWire m))) as Hj.
  assert (Hcount : Z.of_nat (List.length m) <= len (joinAll (map pairWire m)))
    by (apply count_le_join, Forall_forall; intros p _; discriminate).
  assert (Hmax : maxAlloc = 281474976710656) by reflexivity.
  assert (Hint : minInt <= size <= maxInt).
  { unfold minInt, maxInt, intSize in *.
    change (2 ^ (64 - 1)) with 9223372036854775808 in *. lia. }
  assert (Hn : 2 * Z.of_nat (List.length m) <= maxInt).
  { unfold maxInt, intSize. change (2 ^ (64 - 1)) with 9223372036854775808. lia. }
  rewrite Decode_unfold. cbn [append].
  rewrite (Decode__map _ _ _ (ReadByte_buffered _ _ _ _)).
  rewrite (readLineCRLF_buffered _ _ _ _ (Itoa_no_LF _)).
  rewrite (Atoi_Itoa _ Hint).
  destruct (decodeMap_buffered m (S (2 * pending
              (mkReader (String "%" (Strconv.Itoa size ++ CRLF
                                       ++ joinAll (map pairWire m) ++ tail)) src x)))
              [] tail src x size true Hm Hnd) as [Hdone Hleft];
    cbn [List.length Nat.add]; try lia.
  { rewrite !pending_mk. cbn [String.length]. rewrite !length_app.
    cbn [String.length]. lia. }
  cbn [List.length Nat.add map app] in Hdone, Hleft.
  change (2 * Z.of_nat 0) with 0 in Hdone, Hleft.
  split.
  - intros E. destruct (Hdone E) as (k' & ->).
    now rewrite (toStringMap_stringKeyed m Hnd).
  - intros Hlt E. now rewrite (Hleft Hlt E).
Qed.

Lemma joinAll_ext {A : Type} (f g : A -> string) (l : list A) :
  (forall a, In a l -> f a = g a) -> joinAll (map f l) = joinAll (map g l).
Proof.
  induction l as [|a l IH]; intros H; [reflexivity|]. cbn [map joinAll].
  rewrite (H a (or_introl eq_refl)), IH; [reflexivity|]. intros b Hb. apply H. now right.
Qed.

Lemma roundTrips_decodesBack :
  forall v : value, roundTrips v = true -> snd (Encode v) = None /\ decodesBack v.
Proof.
  apply (value_nested_ind (fun v => roundTrips v = true ->
                                    snd (Encode v) = None /\ decodesBack v));
    try (cbn [roundTrips]; discriminate).
  - (* nil *)
    intros _. split; [reflexivity|]. split; [discriminate|].
    intros tail src x _. cbn [Encode fst].
    rewrite Decode_unfold. cbn [Decode_ append].
    rewrite ReadByte_buffered. cbn match. unfold CRLF. cbn [append].
    now rewrite Discard_buffered.
  - (* string *)
    intros s Hs. cbn [roundTrips] in Hs. unfold decodesBack. rewrite Encode_string.
    split; [reflexivity|]. cbn [fst]. unfold stringWire.
    destruct (Z.leb_spec (len s) 16) as [Hle|Hgt].
    + split; [discriminate|]. intros tail src x _.
      destruct (Z.ltb_spec 16 (len s)); [lia|]. cbn [orb] in Hs.
      rewrite !app_assoc. apply Decode_simple_buffered, noLF_true, Hs.
    + split; [discriminate|]. intros tail src x Hb.
      rewrite !len_app in Hb. change (len "$") with 1 in Hb. change (len CRLF) with 2 in Hb.
      pose proof (Itoa_len_pos (len s)).
      rewrite !app_assoc. unfold CRLF at 2. cbn [append].
      apply Decode_bulk_buffered. lia.
  - (* integer *)
    intros k n Hn. destruct k; try discriminate. cbn [roundTrips] in Hn.
    apply andb_true_iff in Hn. destruct Hn as [Hlo Hhi].
    apply Z.leb_le in Hlo, Hhi.
    split; [reflexivity|]. split; [discriminate|]. intros tail src x _.
    cbn [Encode encodeInt fst]. rewrite !app_assoc.
    rewrite Decode_unfold. cbn [append].
    apply (Decode__integer _ _ _ _ _ n (ReadByte_buffered _ _ _ _)
             (readLineCRLF_buffered _ _ _ _ (Itoa_no_LF n)) (Itoa_nonempty n)).
    apply Atoi_Itoa. lia.
  - (* boolean *)
    intros b _. split; [now destruct b|]. split; [now destruct b|].
    intros tail src x _.
    destruct b; cbn [Encode encodeBool fst]; rewrite Decode_unfold;
      cbn [Decode_ append]; rewrite ReadByte_buffered; cbn match;
      rewrite ReadByte_buffered; cbn [isEOF]; unfold CRLF; cbn [append];
      now rewrite Discard_buffered.
  - (* error *)
    intros msg Hm. cbn [roundTrips] in Hm.
    split; [reflexivity|]. split; [discriminate|]. intros tail src x _.
    cbn [Encode fst]. rewrite !app_assoc.
    rewrite Decode_unfold. cbn [Decode_ append].
    rewrite ReadByte_buffered. cbn match.
    now rewrite (readLineCRLF_buffered _ _ _ _ (noLF_true _ Hm)).
  - (* array *)
    intros elems IH Hr. cbn [roundTrips] in Hr.
    assert (Hall : Forall (fun e => snd (Encode e) = None /\ decodesBack e) elems).
    { rewrite Forall_forall in *. intros e He. apply IH; [exact He|].
      rewrite forallb_forall in Hr. now apply Hr. }
    assert (Henc : Encode (VArray elems)
                   = ("*" ++ Strconv.Itoa (Z.of_nat (List.length elems)) ++ CRLF
                        ++ joinAll (map wireOf elems), None)).
    { cbn [Encode]. rewrite encodeIfaceElems_spec.
      - rewrite !app_assoc.
        rewrite (joinAll_ext elementWire wireOf)
          by (intros; apply elementWire_Encode). reflexivity.
      - intros e He. rewrite Forall_forall in Hall. now apply Hall. }
    assert (Hdb : Forall decodesBack elems)
      by (eapply Forall_impl; [|exact Hall]; now intros e [_ H]).
    unfold decodesBack at 1. rewrite Henc. split; [reflexivity|]. split; [discriminate|].
    intros tail src x Hb. cbn [fst] in *. rewrite !app_assoc.
    assert (Hcount : Z.of_nat (List.length elems) <= len (joinAll (map wireOf elems))).
    { apply count_le_join. eapply Forall_impl; [|exact Hdb]. now intros e [H _]. }
    apply (Decode_array_buffered elems _ tail src x Hdb Hb); [lia| |reflexivity].
    rewrite !len_app in Hb. pose proof (Itoa_len_pos (Z.of_nat (List.length elems))).
    change (len "*") with 1 in Hb. change (len CRLF) with 2 in Hb. lia.
  - (* string-keyed map *)
    intros m IH Hr. cbn [roundTrips] in Hr. apply andb_true_iff in Hr.
    destruct Hr as [Hr Hd].
    assert (Hall : Forall (fun p => IndexByte (fst p) LF = None
                                    /\ snd (Encode (snd p)) = None
                                    /\ decodesBack (snd p)) m).
    { rewrite Forall_forall in *. intros [k x] Hp.
      rewrite forallb_forall in Hr. specialize (Hr _ Hp). cbn beta iota in Hr.
      apply andb_true_iff in Hr. destruct Hr as [Hk Hx].
      destruct (IH _ Hp Hx) as [He Hdb]. cbn [fst snd]. auto using noLF_true. }
    assert (Henc : Encode (VMapString m)
                   = ("%" ++ Strconv.Itoa (Z.of_nat (List.length m) * 2) ++ CRLF
                        ++ joinAll (map pairWire m), None)).
    { cbn [Encode]. rewrite encodeStringPairs_spec.
      - now rewrite !app_assoc.
      - intros p Hp. rewrite Forall_forall in Hall. now apply Hall. }
    assert (Hdb : Forall (fun p => IndexByte (fst p) LF = None /\ decodesBack (snd p)) m)
      by (eapply Forall_impl; [|exact Hall]; now intros p (H1 & _ & H2)).
    unfold decodesBack at 1. rewrite Henc. split; [reflexivity|]. split; [discriminate|].
    intros tail src x Hb. cbn [fst] in *. rewrite !app_assoc.
    assert (Hcount : Z.of_nat (List.length m) <= len (joinAll (map pairWire m))).
    { apply count_le_join. apply Forall_forall. intros p _. discriminate. }
    pose proof (distinct_NoDup _ Hd) as Hnd.
    assert (Hsz : 2 * Z.of_nat (List.length m) - 1
                  <= Z.of_nat (List.length m) * 2 <= maxInt).
    { rewrite !len_app in Hb.
      pose proof (Itoa_len_pos (Z.of_nat (List.length m) * 2)).
      change (len "%") with 1 in Hb. change (len CRLF) with 2 in Hb.
      split; [lia|]. apply maxAlloc_maxInt. lia. }
    apply (Decode_map_buffered m _ tail src x Hdb Hnd Hb Hsz). lia.
Qed.

Lemma buffered_exact (r : Reader) (wire rest : string) :
  stream r = wire ++ rest ->
  available r = String.length wire ->
  buffered r = mkReader wire rest (extra r).
Proof.
  intros Hs Ha. unfold buffered. now rewrite Hs, Ha, take_app, drop_app.
Qed.

(** X17: every value in the round-trip domain, nested arrays and
    string-keyed maps included, is encoded without an error, and decoding
    the bytes gives the value back with exactly those bytes consumed, when
    the record lies within the bytes available to the call. *)
Theorem Decode_Encode_round_trip :
  forall (v : value) (reader : Reader) (rest : string),
    roundTrips v = true ->
    stream reader = fst (Encode v) ++ rest ->
    (String.length (fst (Encode v)) <= available reader)%nat ->
    16 * len (fst (Encode v)) <= maxAlloc ->
    snd (Encode v) = None
    /\ exists reader', Decode reader = Return v None reader' /\ stream reader' = rest.
Proof.
  intros v reader rest Hv Hs Ha Hb.
  destruct (roundTrips_decodesBack v Hv) as [He [_ Hd]]. split; [exact He|].
  destruct (buffered_holds reader _ rest Hs Ha) as (tail & src & Hbuf & Hrest).
  exists (mkReader tail src (extra reader)). split; [|exact Hrest].
  rewrite Decode_buffered_eq, Hbuf. now apply Hd.
Qed.

Lemma Decode_Encode_round_trip_witness :
  let v := VArray [VString "SET";
                   VMapString [("ttl", VInt Int64 60);
                               ("tags", VArray [VNil; VBool true])];
                   VString ("a value of two lines" ++ CRLF ++ "and more than 16 bytes");
                   VError "ERR unknown"] in
  let reader := NewReader (fst (Encode v) ++ "+next") in
  roundTrips v = true
  /\ stream reader = fst (Encode v) ++ "+next"
  /\ (String.length (fst (Encode v)) <= available reader)%nat
  /\ 16 * len (fst (Encode v)) <= maxAlloc
  /\ snd (Encode v) = None
  /\ exists reader', Decode reader = Return v None reader' /\ stream reader' = "+next".
Proof.
  cbv zeta.
  split; [reflexivity|]. split; [reflexivity|].
  split; [apply Nat.leb_le; vm_compute; reflexivity|].
  split; [apply Z.leb_le; vm_compute; reflexivity|].
  apply (Decode_Encode_round_trip
           (VArray [VString "SET";
                    VMapString [("ttl", VInt Int64 60);
                                ("tags", VArray [VNil; VBool true])];
                    VString ("a value of two lines" ++ CRLF ++ "and more than 16 bytes");
                    VError "ERR unknown"])
           _ "+next").
  - reflexivity.
  - reflexivity.
  - apply Nat.leb_le; vm_compute; reflexivity.
  - apply Z.leb_le; vm_compute; reflexivity.
Defined.

End NestedRoundTrip.

(** ** The forms Encode writes *)

Section EncodeForms.

Lemma encodeFields_exported (fields : list (StructField * value)) :
  forall resp : string,
    forallb (fun p => IsExported (fst p)) fields = true ->
    encodeFields Encode fields resp
    = encodeStringPairs Encode (map fieldPair fields) resp.
Proof.
  induction fields as [|[field x] fields IH]; intros resp H; [reflexivity|].
  cbn [forallb fst] in H. apply andb_true_iff in H. destruct H as [Hf H].
  rewrite encodeFields_cons, Hf. cbn [negb map fieldPair fst snd encodeStringPairs].
  destruct (Encode x) as [w [e|]]; [reflexivity|].
  fold (encodeStringPairs Encode). rewrite IH by exact H. reflexivity.
Qed.

(** X20: a struct whose fields are all exported is encoded exactly as the
    string-keyed map from its field names to its field values, visited in
    declaration order, errors included. *)
Theorem Encode_struct_as_string_map :
  forall fields : list (StructField * value),
    forallb (fun p => IsExported (fst p)) fields = true ->
    Encode (VStruct fields) = Encode (VMapString (map fieldPair fields)).
Proof.
  intros fields H. cbn [Encode]. rewrite length_map. now apply encodeFields_exported.
Qed.

Lemma Encode_struct_as_string_map_witness :
  forallb (fun p => IsExported (fst p))
    [(mkField "Name" "", VString "Alice"); (mkField "Age" "", VInt Int 25)] = true
  /\ Encode (VStruct [(mkField "Name" "", VString "Alice"); (mkField "Age" "", VInt Int 25)])
     = Encode (VMapString [("Name", VString "Alice"); ("Age", VInt Int 25)]).
Proof.
  split; [reflexivity|].
  apply (Encode_struct_as_string_map
           [(mkField "Name" "", VString "Alice"); (mkField "Age" "", VInt Int 25)]).
  reflexivity.
Defined.

Lemma encodeIfaceElems_map {A : Type} (inj : A -> value) (enc : A -> result)
  (l : list A) :
  (forall a, Encode (inj a) = enc a) ->
  (forall a s, inj a <> VString s) ->
  forall resp, encodeIfaceElems Encode (map inj l) resp = encodeElems enc l resp.
Proof.
  intros Henc Hns. induction l as [|a l IH]; intros resp; [reflexivity|].
  cbn [map]. rewrite encodeIfaceElems_cons.
  destruct (inj a) eqn:E; try (now apply Hns in E);
    rewrite <- E, Henc; cbn [encodeElems]; destruct (enc a) as [w [e|]];
    try reflexivity; apply IH.
Qed.

(** X21: a slice of integers, of booleans or of floats is encoded exactly
    as the []interface{} array of the same elements. *)
Theorem Encode_typed_slice_as_generic_array :
  (forall (k : intKind) (l : list Z),
      Encode (VInts k l) = Encode (VArray (map (VInt k) l)))
  /\ (forall l : list bool, Encode (VBools l) = Encode (VArray (map VBool l)))
  /\ (forall (k : floatKind) (l : list Strconv.float64),
        Encode (VFloats k l) = Encode (VArray (map (VFloat k) l))).
Proof.
  repeat split; intros; cbn [Encode]; rewrite length_map; symmetry;
    apply encodeIfaceElems_map; intros; (reflexivity || discriminate).
Qed.

Lemma encodeStringElems_spec (l : list string) :
  forall resp, encodeStringElems l resp = (resp ++ joinAll (map simpleWire l), None).
Proof.
  induction l as [|s l IH]; intros resp; cbn [encodeStringElems map joinAll].
  - now rewrite app_empty_r.
  - rewrite IH. unfold simpleWire at 2. now rewrite !app_assoc.
Qed.

(** X22: a []string is encoded, without an error, as an array of Simple
    Strings whatever the length of its elements; it is encoded as the
    []interface{} array of the same strings when none is longer than 16
    bytes. *)
Theorem Encode_string_slice :
  forall l : list string,
    Encode (VStrings l)
    = ("*" ++ Strconv.Itoa (Z.of_nat (List.length l)) ++ CRLF
         ++ joinAll (map simpleWire l), None)
    /\ ((forall s, In s l -> len s <= 16) ->
        Encode (VStrings l) = Encode (VArray (map VString l))).
Proof.
  intros l.
  assert (H : Encode (VStrings l)
              = ("*" ++ Strconv.Itoa (Z.of_nat (List.length l)) ++ CRLF
                   ++ joinAll (map simpleWire l), None)).
  { cbn [Encode]. rewrite encodeStringElems_spec. now rewrite !app_assoc. }
  split; [exact H|]. intros Hl. rewrite H. cbn [Encode].
  rewrite encodeIfaceElems_spec
    by (intros e He; apply in_map_iff in He; destruct He as (s & <- & _);
        now rewrite Encode_string).
  rewrite length_map, !app_assoc, map_map. do 4 f_equal.
  apply joinAll_ext. intros s Hs. cbn [elementWire]. unfold stringWire, simpleWire.
  destruct (Z.leb_spec (len s) 16) as [_|Hgt]; [reflexivity|].
  specialize (Hl s Hs). lia.
Qed.

Lemma Encode_string_slice_witness :
  (forall s, In s ["GET"; "sixteen bytes ok"] -> len s <= 16)
  /\ Encode (VStrings ["GET"; "sixteen bytes ok"])
     = Encode (VArray (map VString ["GET"; "sixteen bytes ok"])).
Proof.
  assert (H : forall s, In s ["GET"; "sixteen bytes ok"] -> len s <= 16).
  { intros s [<-|[<-|[]]]; apply Z.leb_le; vm_compute; reflexivity. }
  split; [exact H|].
  exact (proj2 (Encode_string_slice ["GET"; "sixteen bytes ok"]) H).
Defined.

Lemma encodeIfacePairs_stringKeyed (m : list (string * value)) :
  forall resp,
    encodeIfacePairs Encode (map stringKeyed m) resp = encodeStringPairs Encode m resp.
Proof.
  induction m as [|[k x] m IH]; intros resp; [reflexivity|].
  cbn [map stringKeyed fst snd encodeIfacePairs encodeStringPairs].
  destruct (Encode x) as [w [e|]]; [reflexivity|].
  fold (encodeIfacePairs Encode) (encodeStringPairs Encode).
  rewrite IH. now rewrite !app_assoc.
Qed.

(** X23: a map[interface{}]interface{} whose keys are all strings is
    encoded exactly as the string-keyed map of the same pairs. *)
Theorem Encode_generic_map_with_string_keys :
  forall m : list (string * value),
    Encode (VMapIface (map stringKeyed m)) = Encode (VMapString m).
Proof.
  intros m. cbn [Encode]. rewrite length_map. apply encodeIfacePairs_stringKeyed.
Qed.

Let P (v : value) : Prop := encodeOutcome (encodable v) (Encode v).

Lemma encodeOutcome_step (x : value) (rest : bool) (k : string -> result) :
  P x ->
  (forall w, encodeOutcome rest (k w)) ->
  encodeOutcome (encodable x && rest)
    match Encode x with
    | (_, Some err) => (EmptyString, Some err)
    | (w, None) => k w
    end.
Proof.
  unfold P, encodeOutcome. intros Hx Hk.
  destruct (encodable x); cbn [andb].
  - destruct (Encode x) as [w e]. cbn [snd] in Hx. subst e. apply Hk.
  - destruct Hx as (typ & ->). now exists typ.
Qed.

Lemma encodeIfaceElems_outcome (l : list value) :
  Forall P l ->
  forall resp, encodeOutcome (forallb encodable l) (encodeIfaceElems Encode l resp).
Proof.
  induction 1 as [|x l Hx _ IH]; intros resp; [reflexivity|].
  rewrite encodeIfaceElems_cons. cbn [forallb].
  destruct x; try (apply (encodeOutcome_step _ _ _ Hx); intros; apply IH).
  destruct (len s <=? 12); [apply IH|].
  apply (encodeOutcome_step _ _ _ Hx); intros; apply IH.
Qed.

Lemma encodeStringPairs_outcome (m : list (string * value)) :
  Forall (fun p => P (snd p)) m ->
  forall resp,
    encodeOutcome (forallb (fun p => let '(_, x) := p in encodable x) m)
      (encodeStringPairs Encode m resp).
Proof.
  induction 1 as [|[k x] m Hx _ IH]; intros resp; [reflexivity|].
  cbn [forallb encodeStringPairs]. fold (encodeStringPairs Encode).
  apply (encodeOutcome_step _ _ _ Hx); intros; apply IH.
Qed.

Lemma encodeIfacePairs_outcome (m : list (value * value)) :
  Forall (fun p => P (fst p) /\ P (snd p)) m ->
  forall resp,
    encodeOutcome (forallb (fun p => let '(k, x) := p in encodable k && encodable x) m)
      (encodeIfacePairs Encode m resp).
Proof.
  induction 1 as [|[k x] m [Hk Hx] _ IH]; intros resp; [reflexivity|].
  cbn [forallb encodeIfacePairs fst snd] in *. fold (encodeIfacePairs Encode).
  assert (Hrest : forall keyStr,
             encodeOutcome
               (encodable x
                && forallb (fun p => let '(k, x) := p in encodable k && encodable x) m)
               match Encode x with
               | (_, Some err) => (EmptyString, Some err)
               | (valueStr, None) =>
                   encodeIfacePairs Encode m (resp ++ keyStr ++ valueStr)
               end).
  { intros keyStr. apply (encodeOutcome_step _ _ _ Hx); intros; apply IH. }
  rewrite <- andb_assoc.
  assert (Hkey : (exists s, k = VString s)
                 \/ match k with
                    | VString key => ("+" ++ key ++ CRLF, None)
                    | key => Encode key
                    end = Encode k)
    by (destruct k; eauto).
  destruct Hkey as [(s & ->) | ->]; [apply Hrest|].
  unfold P, encodeOutcome in Hk.
  destruct (encodable k); cbn [andb].
  - destruct (Encode k) as [w e]. cbn [snd] in Hk. subst e. apply Hrest.
  - destruct Hk as (typ & ->). now exists typ.
Qed.

Lemma encodeFields_outcome (fields : list (StructField * value)) :
  Forall (fun p => P (snd p)) fields ->
  forall resp,
    encodeOutcome
      (forallb (fun p => let '(f, x) := p in negb (IsExported f) || encodable x) fields)
      (encodeFields Encode fields resp).
Proof.
  induction 1 as [|[f x] fields Hx _ IH]; intros resp; [reflexivity|].
  rewrite encodeFields_cons. cbn [forallb snd] in *.
  destruct (IsExported f); cbn [negb orb]; [|apply IH].
  apply (encodeOutcome_step _ _ _ Hx); intros; apply IH.
Qed.

(** X24: Encode succeeds exactly on the values that hold no int64-keyed map
    and no value of an unsupported type at a place it visits; on every
    other value it returns the empty string (nothing of what was built so
    far) with an unsupported-type error. *)
Theorem Encode_fails_exactly_on_unsupported_values :
  forall v : value,
    (encodable v = true -> snd (Encode v) = None)
    /\ (encodable v = false ->
        exists typ, Encode v = (EmptyString, Some (ErrUnsupportedType typ))).
Proof.
  assert (H : forall v, P v).
  { apply value_nested_ind; intros; unfold P; try reflexivity.
    - cbn [Encode encodable encodeString]. unfold encodeString. now destruct (_ <=? _).
    - cbn [Encode encodable]. now destruct b.
    - now apply encodeIfaceElems_outcome.
    - cbn [Encode encodable]. unfold encodeOutcome. now rewrite encodeStringElems_spec.
    - cbn [Encode encodable]. unfold encodeOutcome.
      generalize ("*" ++ Strconv.Itoa (Z.of_nat (List.length elems)) ++ CRLF).
      induction elems; intros; cbn; auto.
    - cbn [Encode encodable]. unfold encodeOutcome.
      generalize ("*" ++ Strconv.Itoa (Z.of_nat (List.length elems)) ++ CRLF).
      induction elems as [|[] ?]; intros; cbn; auto.
    - cbn [Encode encodable]. unfold encodeOutcome.
      generalize ("*" ++ Strconv.Itoa (Z.of_nat (List.length elems)) ++ CRLF).
      induction elems; intros; cbn; auto.
    - now apply encodeStringPairs_outcome.
    - cbn. now eexists.
    - now apply encodeIfacePairs_outcome.
    - now apply encodeFields_outcome.
    - cbn. now eexists. }
  intros v. specialize (H v). unfold P, encodeOutcome in H.
  split; intros E; now rewrite E in H.
Qed.

Lemma Encode_fails_exactly_on_unsupported_values_witness :
  let v := VArray [VString "ids"; VMapInt64 [(1, VString "one")]] in
  encodable v = false
  /\ exists typ, Encode v = (EmptyString, Some (ErrUnsupportedType typ)).
Proof.
  cbv zeta. split; [reflexivity|].
  exact (proj2 (Encode_fails_exactly_on_unsupported_values
                  (VArray [VString "ids"; VMapInt64 [(1, VString "one")]])) eq_refl).
Defined.

End EncodeForms.

Section StructRoundTrip.

Lemma fieldWire_pairWire (fields : list (StructField * value)) :
  joinAll (map fieldWire fields) = joinAll (map pairWire (map fieldPair fields)).
Proof. rewrite map_map. reflexivity. Qed.

Lemma fields_decodeBack (fields : list (StructField * value)) :
  forallb (fun p => noLF (Name (fst p)) && roundTrips (snd p)) fields = true ->
  Forall (fun p => IndexByte (fst p) LF = None /\ decodesBack (snd p))
    (map fieldPair fields)
  /\ (forall p, In p fields -> snd (Encode (snd p)) = None).
Proof.
  intros H. rewrite forallb_forall in H. split.
  - apply Forall_forall. intros p Hp. apply in_map_iff in Hp.
    destruct Hp as ([f x] & <- & Hin). specialize (H _ Hin). cbn [fst snd] in *.
    apply andb_true_iff in H. destruct H as [Hn Hx]. split; [now apply noLF_true|].
    now apply roundTrips_decodesBack.
  - intros [f x] Hin. specialize (H _ Hin). cbn [fst snd] in *.
    apply andb_true_iff in H. now apply roundTrips_decodesBack.
Qed.

(** X25: the encoding of a struct whose fields are all exported, with
    distinct one-line names and values in the round-trip domain, is decoded
    to the string-keyed map from field names to field values, when the
    encoding lies within the bytes available to the call and within the
    allocation limit. *)
Theorem Decode_Encode_struct_is_string_map :
  forall (fields : list (StructField * value)) (reader : Reader) (rest : string),
    forallb (fun p => IsExported (fst p)) fields = true ->
    forallb (fun p => noLF (Name (fst p)) && roundTrips (snd p)) fields = true ->
    distinct (map (fun p => Name (fst p)) fields) = true ->
    stream reader = fst (Encode (VStruct fields)) ++ rest ->
    (String.length (fst (Encode (VStruct fields))) <= available reader)%nat ->
    16 * len (fst (Encode (VStruct fields))) <= maxAlloc ->
    snd (Encode (VStruct fields)) = None
    /\ exists reader',
         Decode reader = Return (VMapString (map fieldPair fields)) None reader'
         /\ stream reader' = rest.
Proof.
  intros fields reader rest Hexp Hrt Hd Hs Ha Hb.
  assert (Hv : roundTrips (VMapString (map fieldPair fields)) = true).
  { cbn [roundTrips]. apply andb_true_iff. split.
    - rewrite forallb_forall in *. intros p Hp. apply in_map_iff in Hp.
      destruct Hp as ([f x] & <- & Hin). exact (Hrt _ Hin).
    - now rewrite map_map. }
  assert (He : Encode (VStruct fields) = Encode (VMapString (map fieldPair fields))).
  { cbn [Encode]. rewrite length_map. now apply encodeFields_exported. }
  rewrite He in *.
  destruct (roundTrips_decodesBack _ Hv) as [Hnone [_ Hdec]]. split; [exact Hnone|].
  destruct (buffered_holds reader _ rest Hs Ha) as (tail & src & Hbuf & Hrest).
  exists (mkReader tail src (extra reader)). split; [|exact Hrest].
  rewrite Decode_buffered_eq, Hbuf. now apply Hdec.
Qed.

Lemma Decode_Encode_struct_is_string_map_witness :
  let fields := [(mkField "Name" "", VString "Alice"); (mkField "Age" "", VInt Int64 25)] in
  let reader := NewReader (fst (Encode (VStruct fields))) in
  forallb (fun p => IsExported (fst p)) fields = true
  /\ forallb (fun p => noLF (Name (fst p)) && roundTrips (snd p)) fields = true
  /\ distinct (map (fun p => Name (fst p)) fields) = true
  /\ stream reader = fst (Encode (VStruct fields)) ++ ""
  /\ (String.length (fst (Encode (VStruct fields))) <= available reader)%nat
  /\ 16 * len (fst (Encode (VStruct fields))) <= maxAlloc
  /\ exists reader',
       Decode reader
       = Return (VMapString [("Name", VString "Alice"); ("Age", VInt Int64 25)]) None reader'
       /\ stream reader' = "".
Proof.
  cbv zeta.
  split; [reflexivity|]. split; [reflexivity|]. split; [reflexivity|].
  split; [reflexivity|].
  split; [apply Nat.leb_le; vm_compute; reflexivity|].
  split; [apply Z.leb_le; vm_compute; reflexivity|].
  apply (Decode_Encode_struct_is_string_map
           [(mkField "Name" "", VString "Alice"); (mkField "Age" "", VInt Int64 25)]
           _ "").
  - reflexivity.
  - reflexivity.
  - reflexivity.
  - reflexivity.
  - apply Nat.leb_le; vm_compute; reflexivity.
  - apply Z.leb_le; vm_compute; reflexivity.
Defined.

Lemma filter_length_lt {A : Type} (f : A -> bool) (l : list A) :
  forallb f l = false -> (List.length (filter f l) < List.length l)%nat.
Proof.
  induction l as [|a l IH]; cbn [forallb filter List.length]; [discriminate|].
  pose proof (filter_length_le f l) as Hle.
  destruct (f a); cbn [andb List.length]; intros Hf; [apply IH in Hf|]; lia.
Qed.

(** X26: take a struct with a field that is not exported, whose exported
    fields have distinct one-line names and values in the round-trip
    domain.  When its encoding is all the reader holds and lies within the
    bytes available to the call, Decode reports partial input: the header
    counts the skipped field and the map loop runs out of bytes. *)
Theorem Decode_Encode_struct_with_unexported_field :
  forall (fields : list (StructField * value)) (reader : Reader),
    forallb (fun p => IsExported (fst p)) fields = false ->
    forallb (fun p => noLF (Name (fst p)) && roundTrips (snd p))
      (exportedFields fields) = true ->
    distinct (map (fun p => Name (fst p)) (exportedFields fields)) = true ->
    stream reader = fst (Encode (VStruct fields)) ->
    (String.length (fst (Encode (VStruct fields))) <= available reader)%nat ->
    16 * len (fst (Encode (VStruct fields))) <= maxAlloc ->
    Z.of_nat (List.length fields) * 2 <= maxInt ->
    snd (Encode (VStruct fields)) = None
    /\ Decode reader
       = Return VNil (Some ErrUnexpectedEOF) (mkReader "" "" (extra reader)).
Proof.
  intros fields reader Hexp Hrt Hd Hs Ha Hb Hmax.
  destruct (fields_decodeBack _ Hrt) as [Hdb Henc].
  destruct (encodeStruct_spec fields Henc) as [He1 He2].
  rewrite He1, He2 in *. cbn [fst snd] in *. split; [reflexivity|].
  rewrite fieldWire_pairWire in *.
  assert (Hav : available reader = String.length (stream reader)).
  { apply Nat.le_antisymm; [|now rewrite Hs].
    unfold available, stream. destruct (buf reader); cbn [append String.length];
      [apply Nat.le_min_r | rewrite length_app; lia]. }
  rewrite Hs in Hav. rewrite <- (app_empty_r (_ ++ _)) in Hs.
  rewrite Decode_buffered_eq, (buffered_exact reader _ "" Hs Hav).
  pose proof (filter_length_lt _ _ Hexp) as Hlt. fold (exportedFields fields) in Hlt.
  assert (Hnd : NoDup (map fst (map fieldPair (exportedFields fields))))
    by (rewrite map_map; now apply distinct_NoDup).
  pose proof (Decode_map_buffered (map fieldPair (exportedFields fields))
                (Z.of_nat (List.length fields) * 2) "" "" (extra reader) Hdb Hnd) as H.
  rewrite length_map, !app_empty_r in H.
  rewrite !app_assoc in *.
  apply H; auto; lia.
Qed.

Lemma Decode_Encode_struct_with_unexported_field_witness :
  let fields := [(mkField "Name" "", VString "Alice"); (mkField "age" "main", VInt Int 25)] in
  let reader := NewReader (fst (Encode (VStruct fields))) in
  forallb (fun p => IsExported (fst p)) fields = false
  /\ forallb (fun p => noLF (Name (fst p)) && roundTrips (snd p))
       (exportedFields fields) = true
  /\ distinct (map (fun p => Name (fst p)) (exportedFields fields)) = true
  /\ stream reader = fst (Encode (VStruct fields))
  /\ (String.length (fst (Encode (VStruct fields))) <= available reader)%nat
  /\ 16 * len (fst (Encode (VStruct fields))) <= maxAlloc
  /\ Z.of_nat (List.length fields) * 2 <= maxInt
  /\ snd (Encode (VStruct fields)) = None
  /\ Decode reader = Return VNil (Some ErrUnexpectedEOF) (NewReader "").
Proof.
  cbv zeta.
  split; [reflexivity|]. split; [reflexivity|]. split; [reflexivity|].
  split; [reflexivity|].
  split; [apply Nat.leb_le; vm_compute; reflexivity|].
  split; [apply Z.leb_le; vm_compute; reflexivity|].
  split; [apply Z.leb_le; vm_compute; reflexivity|].
  apply (Decode_Encode_struct_with_unexported_field
           [(mkField "Name" "", VString "Alice"); (mkField "age" "main", VInt Int 25)]
           (NewReader (fst (Encode (VStruct [(mkField "Name" "", VString "Alice");
                                             (mkField "age" "main", VInt Int 25)]))))).
  - reflexivity.
  - reflexivity.
  - reflexivity.
  - reflexivity.
  - apply Nat.leb_le; vm_compute; reflexivity.
  - apply Z.leb_le; vm_compute; reflexivity.
  - apply Z.leb_le; vm_compute; reflexivity.
Defined.

End StructRoundTrip.

(** ** The values and panics of Decode *)

Section DecodedValues.

#[local] Arguments Discard : simpl never.
#[local] Arguments readPayload : simpl never.
#[local] Arguments readLineCRLF : simpl never.
#[local] Arguments ReadByte : simpl never.
#[local] Arguments Strconv.Atoi : simpl never.
#[local] Arguments Strconv.ParseFloat : simpl never.
#[local] Arguments wrap : simpl never.
#[local] Arguments makeslice : simpl never.
#[local] Arguments Buffered : simpl never.
#[local] Arguments pending : simpl never.

Ltac case_step :=
  match goal with
  | |- context [readLineCRLF ?x] => destruct (readLineCRLF x) as [[? ?] ?]
  | |- context [readPayload ?x ?n] => destruct (readPayload x n) as [[? ?] ?]
  | |- context [Discard ?x ?n] => destruct (Discard x n) as [? ?]
  | |- context [ReadByte ?x] => destruct (ReadByte x) as [[? ?] ?]
  | |- context [Strconv.Atoi ?x] => destruct (Strconv.Atoi x) as [? [?|]]
  | |- context [Strconv.ParseFloat ?x] => destruct (Strconv.ParseFloat x) as [? [?|]]
  | |- context [match ?x with _ => _ end] => is_var x; destruct x
  | |- context [if ?x then _ else _] => destruct x
  end; cbn [isEOF atoiError parseFloatError].

Ltac decoded_done :=
  cbn [decodedOutcome decoded];
  first [ exact I
        | split;
          [ reflexivity
          | intros Hne;
            first [now left | right; left; now eexists | now right; right | congruence] ] ].

Lemma Decode__scalar_decoded (f : nat) (r r1 : Reader) (c : ascii) :
  ReadByte r = (c, None, r1) ->
  c <> "*"%char -> c <> "%"%char ->
  decodedOutcome (Decode_ (S f) r).
Proof.
  intros H Ha Hm. cbn [Decode_]. rewrite H.
  destruct c as [[] [] [] [] [] [] [] []]; try congruence; clear;
    repeat case_step; decoded_done.
Qed.

Lemma forallb_mapassign {K : Type} (eq : K -> K -> bool) (Q : K * value -> bool)
  (m : list (K * value)) (key : K) (v : value) :
  forallb Q m = true -> Q (key, v) = true -> forallb Q (mapassign eq m key v) = true.
Proof.
  intros Hm Hq. induction m as [|[k x] m IH]; cbn [mapassign forallb] in *.
  - now rewrite Hq.
  - apply andb_true_iff in Hm. destruct Hm as [Hk Hm].
    destruct (eq k key); cbn [forallb]; [now rewrite Hq, Hm | now rewrite Hk, IH].
Qed.

Lemma distinctBy_mapassign {K : Type} (eqb : K -> K -> bool)
  (m : list (K * value)) (key : K) (v : value) :
  (forall a b, eqb a b = true <-> a = b) ->
  distinctBy eqb (map fst m) = true ->
  distinctBy eqb (map fst (mapassign eqb m key v)) = true.
Proof.
  intros Heq H. apply (distinctBy_NoDup eqb _ Heq).
  apply (NoDup_mapassign eqb Heq). now apply (distinctBy_NoDup eqb _ Heq).
Qed.

Lemma toStringMap_decoded (tempMap : list (value * value)) :
  forall finalMap res,
    decoded (VMapIface tempMap) = true ->
    decoded (VMapString finalMap) = true ->
    toStringMap tempMap finalMap = Some res ->
    decoded (VMapString res) = true.
Proof.
  induction tempMap as [|[k x] tm IH]; intros fm res Ht Hf; cbn [toStringMap].
  - now intros [= <-].
  - cbn [decoded forallb] in Ht. apply andb_true_iff in Ht. destruct Ht as [Hk Ht].
    apply andb_true_iff in Hk. destruct Hk as [_ Hx].
    destruct k; try discriminate. apply IH; [exact Ht|].
    cbn [decoded] in *. apply andb_true_iff in Hf. destruct Hf as [Hf Hd].
    apply andb_true_iff. split; [now apply forallb_mapassign|].
    apply distinctBy_mapassign; [apply String.eqb_eq | exact Hd].
Qed.

Lemma toInt64Map_decoded (tempMap : list (value * value)) :
  forall finalMap res,
    decoded (VMapIface tempMap) = true ->
    decoded (VMapInt64 finalMap) = true ->
    toInt64Map tempMap finalMap = Some res ->
    decoded (VMapInt64 res) = true.
Proof.
  induction tempMap as [|[k x] tm IH]; intros fm res Ht Hf; cbn [toInt64Map].
  - now intros [= <-].
  - cbn [decoded forallb] in Ht. apply andb_true_iff in Ht. destruct Ht as [Hk Ht].
    apply andb_true_iff in Hk. destruct Hk as [_ Hx].
    destruct k as [ | | [] n | | | | | | | | | | | | | | ]; try discriminate.
    apply IH; [exact Ht|].
    cbn [decoded] in *. apply andb_true_iff in Hf. destruct Hf as [Hf Hd].
    apply andb_true_iff. split; [now apply forallb_mapassign|].
    apply distinctBy_mapassign; [apply Z.eqb_eq | exact Hd].
Qed.

Lemma fuel_decoded (f : nat) :
  (forall r, decodedOutcome (Decode_ f r))
  /\ (forall r count i array,
         forallb decoded array = true ->
         decodedOutcome (decodeArray_ f r count i array))
  /\ (forall r size i tempMap s k,
         decoded (VMapIface tempMap) = true ->
         decodedMapLoop (decodeMap_ f r size i tempMap s k)).
Proof.
  induction f as [|f (IHd & IHa & IHm)]; [repeat split|].
  split; [|split].
  - intros r. destruct (ReadByte r) as [[c [e|]] r1] eqn:H.
    + cbn [Decode_]. rewrite H. destruct e; decoded_done.
    + destruct (Ascii.eqb_spec c "*") as [->|Ha];
        [|destruct (Ascii.eqb_spec c "%") as [->|Hm]].
      * rewrite (Decode__array _ _ _ H).
        destruct (readLineCRLF r1) as [[line e] r2].
        destruct e as [[]|]; cbn [isEOF]; try decoded_done.
        destruct (Strconv.Atoi line) as [n [k|]]; cbn [atoiError]; try decoded_done.
        destruct (n =? -1); [decoded_done|].
        destruct (negb (makeslice 16 n)); [exact I | now apply IHa].
      * rewrite (Decode__map _ _ _ H).
        destruct (readLineCRLF r1) as [[line e] r2].
        destruct (Strconv.Atoi line) as [size e'].
        pose proof (IHm r2 size 0 [] true true eq_refl) as Hk.
        destruct (decodeMap_ f r2 size 0 [] true true) as [tm s k r3|o];
          [|exact Hk].
        cbn [decodedMapLoop] in Hk.
        destruct s; [|destruct k].
        -- destruct (toStringMap tm []) as [fm|] eqn:E; [|exact I].
           split; [|congruence]. now apply (toStringMap_decoded tm [] fm Hk).
        -- destruct (toInt64Map tm []) as [fm|] eqn:E; [|exact I].
           split; [|congruence]. now apply (toInt64Map_decoded tm [] fm Hk).
        -- split; [exact Hk | congruence].
      * apply (Decode__scalar_decoded _ _ _ _ H Ha Hm).
  - intros r count i array Harr. cbn [decodeArray_].
    destruct (i <? count); [|split; [exact Harr | congruence]].
    destruct (Buffered r =? 0); [decoded_done|].
    pose proof (IHd r) as Hd.
    destruct (Decode_ f r) as [v e r1| |]; [|exact I|exact I].
    destruct e as [[]|]; cbn [isEOF]; try decoded_done.
    apply IHa. rewrite forallb_app, Harr. cbn [forallb]. destruct Hd as [-> _]. reflexivity.
  - intros r size i tempMap s k Hmap. cbn [decodeMap_].
    destruct (i <? size); [|exact Hmap].
    destruct (Buffered r =? 0); [decoded_done|].
    pose proof (IHd r) as Hd.
    destruct (Decode_ f r) as [key e r1| |]; [|exact I|exact I].
    destruct e as [[]|]; cbn [isEOF]; try decoded_done.
    pose proof (IHd r1) as Hd1.
    destruct (Decode_ f r1) as [val e r2| |]; [|exact I|exact I].
    destruct e as [[]|]; cbn [isEOF]; try decoded_done.
    destruct Hd as [Hkey _]. destruct Hd1 as [Hval _].
    assert (Hassign : forall s' k',
               isNull key = false -> hashable key = true ->
               decodedMapLoop
                 (decodeMap_ f r2 size (wrap (i + 2))
                    (mapassign keyEq tempMap key val) s' k')).
    { intros s' k' Hnn Hh. apply IHm. cbn [decoded] in *.
      apply forallb_mapassign; [exact Hmap|]. now rewrite Hh, Hnn, Hkey, Hval. }
    destruct key; try (apply IHm; exact Hmap);
      try (destruct (negb (hashable _)) eqn:Hh;
           [exact I | apply Hassign; [reflexivity | now apply negb_false_iff]]).
    destruct k0;
      (destruct (negb (hashable _)) eqn:Hh;
       [exact I | apply Hassign; [reflexivity | now apply negb_false_iff]]).
Qed.

(** X27: whatever Decode returns is, at every depth, a value of the
    decoder's own types (never a typed slice, a struct, a time, an integer
    other than int64 or a float32), typed maps have distinct keys and
    generic maps have hashable keys other than Null; with an error the
    value is nil, except for the float of a Float record and the false of
    a Boolean record. *)
Theorem Decode_returns_decoder_values :
  forall (reader reader' : Reader) (v : value) (err : option error),
    Decode reader = Return v err reader' ->
    decoded v = true
    /\ (err <> None ->
        v = VNil \/ (exists f, v = VFloat Float64 f) \/ v = VBool false).
Proof.
  intros reader reader' v err H.
  pose proof (proj1 (fuel_decoded (2 * pending reader + 2)) reader) as Hd.
  unfold Decode in H. now rewrite H in Hd.
Qed.

Lemma Decode_returns_decoder_values_witness :
  let reader := NewReader (",1e999" ++ CRLF) in
  let v := VFloat Float64 (SpecFloat.S754_infinity false) in
  let err := Some (NumError "ParseFloat" "1e999" Strconv.ErrRange) in
  Decode reader = Return v err (NewReader "")
  /\ decoded v = true
  /\ (err <> None ->
      v = VNil \/ (exists f, v = VFloat Float64 f) \/ v = VBool false).
Proof.
  cbv zeta.
  assert (H : Decode (NewReader (",1e999" ++ CRLF))
              = Return (VFloat Float64 (SpecFloat.S754_infinity false))
                  (Some (NumError "ParseFloat" "1e999" Strconv.ErrRange))
                  (NewReader ""))
    by (vm_compute; reflexivity).
  split; [exact H | apply (Decode_returns_decoder_values _ _ _ _ H)].
Defined.

Lemma Decode__scalar_no_assertion (f : nat) (r r1 : Reader) (c : ascii) :
  ReadByte r = (c, None, r1) ->
  c <> "*"%char -> c <> "%"%char ->
  Decode_ (S f) r <> Panic TypeAssertion.
Proof.
  intros H Ha Hm. cbn [Decode_]. rewrite H.
  destruct c as [[] [] [] [] [] [] [] []]; try congruence; clear;
    repeat case_step; discriminate.
Qed.

Lemma fuel_no_assertion (f : nat) :
  (forall r, Decode_ f r <> Panic TypeAssertion)
  /\ (forall r count i array, decodeArray_ f r count i array <> Panic TypeAssertion)
  /\ (forall r size i tempMap s k,
         decodeMap_ f r size i tempMap s k <> MapLeft (Panic TypeAssertion)).
Proof.
  induction f as [|f (IHd & IHa & IHm)]; [repeat split; discriminate|].
  split; [|split].
  - intros r. destruct (ReadByte r) as [[c [e|]] r1] eqn:H.
    + cbn [Decode_]. rewrite H. destruct e; discriminate.
    + destruct (Ascii.eqb_spec c "*") as [->|Ha];
        [|destruct (Ascii.eqb_spec c "%") as [->|Hm]].
      * rewrite (Decode__array _ _ _ H).
        destruct (readLineCRLF r1) as [[line e] r2].
        destruct e as [[]|]; cbn [isEOF]; try discriminate.
        destruct (Strconv.Atoi line) as [n [k|]]; cbn [atoiError]; try discriminate.
        destruct (n =? -1); [discriminate|].
        destruct (negb (makeslice 16 n)); [discriminate | apply IHa].
      * rewrite (Decode__map _ _ _ H).
        destruct (readLineCRLF r1) as [[line e] r2].
        destruct (Strconv.Atoi line) as [size e'].
        pose proof (decodeMap__spec f r2 size 0 [] true true) as Hspec.
        pose proof (IHm r2 size 0 [] true true) as Hk.
        destruct (decodeMap_ f r2 size 0 [] true true) as [tm s k r3|o];
          [|congruence].
        destruct Hspec as (pairs & _ & -> & -> & ->). cbn [andb].
        fold (buildMap keyEq (surviving pairs)).
        destruct (forallb isStringKey (map fst (surviving pairs))) eqn:Hs.
        -- now rewrite (toStringMap_buildMap _ Hs).
        -- destruct (forallb isInt64Key (map fst (surviving pairs))) eqn:Hi;
             [now rewrite (toInt64Map_buildMap _ Hi) | discriminate].
      * apply (Decode__scalar_no_assertion _ _ _ _ H Ha Hm).
  - intros r count i array. cbn [decodeArray_].
    destruct (i <? count); [|discriminate].
    destruct (Buffered r =? 0); [discriminate|].
    pose proof (IHd r) as Hd.
    destruct (Decode_ f r) as [v e r1|p|]; [|exact Hd|discriminate].
    destruct e as [[]|]; cbn [isEOF]; try discriminate. apply IHa.
  - intros r size i tempMap s k. cbn [decodeMap_].
    destruct (i <? size); [|discriminate].
    destruct (Buffered r =? 0); [discriminate|].
    pose proof (IHd r) as Hd.
    destruct (Decode_ f r) as [key e r1|p|]; [|congruence|discriminate].
    destruct e as [[]|]; cbn [isEOF]; try discriminate.
    pose proof (IHd r1) as Hd1.
    destruct (Decode_ f r1) as [val e r2|p|]; [|congruence|discriminate].
    destruct e as [[]|]; cbn [isEOF]; try discriminate.
    destruct key; try apply IHm;
      try (destruct (negb (hashable _)); [discriminate | apply IHm]).
    destruct k0; (destruct (negb (hashable _)); [discriminate | apply IHm]).
Qed.

(** X28: the type assertions of the two conversion loops of the map case
    never fail: Decode does not panic there, at any depth of nesting. *)
Theorem Decode_type_assertions_never_fail :
  forall reader : Reader, Decode reader <> Panic TypeAssertion.
Proof. intros reader. apply (proj1 (fuel_no_assertion _)). Qed.

(** X30: for a Bulk String, a Verbatim String and an Array, a length or
    count line that Atoi reads as -1 gives Null without an error; only the
    tag and the line are consumed. *)
Theorem Decode_length_minus_one_is_null :
  forall (reader : Reader) (tag : ascii) (line rest : string),
    nullableTag tag = true ->
    stream reader = String tag (line ++ CRLF ++ rest) ->
    IndexByte line LF = None ->
    Strconv.Atoi line = (-1, None) ->
    exists reader',
      Decode reader = Return VNil None reader' /\ stream reader' = rest.
Proof.
  intros reader tag line rest Htag Hs Hl Ha.
  destruct (ReadByte_stream reader tag _ Hs) as (r1 & H1 & Hs1 & _).
  destruct (readLineCRLF_line r1 line rest Hs1 Hl) as (r2 & H2 & Hs2 & _).
  exists r2. split; [|exact Hs2].
  rewrite Decode_unfold. cbn [Decode_]. rewrite H1.
  unfold nullableTag in Htag. cbn [existsb] in Htag.
  repeat rewrite orb_true_iff in Htag. repeat rewrite Ascii.eqb_eq in Htag.
  destruct Htag as [-> | [-> | [-> | Hf]]]; [| | | discriminate];
    cbn match; rewrite H2; cbn [isEOF]; rewrite Ha; reflexivity.
Qed.

Lemma Decode_length_minus_one_is_null_witness :
  let reader := NewReader ("*-1" ++ CRLF ++ "+OK" ++ CRLF) in
  nullableTag "*" = true
  /\ stream reader = String "*" ("-1" ++ CRLF ++ "+OK" ++ CRLF)
  /\ IndexByte "-1" LF = None
  /\ Strconv.Atoi "-1" = (-1, None)
  /\ exists reader',
       Decode reader = Return VNil None reader' /\ stream reader' = "+OK" ++ CRLF.
Proof.
  cbv zeta. split; [reflexivity|]. split; [reflexivity|]. split; [reflexivity|].
  split; [reflexivity|].
  apply (Decode_length_minus_one_is_null
           (NewReader ("*-1" ++ CRLF ++ "+OK" ++ CRLF)) "*" "-1" ("+OK" ++ CRLF));
    reflexivity.
Defined.

End DecodedValues.

(** ** The loops of the array and map cases *)

Section LoopRuns.

#[local] Arguments Buffered : simpl never.
#[local] Arguments wrap : simpl never.
#[local] Arguments pending : simpl never.
#[local] Arguments makeslice : simpl never.
#[local] Arguments readLineCRLF : simpl never.
#[local] Arguments ReadByte : simpl never.
#[local] Arguments Strconv.Atoi : simpl never.

Lemma decodeArray__prefix (count : Z) (r : Reader) (elems : list value) (r' : Reader) :
  DecodesElems r elems r' ->
  forall (f : nat) (i : Z) (array : list value),
    0 <= i ->
    i + Z.of_nat (List.length elems) <= count ->
    count <= maxInt ->
    (2 * pending r + 2 <= f)%nat ->
    exists f',
      (2 * pending r' + 2 <= f')%nat
      /\ decodeArray_ f r count i array
         = decodeArray_ f' r' count (i + Z.of_nat (List.length elems))
             (array ++ elems).
Proof.
  induction 1 as [r|r r1 r' e rest Hb He Hrest IH]; intros f i array Hi Hle Hmax Hf.
  - exists f. cbn [List.length]. now rewrite Z.add_0_r, app_nil_r.
  - destruct f as [|f]; [lia|].
    pose proof (Decode_success_consumes _ _ _ He) as Hc.
    cbn [List.length] in Hle. cbn [decodeArray_].
    destruct (Z.ltb_spec i count); [|lia].
    destruct (Z.eqb_spec (Buffered r) 0); [contradiction|].
    assert (E : Decode_ f r = Return e None r1).
    { rewrite <- He. symmetry. apply (Decode_fuel f r); [reflexivity|].
      apply (proj1 (fuel_enough f)). lia. }
    rewrite E. cbn [isEOF]. rewrite (int_small (i + 1)) by lia.
    destruct (IH f (i + 1) (array ++ [e])%list) as (f' & Hf' & ->); try lia.
    exists f'. split; [exact Hf'|]. cbn [List.length].
    replace (i + 1 + Z.of_nat (List.length rest))
      with (i + Z.of_nat (S (List.length rest))) by lia.
    now rewrite <- List.app_assoc.
Qed.

(** X18: when the array loop finds the buffer empty before an element, after
    the header and any elements decoded without an error, Decode returns
    partial input and leaves the reader there, whatever the source still
    holds: the loop asks the buffer, not the source.  The count is one the
    slice can be allocated for: at most the number of bytes the reader
    holds, and within the allocation limit. *)
Theorem Decode_array_stops_at_buffer_end :
  forall (reader r1 r2 r' : Reader) (countStr : string) (count : Z)
         (elems : list value),
    ReadByte reader = ("*"%char, None, r1) ->
    readLineCRLF r1 = (countStr, None, r2) ->
    Strconv.Atoi countStr = (count, None) ->
    count <= Z.of_nat (pending reader) ->
    16 * count <= maxAlloc ->
    DecodesElems r2 elems r' ->
    Z.of_nat (List.length elems) < count ->
    Buffered r' = 0 ->
    Decode reader = Return VNil (Some ErrUnexpectedEOF) r'.
Proof.
  intros reader r1 r2 r' countStr count elems Hbyte Hline Hatoi Hheld Halloc
    Hd Hlt Hbuf.
  assert (Hmax : maxAlloc = 281474976710656) by reflexivity.
  assert (Hint : count <= maxInt).
  { unfold maxInt, intSize. change (2 ^ (64 - 1)) with 9223372036854775808. lia. }
  destruct (ReadByte_cases _ _ _ _ Hbyte) as [_ Hp1].
  destruct (readLineCRLF_cases _ _ _ _ Hline) as (_ & _ & _ & Hp2).
  rewrite Decode_unfold, (Decode__array _ _ _ Hbyte), Hline. cbn [isEOF].
  rewrite Hatoi. cbn [atoiError].
  destruct (Z.eqb_spec count (-1)); [lia|].
  assert (Hm : makeslice 16 count = true).
  { unfold makeslice. apply andb_true_iff. split; apply Z.leb_le; lia. }
  rewrite Hm. cbn [negb].
  destruct (decodeArray__prefix count r2 elems r' Hd (S (2 * pending reader)) 0 [])
    as (f' & Hf' & ->); try lia.
  destruct f' as [|f']; [lia|]. cbn [decodeArray_].
  destruct (Z.ltb_spec (0 + Z.of_nat (List.length elems)) count); [|lia].
  now rewrite Hbuf.
Qed.

Lemma Decode_array_stops_at_buffer_end_witness :
  let wire := "*2" ++ CRLF ++ ":123456789" ++ CRLF ++ ":1" ++ CRLF in
  let reader := NewReaderSize wire 16 in
  let r1 := mkReader ("2" ++ CRLF ++ ":123456789" ++ CRLF) (":1" ++ CRLF) 0 in
  let r2 := mkReader (":123456789" ++ CRLF) (":1" ++ CRLF) 0 in
  let r' := mkReader "" (":1" ++ CRLF) 0 in
  ReadByte reader = ("*"%char, None, r1)
  /\ readLineCRLF r1 = ("2", None, r2)
  /\ Strconv.Atoi "2" = (2, None)
  /\ 2 <= Z.of_nat (pending reader)
  /\ 16 * 2 <= maxAlloc
  /\ DecodesElems r2 [VInt Int64 123456789] r'
  /\ Z.of_nat (List.length [VInt Int64 123456789]) < 2
  /\ Buffered r' = 0
  /\ Decode reader = Return VNil (Some ErrUnexpectedEOF) r'.
Proof.
  cbv zeta.
  assert (H1 : ReadByte (NewReaderSize ("*2" ++ CRLF ++ ":123456789" ++ CRLF
                                          ++ ":1" ++ CRLF) 16)
               = ("*"%char, None,
                  mkReader ("2" ++ CRLF ++ ":123456789" ++ CRLF) (":1" ++ CRLF) 0))
    by (vm_compute; reflexivity).
  assert (H2 : readLineCRLF
                 (mkReader ("2" ++ CRLF ++ ":123456789" ++ CRLF) (":1" ++ CRLF) 0)
               = ("2", None, mkReader (":123456789" ++ CRLF) (":1" ++ CRLF) 0))
    by (vm_compute; reflexivity).
  assert (H3 : Strconv.Atoi "2" = (2, None)) by (vm_compute; reflexivity).
  assert (H4 : 2 <= Z.of_nat (pending (NewReaderSize ("*2" ++ CRLF ++ ":123456789"
                                                        ++ CRLF ++ ":1" ++ CRLF) 16)))
    by (apply Z.leb_le; vm_compute; reflexivity).
  assert (H5 : 16 * 2 <= maxAlloc) by (apply Z.leb_le; vm_compute; reflexivity).
  assert (H6 : DecodesElems (mkReader (":123456789" ++ CRLF) (":1" ++ CRLF) 0)
                 [VInt Int64 123456789] (mkReader "" (":1" ++ CRLF) 0)).
  { apply (elems_cons _ (mkReader "" (":1" ++ CRLF) 0));
      [vm_compute; discriminate | vm_compute; reflexivity | apply elems_nil]. }
  assert (H7 : Z.of_nat (List.length [VInt Int64 123456789]) < 2) by reflexivity.
  assert (H8 : Buffered (mkReader "" (":1" ++ CRLF) 0) = 0) by reflexivity.
  split; [exact H1|]. split; [exact H2|]. split; [exact H3|]. split; [exact H4|].
  split; [exact H5|]. split; [exact H6|]. split; [exact H7|]. split; [exact H8|].
  exact (Decode_array_stops_at_buffer_end _ _ _ _ _ _ _ H1 H2 H3 H4 H5 H6 H7 H8).
Defined.

(** X29: in a map record, after any pairs decoded in turn, a key that
    decodes to an array or a map, followed by a value that decodes without
    an error, makes Decode panic in the assignment to the temporary map.
    The declared size is at most the number of bytes that follow the
    header. *)
Theorem Decode_map_with_composite_key_panics :
  forall (reader r1 r2 r r3 r4 : Reader) (line : string) (e : option error)
         (size : Z) (e' : option Strconv.numerr)
         (pairs : list (value * value)) (key val : value),
    ReadByte reader = ("%"%char, None, r1) ->
    readLineCRLF r1 = (line, e, r2) ->
    Strconv.Atoi line = (size, e') ->
    size <= maxInt ->
    size <= Z.of_nat (pending r2) ->
    RecordPairs r2 pairs r ->
    2 * Z.of_nat (List.length pairs) < size ->
    Buffered r <> 0 ->
    Decode r = Return key None r3 ->
    Decode r3 = Return val None r4 ->
    hashable key = false ->
    Decode reader = Panic UnhashableKey.
Proof.
  intros reader r1 r2 r r3 r4 line e size e' pairs key val
    Hbyte Hline Hatoi Hint Hheld Hd Hlt Hb Hk Hv Hh.
  destruct (ReadByte_cases _ _ _ _ Hbyte) as [_ Hp1].
  destruct (readLineCRLF_cases _ _ _ _ Hline) as (_ & _ & _ & Hp2).
  rewrite Decode_unfold, (Decode__map _ _ _ Hbyte), Hline, Hatoi.
  destruct (decodeMap__prefix size r2 pairs r Hd (S (2 * pending reader)) 0 [] true true)
    as (f' & Hf' & ->); try lia.
  pose proof (Decode_success_consumes _ _ _ Hk) as Hc.
  destruct f' as [|f']; [lia|]. cbn [decodeMap_].
  destruct (Z.ltb_spec (0 + 2 * Z.of_nat (List.length pairs)) size); [|lia].
  destruct (Z.eqb_spec (Buffered r) 0); [contradiction|].
  assert (E1 : Decode_ f' r = Return key None r3).
  { rewrite <- Hk. symmetry. apply (Decode_fuel f' r); [reflexivity|].
    apply (proj1 (fuel_enough f')). lia. }
  assert (E2 : Decode_ f' r3 = Return val None r4).
  { rewrite <- Hv. symmetry. apply (Decode_fuel f' r3); [reflexivity|].
    apply (proj1 (fuel_enough f')). lia. }
  rewrite E1. cbn [isEOF]. rewrite E2. cbn [isEOF].
  destruct key; try discriminate Hh; reflexivity.
Qed.

Lemma Decode_map_with_composite_key_panics_witness :
  let wire := "%4" ++ CRLF ++ "+a" ++ CRLF ++ ":1" ++ CRLF
                   ++ "*0" ++ CRLF ++ ":2" ++ CRLF in
  let reader := NewReader wire in
  let r1 := mkReader (drop 1 wire) "" 4080 in
  let r2 := mkReader (drop 4 wire) "" 4080 in
  let r := mkReader ("*0" ++ CRLF ++ ":2" ++ CRLF) "" 4080 in
  let r3 := mkReader (":2" ++ CRLF) "" 4080 in
  ReadByte reader = ("%"%char, None, r1)
  /\ readLineCRLF r1 = ("4", None, r2)
  /\ Strconv.Atoi "4" = (4, None)
  /\ 4 <= maxInt
  /\ 4 <= Z.of_nat (pending r2)
  /\ RecordPairs r2 [(VString "a", VInt Int64 1)] r
  /\ 2 * Z.of_nat (List.length [(VString "a", VInt Int64 1)]) < 4
  /\ Buffered r <> 0
  /\ Decode r = Return (VArray []) None r3
  /\ Decode r3 = Return (VInt Int64 2) None (NewReader "")
  /\ hashable (VArray []) = false
  /\ Decode reader = Panic UnhashableKey.
Proof.
  cbv zeta.
  assert (H1 : ReadByte (NewReader ("%4" ++ CRLF ++ "+a" ++ CRLF ++ ":1" ++ CRLF
                                      ++ "*0" ++ CRLF ++ ":2" ++ CRLF))
               = ("%"%char, None,
                  mkReader (drop 1 ("%4" ++ CRLF ++ "+a" ++ CRLF ++ ":1" ++ CRLF
                                      ++ "*0" ++ CRLF ++ ":2" ++ CRLF)) "" 4080))
    by (vm_compute; reflexivity).
  assert (H2 : readLineCRLF
                 (mkReader (drop 1 ("%4" ++ CRLF ++ "+a" ++ CRLF ++ ":1" ++ CRLF
                                      ++ "*0" ++ CRLF ++ ":2" ++ CRLF)) "" 4080)
               = ("4", None,
                  mkReader (drop 4 ("%4" ++ CRLF ++ "+a" ++ CRLF ++ ":1" ++ CRLF
                                      ++ "*0" ++ CRLF ++ ":2" ++ CRLF)) "" 4080))
    by (vm_compute; reflexivity).
  assert (H3 : Strconv.Atoi "4" = (4, None)) by (vm_compute; reflexivity).
  assert (H4 : 4 <= maxInt) by (apply Z.leb_le; vm_compute; reflexivity).
  assert (H5 : 4 <= Z.of_nat
                      (pending (mkReader (drop 4 ("%4" ++ CRLF ++ "+a" ++ CRLF ++ ":1"
                                  ++ CRLF ++ "*0" ++ CRLF ++ ":2" ++ CRLF)) "" 4080)))
    by (apply Z.leb_le; vm_compute; reflexivity).
  assert (H6 : RecordPairs
                 (mkReader (drop 4 ("%4" ++ CRLF ++ "+a" ++ CRLF ++ ":1" ++ CRLF
                                      ++ "*0" ++ CRLF ++ ":2" ++ CRLF)) "" 4080)
                 [(VString "a", VInt Int64 1)]
                 (mkReader ("*0" ++ CRLF ++ ":2" ++ CRLF) "" 4080)).
  { apply (record_cons _ (mkReader (":1" ++ CRLF ++ "*0" ++ CRLF ++ ":2" ++ CRLF) "" 4080)
             (mkReader ("*0" ++ CRLF ++ ":2" ++ CRLF) "" 4080));
      [vm_compute; discriminate | vm_compute; reflexivity | vm_compute; reflexivity
      | reflexivity | apply record_nil]. }
  assert (H7 : 2 * Z.of_nat (List.length [(VString "a", VInt Int64 1)]) < 4)
    by reflexivity.
  assert (H8 : Buffered (mkReader ("*0" ++ CRLF ++ ":2" ++ CRLF) "" 4080) <> 0)
    by (vm_compute; discriminate).
  assert (H9 : Decode (mkReader ("*0" ++ CRLF ++ ":2" ++ CRLF) "" 4080)
               = Return (VArray []) None (mkReader (":2" ++ CRLF) "" 4080))
    by (vm_compute; reflexivity).
  assert (H10 : Decode (mkReader (":2" ++ CRLF) "" 4080)
                = Return (VInt Int64 2) None (NewReader ""))
    by (vm_compute; reflexivity).
  assert (H11 : hashable (VArray []) = false) by reflexivity.
  split; [exact H1|]. split; [exact H2|]. split; [exact H3|]. split; [exact H4|].
  split; [exact H5|]. split; [exact H6|]. split; [exact H7|]. split; [exact H8|].
  split; [exact H9|]. split; [exact H10|]. split; [exact H11|].
  exact (Decode_map_with_composite_key_panics _ _ _ _ _ _ _ _ _ _ _ _ _
           H1 H2 H3 H4 H5 H6 H7 H8 H9 H10 H11).
Defined.

Lemma decodeMap__odd_even (f : nat) :
  forall (r : Reader) (n m : Z) (tm : list (value * value)) (s k : bool),
    0 <= m -> 2 * n <= maxInt ->
    decodeMap_ f r (2 * n - 1) (2 * m) tm s k = decodeMap_ f r (2 * n) (2 * m) tm s k.
Proof.
  induction f as [|f IH]; intros r n m tm s k Hm Hn; [reflexivity|].
  cbn [decodeMap_].
  destruct (Z.ltb_spec (2 * m) (2 * n - 1)) as [Hlt|Hge];
    destruct (Z.ltb_spec (2 * m) (2 * n)) as [Hlt'|Hge']; try lia; [|reflexivity].
  assert (Hw : wrap (2 * m + 2) = 2 * (m + 1)) by (rewrite int_small; lia).
  rewrite Hw.
  destruct (Buffered r =? 0); [reflexivity|].
  destruct (Decode_ f r) as [key e r1| |]; try reflexivity.
  destruct (isEOF e); [reflexivity|]. destruct e; [reflexivity|].
  destruct (Decode_ f r1) as [val e r2| |]; try reflexivity.
  destruct (isEOF e); [reflexivity|]. destruct e; [reflexivity|].
  destruct key; try (apply IH; lia);
    try (destruct (negb (hashable _)); [reflexivity | apply IH; lia]).
  destruct k0; (destruct (negb (hashable _)); [reflexivity | apply IH; lia]).
Qed.

Lemma decodeMap__same_fuel (f f' : nat) (r : Reader) (size i : Z)
  (tm : list (value * value)) (s k : bool) :
  (2 * pending r + 2 <= f)%nat -> (2 * pending r + 2 <= f')%nat ->
  decodeMap_ f r size i tm s k = decodeMap_ f' r size i tm s k.
Proof.
  intros Hf Hf'.
  pose proof (proj2 (proj2 (fuel_enough (2 * pending r + 2))) r size i tm s k
                (Nat.le_refl _)) as He.
  rewrite (proj2 (proj2 (fuel_mono (2 * pending r + 2))) r size i tm s k f Hf He).
  now rewrite (proj2 (proj2 (fuel_mono (2 * pending r + 2))) r size i tm s k f' Hf' He).
Qed.

(** X19: a map record that declares the odd size 2n-1 is decoded exactly as
    one that declares 2n, over the same bytes after the header and whatever
    they hold: same value, error or panic, same reader left.  The declared
    size is at most the number of bytes that follow the header. *)
Theorem Decode_map_odd_size_reads_whole_pairs :
  forall (odd even r1 r1' r2 : Reader) (line line' : string) (e e' : option error)
         (err err' : option Strconv.numerr) (n : Z),
    1 <= n -> 2 * n <= maxInt ->
    2 * n <= Z.of_nat (pending r2) ->
    ReadByte odd = ("%"%char, None, r1) ->
    readLineCRLF r1 = (line, e, r2) ->
    Strconv.Atoi line = (2 * n - 1, err) ->
    ReadByte even = ("%"%char, None, r1') ->
    readLineCRLF r1' = (line', e', r2) ->
    Strconv.Atoi line' = (2 * n, err') ->
    Decode odd = Decode even.
Proof.
  intros odd even r1 r1' r2 line line' e e' err err' n Hn Hmax Hheld
    Hb Hl Ha Hb' Hl' Ha'.
  destruct (ReadByte_cases _ _ _ _ Hb) as [_ Hp1].
  destruct (readLineCRLF_cases _ _ _ _ Hl) as (_ & _ & _ & Hp2).
  destruct (ReadByte_cases _ _ _ _ Hb') as [_ Hp1'].
  destruct (readLineCRLF_cases _ _ _ _ Hl') as (_ & _ & _ & Hp2').
  rewrite !Decode_unfold, (Decode__map _ _ _ Hb), (Decode__map _ _ _ Hb'),
    Hl, Hl', Ha, Ha'.
  rewrite (decodeMap__same_fuel (S (2 * pending odd)) (S (2 * pending even)))
    by lia.
  change 0 with (2 * 0) at 1 2.
  now rewrite decodeMap__odd_even by lia.
Qed.

Lemma Decode_map_odd_size_reads_whole_pairs_witness :
  let pairs := "+a" ++ CRLF ++ ":1" ++ CRLF ++ "+b" ++ CRLF ++ "#t" ++ CRLF in
  let odd := NewReader ("%3" ++ CRLF ++ pairs) in
  let even := NewReader ("%4" ++ CRLF ++ pairs) in
  let r2 := mkReader pairs "" 4080 in
  1 <= 2
  /\ 2 * 2 <= maxInt
  /\ 2 * 2 <= Z.of_nat (pending r2)
  /\ ReadByte odd = ("%"%char, None, mkReader ("3" ++ CRLF ++ pairs) "" 4080)
  /\ readLineCRLF (mkReader ("3" ++ CRLF ++ pairs) "" 4080) = ("3", None, r2)
  /\ Strconv.Atoi "3" = (2 * 2 - 1, None)
  /\ ReadByte even = ("%"%char, None, mkReader ("4" ++ CRLF ++ pairs) "" 4080)
  /\ readLineCRLF (mkReader ("4" ++ CRLF ++ pairs) "" 4080) = ("4", None, r2)
  /\ Strconv.Atoi "4" = (2 * 2, None)
  /\ Decode odd = Decode even
  /\ Decode even
     = Return (VMapString [("a", VInt Int64 1); ("b", VBool true)]) None (NewReader "").
Proof.
  cbv zeta.
  assert (H1 : 1 <= 2) by discriminate.
  assert (H2 : 2 * 2 <= maxInt) by (apply Z.leb_le; vm_compute; reflexivity).
  assert (H3 : 2 * 2 <= Z.of_nat
                          (pending (mkReader ("+a" ++ CRLF ++ ":1" ++ CRLF ++ "+b" ++ CRLF
                                                ++ "#t" ++ CRLF) "" 4080)))
    by (apply Z.leb_le; vm_compute; reflexivity).
  assert (H4 : ReadByte (NewReader ("%3" ++ CRLF ++ "+a" ++ CRLF ++ ":1" ++ CRLF
                                      ++ "+b" ++ CRLF ++ "#t" ++ CRLF))
               = ("%"%char, None,
                  mkReader ("3" ++ CRLF ++ "+a" ++ CRLF ++ ":1" ++ CRLF
                              ++ "+b" ++ CRLF ++ "#t" ++ CRLF) "" 4080))
    by (vm_compute; reflexivity).
  assert (H5 : readLineCRLF (mkReader ("3" ++ CRLF ++ "+a" ++ CRLF ++ ":1" ++ CRLF
                                         ++ "+b" ++ CRLF ++ "#t" ++ CRLF) "" 4080)
               = ("3", None,
                  mkReader ("+a" ++ CRLF ++ ":1" ++ CRLF ++ "+b" ++ CRLF
                              ++ "#t" ++ CRLF) "" 4080))
    by (vm_compute; reflexivity).
  assert (H6 : Strconv.Atoi "3" = (2 * 2 - 1, None)) by (vm_compute; reflexivity).
  assert (H7 : ReadByte (NewReader ("%4" ++ CRLF ++ "+a" ++ CRLF ++ ":1" ++ CRLF
                                      ++ "+b" ++ CRLF ++ "#t" ++ CRLF))
               = ("%"%char, None,
                  mkReader ("4" ++ CRLF ++ "+a" ++ CRLF ++ ":1" ++ CRLF
                              ++ "+b" ++ CRLF ++ "#t" ++ CRLF) "" 4080))
    by (vm_compute; reflexivity).
  assert (H8 : readLineCRLF (mkReader ("4" ++ CRLF ++ "+a" ++ CRLF ++ ":1" ++ CRLF
                                         ++ "+b" ++ CRLF ++ "#t" ++ CRLF) "" 4080)
               = ("4", None,
                  mkReader ("+a" ++ CRLF ++ ":1" ++ CRLF ++ "+b" ++ CRLF
                              ++ "#t" ++ CRLF) "" 4080))
    by (vm_compute; reflexivity).
  assert (H9 : Strconv.Atoi "4" = (2 * 2, None)) by (vm_compute; reflexivity).
  split; [exact H1|]. split; [exact H2|]. split; [exact H3|]. split; [exact H4|].
  split; [exact H5|]. split; [exact H6|]. split; [exact H7|]. split; [exact H8|].
  split; [exact H9|].
  split; [|vm_compute; reflexivity].
  exact (Decode_map_odd_size_reads_whole_pairs _ _ _ _ _ _ _ _ _ _ _ 2
           H1 H2 H3 H4 H5 H6 H7 H8 H9).
Defined.

End LoopRuns.
